(** * bnb-fly-proxy: a shallow embedding of the proxy's request handlers

    The repository is a small Express application (two near-identical
    entry points, [index.js] and a later variant with a time-zone aware
    day range) that forwards price, balance and trade queries to the
    Binance REST API.  This file embeds

    - the JavaScript runtime operations the handlers rely on (binary64
      numbers, [Number(...)], [String(...)], [toFixed], [Date] parsing,
      HMAC-SHA256),
    - the JSON values the upstream returns,
    - the handlers themselves, as programs over two effects
      ([Date.now()] and [fetch]), with the CORS middleware and the index
      route before them,
    - the keep-alive ping of the later entry point,

    and states the properties of the specification over them, followed
    by further properties of the same code. *)

From Stdlib Require Import ZArith List String Ascii Bool Lia.
From Stdlib Require Import Floats.SpecFloat.
Import ListNotations.

Local Open Scope string_scope.
Local Open Scope Z_scope.

(* ===================================================================== *)
(** * Strings

    JavaScript strings are modelled by their UTF-8 bytes. *)
(* ===================================================================== *)

Module Str.

Definition is_digit (c : ascii) : bool :=
  let n := Z.of_nat (nat_of_ascii c) in (48 <=? n) && (n <=? 57).

Definition digit_val (c : ascii) : Z := Z.of_nat (nat_of_ascii c) - 48.

Definition digit_char (d : Z) : ascii := ascii_of_nat (Z.to_nat (48 + d)).

(** Decimal digits of a non-negative integer, most significant first.
    [fuel] bounds the number of digits produced. *)
Fixpoint digits_fuel (fuel : nat) (n : Z) (acc : string) : string :=
  match fuel with
  | O => acc
  | S f =>
      let acc' := String (digit_char (n mod 10)) acc in
      if n / 10 =? 0 then acc' else digits_fuel f (n / 10) acc'
  end.

Definition decimal_nonneg (n : Z) : string :=
  digits_fuel (S (Z.to_nat (Z.log2 n))) n "".

(** [String(n)] for an integer [n] (in the range where JavaScript prints
    an integer in full). *)
Definition decimal (n : Z) : string :=
  if n <? 0 then "-" ++ decimal_nonneg (- n) else decimal_nonneg n.

Fixpoint repeat_char (c : ascii) (n : nat) : string :=
  match n with O => "" | S k => String c (repeat_char c k) end.

(** [s.padStart(n, c)] for a one-character filler. *)
Definition padStart (s : string) (n : nat) (c : ascii) : string :=
  repeat_char c (n - String.length s) ++ s.

Fixpoint rev_acc (s acc : string) : string :=
  match s with
  | EmptyString => acc
  | String c r => rev_acc r (String c acc)
  end.

Definition rev (s : string) : string := rev_acc s "".

Fixpoint starts_with (p s : string) : option string :=
  match p, s with
  | EmptyString, _ => Some s
  | String a p', String b s' => if Ascii.eqb a b then starts_with p' s' else None
  | _, EmptyString => None
  end.


(** Do all characters of [s] satisfy [f]? *)
Fixpoint all (f : ascii -> bool) (s : string) : bool :=
  match s with
  | EmptyString => true
  | String c r => f c && all f r
  end.

Fixpoint join (sep : string) (l : list string) : string :=
  match l with
  | [] => ""
  | [x] => x
  | x :: r => x ++ sep ++ join sep r
  end.

End Str.

(* ===================================================================== *)
(** * Numbers

    A JavaScript Number is an IEEE 754 binary64 value.  The operations
    are those of [SpecFloat] at precision 53 and maximal exponent 1024;
    the conversions from and to strings follow ECMAScript
    ([StringToNumber], [Number::toString], [Number.prototype.toFixed]). *)
(* ===================================================================== *)

Module Num.

Definition jsnum : Type := spec_float.

Definition prec : Z := 53.
Definition emax : Z := 1024.

Definition NaN : jsnum := S754_nan.
Definition pzero : jsnum := S754_zero false.
Definition infinity (neg : bool) : jsnum := S754_infinity neg.

Definition is_nan (x : jsnum) : bool :=
  match x with S754_nan => true | _ => false end.

Definition is_finite (x : jsnum) : bool :=
  match x with S754_zero _ | S754_finite _ _ _ => true | _ => false end.

(** The Number nearest to an integer (ties to even). *)
Definition of_Z (z : Z) : jsnum := binary_normalize prec emax z 0 false.

(** The Number nearest to the fraction [n / d] (ties to even). *)
Definition of_ratio (neg : bool) (n d : positive) : jsnum :=
  SFdiv prec emax (S754_finite neg n 0) (S754_finite false d 0).

(** [x + y], [x - y], [x * y]. *)
Definition add : jsnum -> jsnum -> jsnum := SFadd prec emax.
Definition sub : jsnum -> jsnum -> jsnum := SFsub prec emax.
Definition mul : jsnum -> jsnum -> jsnum := SFmul prec emax.

(** [x >= y]: false as soon as one side is NaN. *)
Definition ge (x y : jsnum) : bool :=
  match SFcompare x y with
  | Some Gt | Some Eq => true
  | _ => false
  end.

(** The exact value [m * 2^e] of a finite Number as a fraction. *)
Definition ratio_of (m : positive) (e : Z) : Z * Z :=
  if 0 <=? e then (Zpos m * 2 ^ e, 1) else (Zpos m, 2 ^ (- e)).

(** [Math.abs]. *)
Definition abs (x : jsnum) : jsnum := SFabs x.

(** [Math.floor]: NaN, zeros and infinities are returned unchanged. *)
Definition floor (x : jsnum) : jsnum :=
  match x with
  | S754_finite s m e =>
      let '(p, q) := ratio_of m e in
      of_Z ((if s then - p else p) / q)
  | _ => x
  end.

(** [Math.round]: the nearest integer, ties towards +Infinity; a result
    of zero keeps the sign of the argument. *)
Definition round (x : jsnum) : jsnum :=
  match x with
  | S754_finite s m e =>
      let '(p, q) := ratio_of m e in
      if p mod q =? 0 then x
      else
        let n := (2 * (if s then - p else p) + q) / (2 * q) in
        if n =? 0 then S754_zero s else of_Z n
  | _ => x
  end.

(** ** [StringToNumber] *)

Definition bytes (l : list nat) : string :=
  fold_right (fun n s => String (ascii_of_nat n) s) "" l.

(** White space and line terminators of ECMAScript, as UTF-8 byte
    sequences: TAB, LF, VT, FF, CR, SP, NBSP, U+1680, U+2000..U+200A,
    U+2028, U+2029, U+202F, U+205F, U+3000, U+FEFF. *)
Definition white_space : list string :=
  map bytes
    [ [9%nat]; [10%nat]; [11%nat]; [12%nat]; [13%nat]; [32%nat];
      [194; 160]%nat; [225; 154; 128]%nat;
      [226; 128; 128]%nat; [226; 128; 129]%nat; [226; 128; 130]%nat;
      [226; 128; 131]%nat; [226; 128; 132]%nat; [226; 128; 133]%nat;
      [226; 128; 134]%nat; [226; 128; 135]%nat; [226; 128; 136]%nat;
      [226; 128; 137]%nat; [226; 128; 138]%nat;
      [226; 128; 168]%nat; [226; 128; 169]%nat; [226; 128; 175]%nat;
      [226; 129; 159]%nat; [227; 128; 128]%nat; [239; 187; 191]%nat ].

Fixpoint strip_one (seqs : list string) (s : string) : option string :=
  match seqs with
  | [] => None
  | p :: r =>
      match Str.starts_with p s with
      | Some rest => Some rest
      | None => strip_one r s
      end
  end.

Fixpoint trim_start_fuel (fuel : nat) (seqs : list string) (s : string) : string :=
  match fuel with
  | O => s
  | S f =>
      match strip_one seqs s with
      | Some rest => trim_start_fuel f seqs rest
      | None => s
      end
  end.

Definition trim_start (s : string) : string :=
  trim_start_fuel (String.length s) white_space s.

Definition trim_end (s : string) : string :=
  Str.rev (trim_start_fuel (String.length s) (map Str.rev white_space) (Str.rev s)).

Definition trim (s : string) : string := trim_end (trim_start s).

(** Reads a run of decimal digits: the integer read so far, the number
    of digits read, and the rest of the input. *)
Fixpoint take_digits (s : string) (acc cnt : Z) : Z * Z * string :=
  match s with
  | String c r =>
      if Str.is_digit c then take_digits r (10 * acc + Str.digit_val c) (cnt + 1)
      else (acc, cnt, s)
  | EmptyString => (acc, cnt, s)
  end.

(** The Number nearest to [d * 10^e], for an integer [d >= 0] written
    with at most [cnt] digits.  Beyond the range of binary64 the result
    is known without computing the power of ten. *)
Definition of_decimal (neg : bool) (d e cnt : Z) : jsnum :=
  match d with
  | Zpos p =>
      if 400 <? e then S754_infinity neg
      else if cnt + e <? -400 then S754_zero neg
      else if 0 <=? e then binary_normalize prec emax ((if neg then - d else d) * 10 ^ e) 0 neg
      else of_ratio neg p (Z.to_pos (10 ^ (- e)))
  | _ => S754_zero neg
  end.

Definition is_exp_mark (c : ascii) : bool :=
  Ascii.eqb c "e" || Ascii.eqb c "E".

(** [ExponentPart], when present. *)
Definition parse_exponent (s : string) : option (Z * string) :=
  match s with
  | String c r =>
      if is_exp_mark c then
        let '(sg, r1) :=
          match r with
          | String "+" r' => (1, r')
          | String "-" r' => (-1, r')
          | _ => (1, r)
          end in
        let '(v, n, r2) := take_digits r1 0 0 in
        if n =? 0 then None else Some (sg * v, r2)
      else Some (0, s)
  | EmptyString => Some (0, s)
  end.

(** [StrUnsignedDecimalLiteral]. *)
Definition parse_unsigned_decimal (neg : bool) (s : string) : option jsnum :=
  if String.eqb s "Infinity" then Some (S754_infinity neg)
  else
    let '(ip, ni, r1) := take_digits s 0 0 in
    let '(d, nf, r2) :=
      match r1 with
      | String "." r => let '(d, n, r') := take_digits r ip 0 in (d, n, r')
      | _ => (ip, 0, r1)
      end in
    if (ni + nf =? 0) then None
    else
      match parse_exponent r2 with
      | Some (ex, EmptyString) => Some (of_decimal neg d (ex - nf) (ni + nf))
      | _ => None
      end.

Definition hex_val (c : ascii) : option Z :=
  let n := Z.of_nat (nat_of_ascii c) in
  if (48 <=? n) && (n <=? 57) then Some (n - 48)
  else if (65 <=? n) && (n <=? 70) then Some (n - 55)
  else if (97 <=? n) && (n <=? 102) then Some (n - 87)
  else None.

(** Digits of a [NonDecimalIntegerLiteral] in the given radix. *)
Fixpoint radix_digits (radix : Z) (s : string) (acc : Z) : option Z :=
  match s with
  | EmptyString => Some acc
  | String c r =>
      match hex_val c with
      | Some v => if v <? radix then radix_digits radix r (radix * acc + v) else None
      | None => None
      end
  end.

Definition parse_non_decimal (s : string) : option jsnum :=
  match s with
  | String "0" (String c (String d r)) =>
      let radix :=
        if Ascii.eqb c "x" || Ascii.eqb c "X" then Some 16
        else if Ascii.eqb c "o" || Ascii.eqb c "O" then Some 8
        else if Ascii.eqb c "b" || Ascii.eqb c "B" then Some 2
        else None in
      match radix with
      | Some b => option_map of_Z (radix_digits b (String d r) 0)
      | None => None
      end
  | _ => None
  end.

(** [Number(s)] for a string [s]. *)
Definition of_string (s : string) : jsnum :=
  match trim s with
  | EmptyString => pzero
  | String c r as t =>
      let parsed :=
        match parse_non_decimal t with
        | Some v => Some v
        | None =>
            if Ascii.eqb c "+" then parse_unsigned_decimal false r
            else if Ascii.eqb c "-" then parse_unsigned_decimal true r
            else parse_unsigned_decimal false t
        end in
      match parsed with
      | Some v => v
      | None => NaN
      end
  end.

(** ** [Number::toString] (radix 10) *)

(** [p / q < 10^n], for positive [p] and [q]. *)
Definition below_pow10 (p q n : Z) : bool :=
  if 0 <=? n then p <? 10 ^ n * q else p * 10 ^ (- n) <? q.

(** The least [n], from [n0] upwards, with [p / q < 10^n]. *)
Fixpoint decimal_exponent_from (fuel : nat) (p q n0 : Z) : Z :=
  match fuel with
  | O => n0
  | S f => if below_pow10 p q n0 then n0 else decimal_exponent_from f p q (n0 + 1)
  end.

(** The [n] with [10^(n-1) <= p / q < 10^n].  The search starts two
    below an estimate from the binary logarithms, which is never above
    the answer. *)
Definition decimal_exponent (p q : Z) : Z :=
  decimal_exponent_from 12 p q ((Z.log2 p - Z.log2 q) * 30103 / 100000 - 2).

(** [floor (p / q * 10^j)]. *)
Definition scaled_floor (p q j : Z) : Z :=
  if 0 <=? j then (p * 10 ^ j) / q else p / (q * 10 ^ (- j)).

Definition same_num (x y : jsnum) : bool :=
  match x, y with
  | S754_finite s m e, S754_finite s' m' e' => Bool.eqb s s' && Pos.eqb m m' && (e =? e')
  | S754_zero s, S754_zero s' => Bool.eqb s s'
  | S754_infinity s, S754_infinity s' => Bool.eqb s s'
  | S754_nan, S754_nan => true
  | _, _ => false
  end.

(** Does the decimal [s * 10^(n - k)] denote the Number [x]? *)
Definition denotes (x : jsnum) (s n k : Z) : bool :=
  same_num (of_decimal false s (n - k) k) x.

(** Is [lo * 10^(n-k)] at least as close to [p / q] as [(lo + 1) * 10^(n-k)],
    with a tie going to the even one?  Compared after scaling by [2 q]
    and by the power of ten. *)
Definition prefers_low (p q lo n k : Z) : bool :=
  let j := k - n in
  let '(x2, unit) :=
    if 0 <=? j then (2 * p * 10 ^ j, q) else (2 * p, q * 10 ^ (- j)) in
  match x2 ?= (2 * lo + 1) * unit with
  | Lt => true
  | Gt => false
  | Eq => Z.even lo
  end.

(** The shortest digits [s] (as an integer of [k] digits) and the decimal
    exponent [n] such that [s * 10^(n-k)] denotes [x = p / q]; among the
    candidates of that length, the closest to [x]. *)
Fixpoint shortest_from (fuel : nat) (x : jsnum) (p q n k : Z) : Z * Z * Z :=
  let lo := scaled_floor p q (k - n) in
  let hi := lo + 1 in
  let pick (s : Z) := if s =? 10 ^ k then (10 ^ (k - 1), n + 1, k) else (s, n, k) in
  match fuel with
  | O => pick lo
  | S f =>
      match denotes x lo n k, denotes x hi n k with
      | true, true => pick (if prefers_low p q lo n k then lo else hi)
      | true, false => pick lo
      | false, true => pick hi
      | false, false => shortest_from f x p q n (k + 1)
      end
  end.

Definition shortest (x : jsnum) (m : positive) (e : Z) : Z * Z * Z :=
  let '(p, q) := ratio_of m e in
  shortest_from 17 x p q (decimal_exponent p q) 1.

(** The layout of the digits [s] (of length [k]) with decimal exponent
    [n], as in the last steps of [Number::toString]. *)
Definition layout (s n k : Z) : string :=
  let ds := Str.decimal_nonneg s in
  if (k <=? n) && (n <=? 21) then
    ds ++ Str.repeat_char "0" (Z.to_nat (n - k))
  else if (0 <? n) && (n <=? 21) then
    substring 0 (Z.to_nat n) ds ++ "." ++ substring (Z.to_nat n) (Z.to_nat (k - n)) ds
  else if (-6 <? n) && (n <=? 0) then
    "0." ++ Str.repeat_char "0" (Z.to_nat (- n)) ++ ds
  else
    let ex := (if n - 1 <? 0 then "-" else "+") ++ Str.decimal_nonneg (Z.abs (n - 1)) in
    if k =? 1 then ds ++ "e" ++ ex
    else substring 0 1 ds ++ "." ++ substring 1 (Z.to_nat (k - 1)) ds ++ "e" ++ ex.

(** [String(x)] for a Number [x]. *)
Definition to_string (x : jsnum) : string :=
  match x with
  | S754_nan => "NaN"
  | S754_zero _ => "0"
  | S754_infinity neg => if neg then "-Infinity" else "Infinity"
  | S754_finite neg m e =>
      let '(s, n, k) := shortest (S754_finite false m e) m e in
      (if neg then "-" else "") ++ layout s n k
  end.

(** ** [Number.prototype.toFixed] *)

(** [x.toFixed(f)]: the decimal with [f] fraction digits nearest to [x],
    the larger one on a tie; from [10^21] on, and for NaN and the
    infinities, the result of [String(x)]. *)
Definition toFixed (x : jsnum) (f : nat) : string :=
  match x with
  | S754_zero _ => "0" ++ (if Nat.eqb f 0 then "" else "." ++ Str.repeat_char "0" f)
  | S754_finite neg m e =>
      let '(p, q) := ratio_of m e in
      if 10 ^ 21 * q <=? p then to_string x
      else
        let scale := 10 ^ Z.of_nat f in
        let n := (2 * p * scale + q) / (2 * q) in
        let ds := Str.padStart (Str.decimal_nonneg n) (S f) "0" in
        let k := String.length ds in
        (if neg then "-" else "") ++
        substring 0 (k - f) ds ++
        (if Nat.eqb f 0 then "" else "." ++ substring (k - f) f ds)
  | _ => to_string x
  end.

End Num.

(* ===================================================================== *)
(** * Dates

    [new Date(s).getTime()].  A time value is an integral number of
    milliseconds since 1970-01-01T00:00:00Z, or NaN; it is modelled as
    [option Z], with [None] for NaN.

    The reader below decides the strings of the date-time format of
    ECMAScript as V8 reads them: a date, ["T"], a time and a zone
    designator.  What V8 makes of any other string is not modelled: it
    hands the string to a second, lenient parser, which reads many
    shapes of dates (["Jan 1 2025"], text in parentheses skipped, ...).
    That reading is a parameter, [legacy], of [parse]; every property
    holds whatever it is. *)
(* ===================================================================== *)

Module DateTime.

Definition time_value : Type := option Z.

Definition msPerDay : Z := 86400000.

Definition DayFromYear (y : Z) : Z :=
  365 * (y - 1970) + (y - 1969) / 4 - (y - 1901) / 100 + (y - 1601) / 400.

Definition InLeapYear (y : Z) : bool :=
  ((y mod 4 =? 0) && negb (y mod 100 =? 0)) || (y mod 400 =? 0).

(** Number of days of the year before the first of month [m] (0-based). *)
Definition month_start (leap : bool) (m : Z) : Z :=
  let l := if leap then 1 else 0 in
  match m with
  | 0 => 0
  | 1 => 31
  | 2 => 59 + l
  | 3 => 90 + l
  | 4 => 120 + l
  | 5 => 151 + l
  | 6 => 181 + l
  | 7 => 212 + l
  | 8 => 243 + l
  | 9 => 273 + l
  | 10 => 304 + l
  | _ => 334 + l
  end.

(** [MakeDay(year, month, date)], [month] counted from 0. *)
Definition MakeDay (year month date : Z) : Z :=
  let ym := year + month / 12 in
  let mn := month mod 12 in
  DayFromYear ym + month_start (InLeapYear ym) mn + date - 1.

Definition MakeTime (h m s ms : Z) : Z :=
  h * 3600000 + m * 60000 + s * 1000 + ms.

Definition MakeDate (day time : Z) : Z := day * msPerDay + time.

Definition TimeClip (t : Z) : time_value :=
  if Z.abs t <=? 8640000000000000 then Some t else None.

(** Reads exactly [n] decimal digits. *)
Fixpoint fixed_digits (n : nat) (s : string) (acc : Z) : option (Z * string) :=
  match n with
  | O => Some (acc, s)
  | S k =>
      match s with
      | String c r =>
          if Str.is_digit c then fixed_digits k r (10 * acc + Str.digit_val c)
          else None
      | EmptyString => None
      end
  end.

(** The year: [YYYY], or a sign and six digits ([-000000] excluded). *)
Definition parse_year (s : string) : option (Z * string) :=
  match s with
  | String c r =>
      if Ascii.eqb c "+" then fixed_digits 6 r 0
      else if Ascii.eqb c "-" then
        match fixed_digits 6 r 0 with
        | Some (y, r') => if y =? 0 then None else Some (- y, r')
        | None => None
        end
      else fixed_digits 4 s 0
  | EmptyString => None
  end.

(** An optional field ["-NN"] with [lo <= NN <= hi]; [dflt] when the
    input does not continue with a hyphen. *)
Definition parse_dash_field (lo hi dflt : Z) (s : string) : option (Z * bool * string) :=
  match s with
  | String c r =>
      if Ascii.eqb c "-" then
        match fixed_digits 2 r 0 with
        | Some (v, r') => if (lo <=? v) && (v <=? hi) then Some (v, true, r') else None
        | None => None
        end
      else Some (dflt, false, s)
  | EmptyString => Some (dflt, false, s)
  end.

(** The date part: year, then optionally month, then optionally day.
    As in V8, a day of up to 31 is read in any month; [MakeDay] carries
    the excess into the next month. *)
Definition parse_date (s : string) : option (Z * Z * Z * string) :=
  match parse_year s with
  | Some (y, r1) =>
      match parse_dash_field 1 12 1 r1 with
      | Some (m, true, r2) =>
          match parse_dash_field 1 31 1 r2 with
          | Some (d, _, r3) => Some (y, m, d, r3)
          | None => None
          end
      | Some (m, false, r2) => Some (y, m, 1, r2)
      | None => None
      end
  | None => None
  end.

(** What reading a part of the string gives: a value; or the string is
    not a date ([Invalid], NaN); or nothing is decided here and the
    string is left to the runtime ([Open]). *)
Inductive reading (A : Type) : Type :=
| Value (a : A)
| Invalid
| Open.

Arguments Value {A} a.
Arguments Invalid {A}.
Arguments Open {A}.

(** Does the string start with a digit? *)
Definition digit_next (s : string) : bool :=
  match s with
  | String c _ => Str.is_digit c
  | EmptyString => false
  end.

(** The time part after ["T"]: [HH:mm], optionally [:ss], optionally
    [.sss]; the value is in milliseconds.  Hour 24 is read only as
    24:00:00.000.  With a fraction of other than three digits the
    string is left open. *)
Definition parse_time (s : string) : reading (Z * string) :=
  match fixed_digits 2 s 0 with
  | Some (h, String ":" r1) =>
      match fixed_digits 2 r1 0 with
      | Some (mi, r2) =>
          let in_range (sc ms : Z) (r : string) : reading (Z * string) :=
            if (h <=? 23) && (mi <=? 59) && (sc <=? 59) then
              Value (MakeTime h mi sc ms, r)
            else if (h =? 24) && (mi =? 0) && (sc =? 0) && (ms =? 0) then
              Value (MakeTime h mi sc ms, r)
            else Invalid in
          match r2 with
          | String ":" r3 =>
              match fixed_digits 2 r3 0 with
              | Some (sc, String "." r5) =>
                  if digit_next r5 then
                    match fixed_digits 3 r5 0 with
                    | Some (ms, r6) => if digit_next r6 then Open else in_range sc ms r6
                    | None => Open
                    end
                  else Invalid
              | Some (sc, r5) => in_range sc 0 r5
              | None => Invalid
              end
          | _ => in_range 0 0 r2
          end
      | None => Invalid
      end
  | _ => Invalid
  end.

(** The zone designator, which must end the string: ["Z"], or a sign
    followed by [HH:mm]; the value is the offset from UTC in
    milliseconds.  Left open: no designator at all (the time is then
    read in the local zone of the host), a lower-case ["z"], and a sign
    followed by four digits. *)
Definition parse_zone (s : string) : reading Z :=
  match s with
  | EmptyString => Open
  | String c r =>
      if Ascii.eqb c "Z" then
        match r with
        | EmptyString => Value 0
        | _ => Invalid
        end
      else if Ascii.eqb c "z" then
        match r with
        | EmptyString => Open
        | _ => Invalid
        end
      else if Ascii.eqb c "+" || Ascii.eqb c "-" then
        match fixed_digits 2 r 0 with
        | Some (h, String ":" r1) =>
            match fixed_digits 2 r1 0 with
            | Some (mi, EmptyString) =>
                if (h <=? 23) && (mi <=? 59) then
                  Value ((if Ascii.eqb c "-" then -1 else 1) * (h * 60 + mi) * 60000)
                else Invalid
            | _ => Invalid
            end
        | _ =>
            match fixed_digits 4 r 0 with
            | Some (_, EmptyString) => Open
            | _ => Invalid
            end
        end
      else Invalid
  end.

(** [new Date(s).getTime()].  A date alone is read as UTC.  A date
    followed by ["T"] and a digit is a date-time: from there on whatever
    does not fit the format makes the string NaN.  Every other string,
    one that does not start with a date of the format among them, is
    read by [legacy]. *)
Definition parse (legacy : string -> time_value) (s : string) : time_value :=
  match parse_date s with
  | Some (y, m, d, EmptyString) =>
      TimeClip (MakeDate (MakeDay y (m - 1) d) 0)
  | Some (y, m, d, String c r) =>
      if Ascii.eqb c "T" && digit_next r then
        match parse_time r with
        | Value (t, r') =>
            match parse_zone r' with
            | Value off => TimeClip (MakeDate (MakeDay y (m - 1) d) t - off)
            | Invalid => None
            | Open => legacy s
            end
        | Invalid => None
        | Open => legacy s
        end
      else legacy s
  | None => legacy s
  end.

(** [String(t)] for a time value, as a template literal prints it. *)
Definition to_string (t : time_value) : string :=
  match t with
  | Some z => Str.decimal z
  | None => "NaN"
  end.

End DateTime.

(* ===================================================================== *)
(** * HMAC-SHA256

    [crypto.createHmac("sha256", secret).update(message).digest("hex")]:
    SHA-256 (FIPS 180-4) on 32-bit words kept in [Z], HMAC (RFC 2104) with
    a block of 64 bytes, and the digest printed in lowercase hexadecimal. *)
(* ===================================================================== *)

Module Hmac.

Definition w32 (x : Z) : Z := x mod 2 ^ 32.

Definition add32 (x y : Z) : Z := w32 (x + y).

Definition rotr (n x : Z) : Z :=
  w32 (Z.lor (Z.shiftr x n) (Z.shiftl x (32 - n))).

Definition not32 (x : Z) : Z := Z.lxor x (2 ^ 32 - 1).

Definition Ch (x y z : Z) : Z := Z.lxor (Z.land x y) (Z.land (not32 x) z).

Definition Maj (x y z : Z) : Z :=
  Z.lxor (Z.lxor (Z.land x y) (Z.land x z)) (Z.land y z).

Definition bsig0 (x : Z) : Z := Z.lxor (Z.lxor (rotr 2 x) (rotr 13 x)) (rotr 22 x).
Definition bsig1 (x : Z) : Z := Z.lxor (Z.lxor (rotr 6 x) (rotr 11 x)) (rotr 25 x).
Definition ssig0 (x : Z) : Z := Z.lxor (Z.lxor (rotr 7 x) (rotr 18 x)) (Z.shiftr x 3).
Definition ssig1 (x : Z) : Z := Z.lxor (Z.lxor (rotr 17 x) (rotr 19 x)) (Z.shiftr x 10).

(** The first [n] primes at least [from], by trial division. *)
Fixpoint primes_from (fuel n : nat) (from : Z) : list Z :=
  match fuel, n with
  | S f, S k =>
      if forallb (fun d => negb (from mod (Z.of_nat d) =? 0))
                 (seq 2 (Z.to_nat from - 2))
      then from :: primes_from f k (from + 1)
      else primes_from f n (from + 1)
  | _, _ => []
  end.

(** The integer part of the cube root of [n], one bit at a time from
    bit [k - 1] down. *)
Fixpoint cube_root_bits (k : nat) (n r : Z) : Z :=
  match k with
  | O => r
  | S k' =>
      let r' := r + 2 ^ Z.of_nat k' in
      if r' * r' * r' <=? n then cube_root_bits k' n r' else cube_root_bits k' n r
  end.

(** The round constants: the first 32 bits of the fractional parts of the
    cube roots of the first 64 primes. *)
Definition K : list Z :=
  Eval vm_compute in
    map (fun p => w32 (cube_root_bits 40 (p * 2 ^ 96) 0)) (primes_from 400 64 2).

(** The initial hash value: the first 32 bits of the fractional parts of
    the square roots of the first 8 primes. *)
Definition H0 : list Z :=
  Eval vm_compute in
    map (fun p => w32 (Z.sqrt (p * 2 ^ 64))) (primes_from 400 8 2).

Definition bytes_of_string (s : string) : list Z :=
  map (fun c => Z.of_nat (nat_of_ascii c)) (list_ascii_of_string s).

(** Big-endian bytes of [x], [n] of them. *)
Fixpoint be_bytes (n : nat) (x : Z) : list Z :=
  match n with
  | O => []
  | S k => (Z.shiftr x (8 * Z.of_nat k)) mod 256 :: be_bytes k x
  end.

(** The message followed by the bit 1, zeros up to 56 modulo 64 bytes,
    and the length in bits on eight bytes. *)
Definition pad (msg : list Z) : list Z :=
  let len := Z.of_nat (List.length msg) in
  let zeros := Z.to_nat ((55 - len) mod 64) in
  (msg ++ [128] ++ repeat 0 zeros ++ be_bytes 8 (8 * len))%list.

(** Big-endian 32-bit words of a byte list. *)
Fixpoint words (fuel : nat) (bs : list Z) : list Z :=
  match fuel, bs with
  | S f, a :: b :: c :: d :: r =>
      (a * 2 ^ 24 + b * 2 ^ 16 + c * 2 ^ 8 + d) :: words f r
  | _, _ => []
  end.

(** The message schedule, most recent word first: [rev_w] holds
    W(t-1), W(t-2), ... and is extended by [n] words. *)
Fixpoint schedule (n : nat) (rev_w : list Z) : list Z :=
  match n with
  | O => rev_w
  | S k =>
      let w :=
        add32 (add32 (ssig1 (nth 1 rev_w 0)) (nth 6 rev_w 0))
              (add32 (ssig0 (nth 14 rev_w 0)) (nth 15 rev_w 0)) in
      schedule k (w :: rev_w)
  end.

Definition round (st : list Z) (kw : Z * Z) : list Z :=
  match st with
  | [a; b; c; d; e; f; g; h] =>
      let t1 := add32 (add32 (add32 h (bsig1 e)) (add32 (Ch e f g) (fst kw))) (snd kw) in
      let t2 := add32 (bsig0 a) (Maj a b c) in
      [add32 t1 t2; a; b; c; add32 d t1; e; f; g]
  | _ => st
  end.

(** One block of sixteen words folded into the hash value. *)
Definition compress (h : list Z) (block : list Z) : list Z :=
  let w := List.rev (schedule 48 (List.rev block)) in
  let st := fold_left round (combine K w) h in
  map (fun p => add32 (fst p) (snd p)) (combine h st).

Fixpoint blocks (fuel : nat) (ws : list Z) (h : list Z) : list Z :=
  match fuel, ws with
  | S f, _ :: _ => blocks f (skipn 16 ws) (compress h (firstn 16 ws))
  | _, _ => h
  end.

Definition sha256 (msg : list Z) : list Z :=
  let p := pad msg in
  let ws := words (List.length p) p in
  flat_map (be_bytes 4) (blocks (List.length ws) ws H0).

Definition xor_with (c : Z) (l : list Z) : list Z := map (Z.lxor c) l.

Definition hmac_sha256 (key msg : list Z) : list Z :=
  let k0 := if (64 <? List.length key)%nat then sha256 key else key in
  let k := (k0 ++ repeat 0 (64 - List.length k0))%list in
  sha256 (xor_with 0x5c k ++ sha256 (xor_with 0x36 k ++ msg))%list.

Definition hex_digit (n : Z) : ascii :=
  if n <? 10 then ascii_of_nat (Z.to_nat (48 + n)) else ascii_of_nat (Z.to_nat (87 + n)).

Fixpoint hex (bs : list Z) : string :=
  match bs with
  | [] => ""
  | b :: r => String (hex_digit (b / 16)) (String (hex_digit (b mod 16)) (hex r))
  end.

(** [hmac(message, secret)] of the source. *)
Definition hmac (message secret : string) : string :=
  hex (hmac_sha256 (bytes_of_string secret) (bytes_of_string message)).

End Hmac.

(* ===================================================================== *)
(** * JavaScript values

    The values [JSON.parse] produces, with the conversions the handlers
    apply to them.  [undefined] is the [None] of [option value].
    Operations that can throw return [exn + _], the exception on the
    left. *)
(* ===================================================================== *)

Module Js.

Import Num.

(** An exception: [e.name] and [e.message]. *)
Record exn : Type := { exn_name : string; exn_message : string }.

Definition TypeError (msg : string) : exn :=
  {| exn_name := "TypeError"; exn_message := msg |}.

(** [String(e)] for an [Error] object. *)
Definition exn_to_string (e : exn) : string :=
  if String.eqb (exn_message e) "" then exn_name e
  else exn_name e ++ ": " ++ exn_message e.

Definition result (A : Type) : Type := exn + A.

Definition bind {A B : Type} (r : result A) (f : A -> result B) : result B :=
  match r with
  | inl e => inl e
  | inr a => f a
  end.

Notation "x <- c ;; k" := (bind c (fun x => k))
  (at level 61, c at next level, right associativity).

#[warnings="-register-all"] Inductive value : Type :=
| Null
| Bool (b : bool)
| Number (n : jsnum)
| Str (s : string)
| Arr (items : list value)
| Obj (fields : list (string * value)).

(** The value of key [k] in a parsed object; of two equal keys the later
    one counts, as in [JSON.parse]. *)
Fixpoint lookup (k : string) (fields : list (string * value)) : option value :=
  match fields with
  | [] => None
  | (k', v) :: r =>
      match lookup k r with
      | Some v' => Some v'
      | None => if String.eqb k k' then Some v else None
      end
  end.

(** [v.k] for the property names the handlers read ([price], [balances],
    [asset], [free], [locked], [quoteQty]), none of which is defined on
    the prototypes of strings, numbers, booleans or arrays.  Reading a
    property of [null] or [undefined] throws (message as V8 words it). *)
Definition get (v : option value) (k : string) : result (option value) :=
  match v with
  | None =>
      inl (TypeError ("Cannot read properties of undefined (reading '" ++ k ++ "')"))
  | Some Null =>
      inl (TypeError ("Cannot read properties of null (reading '" ++ k ++ "')"))
  | Some (Obj fields) => inr (lookup k fields)
  | Some _ => inr None
  end.

(** [ToBoolean]. *)
Definition truthy (v : option value) : bool :=
  match v with
  | None => false
  | Some Null => false
  | Some (Bool b) => b
  | Some (Number (S754_zero _)) => false
  | Some (Number S754_nan) => false
  | Some (Number _) => true
  | Some (Str s) => negb (String.eqb s "")
  | Some (Arr _) => true
  | Some (Obj _) => true
  end.

(** [a || b]. *)
Definition or_else (a : option value) (b : value) : option value :=
  if truthy a then a else Some b.

Definition cannot_convert : exn :=
  TypeError "Cannot convert object to primitive value".

(** [ToString].  An array is the join of its elements with [","], [null]
    elements giving the empty string.  A parsed object is
    ["[object Object]"], unless it has a key [toString] of its own: that
    hides [Object.prototype.toString] behind a value that cannot be
    called, and the conversion throws. *)
Fixpoint to_string (v : value) : result string :=
  match v with
  | Null => inr "null"
  | Bool b => inr (if b then "true" else "false")
  | Number n => inr (Num.to_string n)
  | Str s => inr s
  | Arr items =>
      let fix elements (l : list value) : result (list string) :=
        match l with
        | [] => inr []
        | x :: r =>
            s <- match x with Null => inr "" | _ => to_string x end ;;
            ss <- elements r ;;
            inr (s :: ss)
        end in
      ss <- elements items ;;
      inr (Str.join "," ss)
  | Obj fields =>
      match lookup "toString" fields with
      | Some _ => inl cannot_convert
      | None => inr "[object Object]"
      end
  end.

(** [Number(v)], that is [ToNumber]. *)
Definition to_number (v : option value) : result jsnum :=
  match v with
  | None => inr NaN
  | Some Null => inr pzero
  | Some (Bool b) => inr (if b then of_Z 1 else pzero)
  | Some (Number n) => inr n
  | Some (Str s) => inr (of_string s)
  | Some w => s <- to_string w ;; inr (of_string s)
  end.

(** [Array.isArray]. *)
Definition isArray (v : value) : bool :=
  match v with Arr _ => true | _ => false end.

(** [v === "s"] for a string literal. *)
Definition is_string (v : option value) (s : string) : bool :=
  match v with
  | Some (Str s') => String.eqb s' s
  | _ => false
  end.

End Js.

(* ===================================================================== *)
(** * Effects

    A handler reads the clock ([Date.now()]) and calls the upstream
    ([fetch]); nothing else leaves the process.  A program is a tree of
    these two requests; [run] answers them from a [world] and records
    the upstream calls made. *)
(* ===================================================================== *)

Module Eff.

Import Js.

(** What [await fetch(...)] followed by reading the body gives: the
    promise of [fetch] rejects, or there is a response with its status
    and its body, which either parses as JSON or throws on reading
    ([r.json()], or [JSON.parse(await r.text())]). *)
Inductive fetch_result : Type :=
| FetchRejected (e : exn)
| Response (status : Z) (body : result value).

(** [r.ok]. *)
Definition ok (status : Z) : bool := (200 <=? status) && (status <=? 299).

Inductive prog (A : Type) : Type :=
| Ret (a : A)
| DateNow (k : Z -> prog A)
| Fetch (url : string) (headers : list (string * string)) (k : fetch_result -> prog A).

Arguments Ret {A} a.
Arguments DateNow {A} k.
Arguments Fetch {A} url headers k.

(** An upstream call as it leaves the proxy. *)
Record call : Type := { call_url : string; call_headers : list (string * string) }.

(** The environment of one request: the successive readings of the
    clock, and the upstream's answer to the n-th call. *)
Record world : Type := {
  clock : nat -> Z;
  upstream : nat -> call -> fetch_result
}.

(** Runs a program, counting the clock readings and the calls made so
    far; returns its result and the calls in the order they were
    made. *)
Fixpoint run_from {A : Type} (p : prog A) (w : world) (nclock ncall : nat)
  : A * list call :=
  match p with
  | Ret a => (a, [])
  | DateNow k => run_from (k (clock w nclock)) w (S nclock) ncall
  | Fetch url headers k =>
      let c := {| call_url := url; call_headers := headers |} in
      let '(a, calls) := run_from (k (upstream w ncall c)) w nclock (S ncall) in
      (a, c :: calls)
  end.

Definition run {A : Type} (p : prog A) (w : world) : A * list call :=
  run_from p w 0 0.

(** Programs whose result may be an exception: the body of a [try]. *)
Definition tprog (A : Type) : Type := prog (result A).

Fixpoint tbind {A B : Type} (p : tprog A) (f : A -> tprog B) : tprog B :=
  match p with
  | Ret (inl e) => Ret (inl e)
  | Ret (inr a) => f a
  | DateNow k => DateNow (fun t => tbind (k t) f)
  | Fetch url headers k => Fetch url headers (fun r => tbind (k r) f)
  end.

Definition tret {A : Type} (a : A) : tprog A := Ret (inr a).

(** A pure computation that may throw. *)
Definition lift {A : Type} (r : result A) : tprog A := Ret r.

(** [Date.now()]. *)
Definition now : tprog Z := DateNow (fun t => Ret (inr t)).

(** [await fetch(url, { headers })], then the parsed body: the status
    and the JSON value, or the exception thrown on the way. *)
Definition fetch_json (url : string) (headers : list (string * string))
  : tprog (Z * value) :=
  Fetch url headers (fun r =>
    match r with
    | FetchRejected e => Ret (inl e)
    | Response status (inl e) => Ret (inl e)
    | Response status (inr data) => Ret (inr (status, data))
    end).

(** [try { body } catch (e) { handler(e) }]. *)
Fixpoint try_catch {A : Type} (body : tprog A) (handler : exn -> A) : prog A :=
  match body with
  | Ret (inl e) => Ret (handler e)
  | Ret (inr a) => Ret a
  | DateNow k => DateNow (fun t => try_catch (k t) handler)
  | Fetch url headers k => Fetch url headers (fun r => try_catch (k r) handler)
  end.

End Eff.

(* ===================================================================== *)
(** * The proxy

    [index.js] and the later entry point differ in the day range of
    [/hedge-volume] only ([getDayRangeUTC] against [getDayRange]); the
    handlers are written once, over the [variant].  The [console.log] of
    the futures trades in the later variant is not modelled. *)
(* ===================================================================== *)

Module Proxy.

Import Js Eff.

Notation "x <~ c ;; k" := (tbind c (fun x => k))
  (at level 61, c at next level, right associativity).

Inductive variant : Type := index_js | part_000.

(** [process.env]. *)
Record environment : Type := {
  env_PROXY_API_KEY : option string;
  env_BINANCE_API_KEY : option string;
  env_BINANCE_API_SECRET : option string;
  env_TIMEZONE_OFFSET_HOURS : option string
}.

(** [v || ""] for an environment variable. *)
Definition or_empty (v : option string) : string :=
  match v with
  | Some s => s
  | None => ""
  end.

Definition PROXY_API_KEY (env : environment) : string := or_empty (env_PROXY_API_KEY env).
Definition BINANCE_API_KEY (env : environment) : string := or_empty (env_BINANCE_API_KEY env).
Definition BINANCE_API_SECRET (env : environment) : string := or_empty (env_BINANCE_API_SECRET env).

(** The parts of a request the handlers read: the header [X-Proxy-Key]
    and the query parameters [key], [symbol] and [date], each a string
    when present.  (A parameter that is repeated or written with
    brackets, which Express parses to an array or an object, is outside
    this type.) *)
Record request : Type := {
  header_X_Proxy_Key : option string;
  query_key : option string;
  query_symbol : option string;
  query_date : option string
}.

(** A reply: the status, and the value handed to [res.json], before it
    is serialized (which prints NaN and the infinities as [null]). *)
Record http_response : Type := { status : Z; body : value }.

(** [res.status(st).json(b)]. *)
Definition respond (st : Z) (b : value) : option http_response :=
  Some {| status := st; body := b |}.

(** [ToBoolean] of a string that may be [undefined]. *)
Definition present (v : option string) : bool :=
  match v with
  | Some s => negb (String.eqb s "")
  | None => false
  end.

(** [v === s] for a string [s]. *)
Definition strict_eq (v : option string) (s : string) : bool :=
  match v with
  | Some s' => String.eqb s' s
  | None => false
  end.

(** ** Auth *)

(** [checkAuth(req, res)]: the boolean returned, and the response written
    to [res], if any. *)
Definition checkAuth (env : environment) (req : request) : bool * option http_response :=
  let key := if present (header_X_Proxy_Key req) then header_X_Proxy_Key req
             else query_key req in
  if String.eqb (PROXY_API_KEY env) "" || negb (strict_eq key (PROXY_API_KEY env))
  then (false, respond 401 (Obj [("error", Str "Unauthorized")]))
  else (true, None).

(** ** Utils *)

Definition hmac (message secret : string) : string := Hmac.hmac message secret.

(** The pair [{ start, end }]. *)
Record DateRange : Type := { start : DateTime.time_value; end_ : DateTime.time_value }.

(** The runtime's reading of the strings that [DateTime.parse] leaves
    open. *)
Definition legacy_parser : Type := string -> DateTime.time_value.

Definition getDayRangeUTC (legacy : legacy_parser) (dateStr : string) : DateRange :=
  {| start := DateTime.parse legacy (dateStr ++ "T00:00:00Z");
     end_ := DateTime.parse legacy (dateStr ++ "T23:59:59Z") |}.

(** [Number(process.env.TIMEZONE_OFFSET_HOURS ?? 8)]. *)
Definition tzOffsetHours (env : environment) : Num.jsnum :=
  match env_TIMEZONE_OFFSET_HOURS env with
  | Some s => Num.of_string s
  | None => Num.of_Z 8
  end.

(** The [offsetStr] of [getDayRange]: sign, hours and minutes of the
    configured offset. *)
Definition offsetStr (tz : Num.jsnum) : string :=
  let sign := if Num.ge tz Num.pzero then "+" else "-" in
  let absOffset := Num.abs tz in
  let hh := Str.padStart (Num.to_string (Num.floor absOffset)) 2 "0" in
  let mm :=
    Str.padStart
      (Num.to_string
         (Num.round (Num.mul (Num.sub absOffset (Num.floor absOffset)) (Num.of_Z 60))))
      2 "0" in
  sign ++ hh ++ ":" ++ mm.

Definition getDayRange (legacy : legacy_parser) (env : environment) (dateStr : string)
  : DateRange :=
  let offset := offsetStr (tzOffsetHours env) in
  let startIso := dateStr ++ "T00:00:00" ++ offset in
  let endIso := dateStr ++ "T23:59:59" ++ offset in
  {| start := DateTime.parse legacy startIso; end_ := DateTime.parse legacy endIso |}.

(** The day range of [/hedge-volume] in each variant. *)
Definition dayRange (legacy : legacy_parser) (v : variant) (env : environment)
    (dateStr : string) : DateRange :=
  match v with
  | index_js => getDayRangeUTC legacy dateStr
  | part_000 => getDayRange legacy env dateStr
  end.

Definition is_unreserved (c : ascii) : bool :=
  let n := Z.of_nat (nat_of_ascii c) in
  ((48 <=? n) && (n <=? 57)) || ((65 <=? n) && (n <=? 90)) || ((97 <=? n) && (n <=? 122))
  || existsb (Ascii.eqb c) (list_ascii_of_string "-_.!~*'()").

Definition upper_hex_digit (n : Z) : ascii :=
  if n <? 10 then ascii_of_nat (Z.to_nat (48 + n)) else ascii_of_nat (Z.to_nat (55 + n)).

(** [encodeURIComponent] on the UTF-8 bytes of the string. *)
Fixpoint encodeURIComponent (s : string) : string :=
  match s with
  | EmptyString => ""
  | String c r =>
      if is_unreserved c then String c (encodeURIComponent r)
      else
        let n := Z.of_nat (nat_of_ascii c) in
        String "%" (String (upper_hex_digit (n / 16))
          (String (upper_hex_digit (n mod 16)) (encodeURIComponent r)))
  end.

(** The body of every [catch]. *)
Definition proxy_exception (e : exn) : option http_response :=
  respond 500 (Obj [("error", Str "proxy_exception"); ("message", Str (exn_to_string e))]).

Definition missing_binance_keys : option http_response :=
  respond 400 (Obj [("error", Str "missing_binance_keys")]).

Definition binance_error (st : Z) (data : value) : option http_response :=
  respond st (Obj [("error", Str "binance_error"); ("data", data)]).

(** [!BINANCE_API_KEY || !BINANCE_API_SECRET]. *)
Definition keys_missing (env : environment) : bool :=
  String.eqb (BINANCE_API_KEY env) "" || String.eqb (BINANCE_API_SECRET env) "".

Definition api_key_header (env : environment) : list (string * string) :=
  [("X-MBX-APIKEY", BINANCE_API_KEY env)].

(** [arr.find(b => b.asset === "BNB")]. *)
Fixpoint find_BNB (balances : list value) : result (option value) :=
  match balances with
  | [] => inr None
  | b :: rest =>
      asset <- get (Some b) "asset" ;;
      if is_string asset "BNB" then inr (Some b) else find_BNB rest
  end.

(** [(data.balances || []).find(...)]: only an array has a [find]. *)
Definition find_in_balances (data : value) : result (option value) :=
  balances <- get (Some data) "balances" ;;
  match or_else balances (Arr []) with
  | Some (Arr l) => find_BNB l
  | _ => inl (TypeError "(data.balances || []).find is not a function")
  end.

(** The loop [for (const t of trades) volume += Number(t.quoteQty || 0)]. *)
Fixpoint sum_quoteQty (trades : list value) (volume : Num.jsnum) : result Num.jsnum :=
  match trades with
  | [] => inr volume
  | t :: rest =>
      q <- get (Some t) "quoteQty" ;;
      n <- to_number (or_else q (Number Num.pzero)) ;;
      sum_quoteQty rest (Num.add volume n)
  end.

(** [let volume = 0; if (Array.isArray(trades)) { the loop }]. *)
Definition aggregate (trades : value) : result Num.jsnum :=
  match trades with
  | Arr l => sum_quoteQty l Num.pzero
  | _ => inr Num.pzero
  end.

(** [Number(volume.toFixed(2))]. *)
Definition round2 (volume : Num.jsnum) : Num.jsnum :=
  Num.of_string (Num.toFixed volume 2).

Section Handlers.

(** [String.prototype.toUpperCase], whose mapping of the characters
    outside ASCII is left to the runtime. *)
Variable toUpperCase : string -> string.

(** What the runtime makes of the date strings outside the format. *)
Variable legacy : legacy_parser.

(** ** PRICE (SPOT) and PRICE (FUTURES)

    The two handlers are the same code up to the URL and the [type] of
    the reply. *)

Definition price_handler (url type : string) (env : environment) (req : request)
  : prog (option http_response) :=
  match checkAuth env req with
  | (false, res) => Ret res
  | (true, _) =>
      try_catch
        (let symbol :=
           toUpperCase (if present (query_symbol req) then or_empty (query_symbol req)
                        else "BNBUSDT") in
         r <~ fetch_json (url ++ encodeURIComponent symbol) [] ;;
         let '(st, data) := r in
         if negb (ok st) then tret (binance_error st data)
         else
           p <~ lift (get (Some data) "price") ;;
           n <~ lift (to_number p) ;;
           tret (respond 200
                   (Obj [("type", Str type); ("symbol", Str symbol); ("price", Number n)])))
        proxy_exception
  end.

Definition price : environment -> request -> prog (option http_response) :=
  price_handler "https://api.binance.com/api/v3/ticker/price?symbol=" "spot".

Definition futures_price : environment -> request -> prog (option http_response) :=
  price_handler "https://fapi.binance.com/fapi/v1/ticker/price?symbol=" "futures".

(** ** BALANCE (SPOT) *)

Definition balance (env : environment) (req : request) : prog (option http_response) :=
  match checkAuth env req with
  | (false, res) => Ret res
  | (true, _) =>
      if keys_missing env then Ret missing_binance_keys
      else
        try_catch
          (t <~ now ;;
           let qs := "recvWindow=5000&timestamp=" ++ Str.decimal t in
           let signature := hmac qs (BINANCE_API_SECRET env) in
           r <~ fetch_json
                  ("https://api.binance.com/api/v3/account?" ++ qs ++ "&signature=" ++ signature)
                  (api_key_header env) ;;
           let '(st, data) := r in
           if negb (ok st) then tret (binance_error st data)
           else
             found <~ lift (find_in_balances data) ;;
             let bnb := or_else found (Obj [("free", Str "0"); ("locked", Str "0")]) in
             f <~ lift (get bnb "free") ;;
             free <~ lift (to_number (or_else f (Number Num.pzero))) ;;
             l <~ lift (get bnb "locked") ;;
             locked <~ lift (to_number (or_else l (Number Num.pzero))) ;;
             tret (respond 200
                     (Obj [("asset", Str "BNB"); ("free", Number free);
                           ("locked", Number locked);
                           ("total", Number (Num.add free locked))])))
          proxy_exception
  end.

(** ** BALANCE (FUTURES) *)

Definition futures_balance (env : environment) (req : request)
  : prog (option http_response) :=
  match checkAuth env req with
  | (false, res) => Ret res
  | (true, _) =>
      if keys_missing env then Ret missing_binance_keys
      else
        try_catch
          (t <~ now ;;
           let qs := "recvWindow=5000&timestamp=" ++ Str.decimal t in
           let signature := hmac qs (BINANCE_API_SECRET env) in
           r <~ fetch_json
                  ("https://fapi.binance.com/fapi/v2/balance?" ++ qs ++ "&signature=" ++ signature)
                  (api_key_header env) ;;
           let '(st, data) := r in
           if negb (ok st) then tret (binance_error st data)
           else tret (respond 200 (Obj [("balances", data)])))
          proxy_exception
  end.

(** ** HEDGE VOLUME *)

Definition hedge_volume (v : variant) (env : environment) (req : request)
  : prog (option http_response) :=
  match checkAuth env req with
  | (false, res) => Ret res
  | (true, _) =>
      if keys_missing env then Ret missing_binance_keys
      else
        try_catch
          (if negb (present (query_date req)) then
             tret (respond 400 (Obj [("error", Str "missing_date")]))
           else
             let date := or_empty (query_date req) in
             let range := dayRange legacy v env date in
             (* -------- SPOT TRADES -------- *)
             t1 <~ now ;;
             let spotQs := "startTime=" ++ DateTime.to_string (start range)
                           ++ "&endTime=" ++ DateTime.to_string (end_ range)
                           ++ "&timestamp=" ++ Str.decimal t1 in
             let spotSig := hmac spotQs (BINANCE_API_SECRET env) in
             spotResp <~ fetch_json
                           ("https://api.binance.com/api/v3/myTrades?" ++ spotQs
                            ++ "&signature=" ++ spotSig)
                           (api_key_header env) ;;
             spotVolume <~ lift (aggregate (snd spotResp)) ;;
             (* -------- FUTURES TRADES -------- *)
             t2 <~ now ;;
             let futQs := "startTime=" ++ DateTime.to_string (start range)
                          ++ "&endTime=" ++ DateTime.to_string (end_ range)
                          ++ "&timestamp=" ++ Str.decimal t2 in
             let futSig := hmac futQs (BINANCE_API_SECRET env) in
             futResp <~ fetch_json
                          ("https://fapi.binance.com/fapi/v1/userTrades?" ++ futQs
                           ++ "&signature=" ++ futSig)
                          (api_key_header env) ;;
             futuresVolume <~ lift (aggregate (snd futResp)) ;;
             tret (respond 200
                     (Obj [("date", Str date);
                           ("spotHedgeVolumeUSDT", Number (round2 spotVolume));
                           ("futuresHedgeVolumeUSDT", Number (round2 futuresVolume))])))
          proxy_exception
  end.

(** The five operations. *)
Inductive operation : Type :=
| op_price | op_futures_price | op_balance | op_futures_balance | op_hedge_volume.

Definition handle (v : variant) (op : operation) (env : environment) (req : request)
  : prog (option http_response) :=
  match op with
  | op_price => price env req
  | op_futures_price => futures_price env req
  | op_balance => balance env req
  | op_futures_balance => futures_balance env req
  | op_hedge_volume => hedge_volume v env req
  end.

End Handlers.

(** ** CORS, the index and the application

    The middleware registered with [app.use] runs before every handler.
    Of a response the model keeps what the proxy's own code puts on it:
    the headers it sets with [res.set] (Express and Node add theirs),
    the status, and the value handed to [res.json], if any. *)

Definition headers : Type := list (string * string).

(** [res.set(name, value)]: a header of that name is replaced. *)
Definition set (name value : string) (hs : headers) : headers :=
  (filter (fun h => negb (String.eqb (fst h) name)) hs ++ [(name, value)])%list.

(** The middleware: the headers after its three [res.set], and the
    status with which it ends the response, or [None] when it calls
    [next()]. *)
Definition cors (method : string) (hs : headers) : headers * option Z :=
  let hs := set "Access-Control-Allow-Origin" "*" hs in
  let hs := set "Access-Control-Allow-Methods" "GET,OPTIONS" hs in
  let hs := set "Access-Control-Allow-Headers" "Content-Type,X-Proxy-Key" hs in
  (hs, if String.eqb method "OPTIONS" then Some 204 else None).

(** The value the handler of ["/"] hands to [res.json]. *)
Definition index_body : value :=
  Obj [("ok", Bool true);
       ("routes", Arr [Str "/price"; Str "/futures-price"; Str "/balance";
                       Str "/futures-balance"; Str "/hedge-volume?date=YYYY-MM-DD"])].

(** The handlers registered with [app.get]. *)
Inductive route : Type :=
| route_index
| route_operation (op : operation).

(** The path each one is registered under. *)
Definition path (r : route) : string :=
  match r with
  | route_index => "/"
  | route_operation op_price => "/price"
  | route_operation op_futures_price => "/futures-price"
  | route_operation op_balance => "/balance"
  | route_operation op_futures_balance => "/futures-balance"
  | route_operation op_hedge_volume => "/hedge-volume"
  end.

(** A request as the application sees it: [req.method], the handler that
    the router of Express selects for its method and path (none when no
    registration matches), and the parts the handlers read. *)
Record incoming : Type := {
  method : string;
  matched : option route;
  parameters : request
}.

(** What becomes of a request: a response is sent; or the handler
    returns without one; or no handler was selected and the request is
    left to the router's final handler. *)
Inductive outcome : Type :=
| Replied (hs : headers) (st : Z) (b : option value)
| Unanswered (hs : headers)
| NotRouted (hs : headers).

(** The result of a program, passed through [f]. *)
Fixpoint and_then {A B : Type} (p : prog A) (f : A -> B) : prog B :=
  match p with
  | Ret a => Ret (f a)
  | DateNow k => DateNow (fun t => and_then (k t) f)
  | Fetch url hs k => Fetch url hs (fun r => and_then (k r) f)
  end.

Section Application.

Variable toUpperCase : string -> string.
Variable legacy : legacy_parser.

(** The middleware, then the selected handler. *)
Definition app (v : variant) (env : environment) (i : incoming) : prog outcome :=
  match cors (method i) [] with
  | (hs, Some st) => Ret (Replied hs st None)
  | (hs, None) =>
      match matched i with
      | None => Ret (NotRouted hs)
      | Some route_index => Ret (Replied hs 200 (Some index_body))
      | Some (route_operation op) =>
          and_then (handle toUpperCase legacy v op env (parameters i))
            (fun res =>
               match res with
               | Some r => Replied hs (status r) (Some (body r))
               | None => Unanswered hs
               end)
      end
  end.

End Application.

(** ** Keep-alive ping

    The later entry point pings itself so that the host does not put
    the process to sleep.  The model has the three settings and the
    body of [keepAlivePing]; the timers that call it are left out. *)

(** The environment variables read here. *)
Record settings : Type := {
  env_PORT : option string;
  env_KEEP_ALIVE : option string;
  env_SELF_PING_URL : option string;
  env_PING_INTERVAL_MS : option string
}.

(** [v || d] for an environment variable. *)
Definition or_default (v : option string) (d : string) : string :=
  if present v then or_empty v else d.

(** [process.env.PORT || 8080], as a template literal prints it. *)
Definition PORT (s : settings) : string := or_default (env_PORT s) "8080".

Definition KEEP_ALIVE (s : settings) : bool :=
  negb (String.eqb (or_default (env_KEEP_ALIVE s) "true") "false").

Definition SELF_PING_URL (s : settings) : string :=
  or_default (env_SELF_PING_URL s) ("http://localhost:" ++ PORT s).

(** [Number(process.env.PING_INTERVAL_MS) || 14 * 60 * 1000]. *)
Definition PING_INTERVAL_MS (s : settings) : Num.jsnum :=
  let n :=
    match env_PING_INTERVAL_MS s with
    | Some t => Num.of_string t
    | None => Num.NaN
    end in
  if truthy (Some (Number n)) then n
  else Num.mul (Num.mul (Num.of_Z 14) (Num.of_Z 60)) (Num.of_Z 1000).

(** What [await axios.get(url, ...)] gives: a response with a status
    that counts as success, or an error [err], with the status of
    [err.response] when the server did respond. *)
Inductive axios_result : Type :=
| Fulfilled (st : Z)
| Rejected (err : exn) (response : option Z).

Inductive console_line : Type :=
| console_log (line : string)
| console_warn (line : string).

(** One run of [keepAlivePing]: the URLs it requested and the lines it
    printed. *)
Record ping : Type := { requested : list string; printed : list console_line }.

Definition keepAlivePing (s : settings) (axios_get : string -> axios_result) : ping :=
  if negb (KEEP_ALIVE s) then {| requested := []; printed := [] |}
  else
    let url := SELF_PING_URL s in
    match axios_get url with
    | Fulfilled st =>
        {| requested := [url];
           printed := [console_log ("keepAlive: pinged " ++ url ++ " -> " ++ Str.decimal st)] |}
    | Rejected err (Some st) =>
        {| requested := [url];
           printed := [console_warn
                         ("keepAlive: ping " ++ url ++ " returned " ++ Str.decimal st)] |}
    | Rejected err None =>
        {| requested := [url];
           printed := [console_warn
                         ("keepAlive: ping " ++ url ++ " failed: "
                          ++ (if String.eqb (exn_message err) "" then exn_to_string err
                              else exn_message err))] |}
    end.

End Proxy.


(* ===================================================================== *)
(** * The vocabulary of the properties

    Dates and zones as the specification speaks of them, what a caller
    and the upstream see of a handler, the claims that fail in the form
    they are stated, and the inputs of the examples. *)
(* ===================================================================== *)

Import Js Eff Proxy.

(** ** Calendar dates and zones

    The day number of a date is counted from the lengths of the years
    and of the months before it. *)

(** The Gregorian rule: every fourth year, except the centuries that
    are not multiples of 400. *)
Definition leap_year (y : Z) : bool :=
  (y mod 4 =? 0) && (negb (y mod 100 =? 0) || (y mod 400 =? 0)).

Definition year_length (y : Z) : Z :=
  if leap_year y then 366 else 365.

(** Length of month [m], counted from 1. *)
Definition month_length (leap : bool) (m : Z) : Z :=
  match m with
  | 2 => if leap then 29 else 28
  | 4 | 6 | 9 | 11 => 30
  | _ => 31
  end.

(** Days from 0000-01-01 to the first of January of year [n]. *)
Fixpoint days_to_year (n : nat) : Z :=
  match n with
  | O => 0
  | S k => days_to_year k + year_length (Z.of_nat k)
  end.

(** Days in the first [n] months of a year. *)
Fixpoint days_to_month (leap : bool) (n : nat) : Z :=
  match n with
  | O => 0
  | S k => days_to_month leap k + month_length leap (Z.of_nat (S k))
  end.

(** Days from 0000-01-01 to 1970-01-01. *)
Definition days_to_1970 : Z := days_to_year 1970.

(** Days from 1970-01-01 to the date [y]-[m]-[d]. *)
Definition epoch_day (y m d : Z) : Z :=
  days_to_year (Z.to_nat y) - days_to_1970
  + days_to_month (leap_year y) (Z.to_nat (m - 1)) + (d - 1).


Definition valid_date (y m d : Z) : Prop :=
  0 <= y <= 9999 /\ 1 <= m <= 12 /\ 1 <= d <= month_length (leap_year y) m.

(** [v] in decimal, padded with zeros to [n] digits. *)
Definition pad (n : nat) (v : Z) : string := Str.padStart (Str.decimal v) n "0".

(** The date in the form YYYY-MM-DD. *)
Definition iso_date (y m d : Z) : string :=
  pad 4 y ++ "-" ++ pad 2 m ++ "-" ++ pad 2 d.



Definition two_digits (v : Z) : string :=
  String (Str.digit_char (v / 10)) (String (Str.digit_char (v mod 10)) "").

Definition four_digits (v : Z) : string :=
  String (Str.digit_char (v / 1000))
    (String (Str.digit_char (v / 100 mod 10))
       (String (Str.digit_char (v / 10 mod 10))
          (String (Str.digit_char (v mod 10)) ""))).

(** The timestamp YYYY-MM-DDThh:mm:ssZ. *)
Definition iso_timestamp (y m d hh mi ss : Z) : string :=
  iso_date y m d ++ "T" ++ pad 2 hh ++ ":" ++ pad 2 mi ++ ":" ++ pad 2 ss ++ "Z".



(** ** Numbers and digits *)

(** Is the magnitude of [x] below [10^21], where [toFixed] prints the
    digits in full? *)
Definition below_1e21 (x : Num.jsnum) : bool :=
  match x with
  | S754_zero _ => true
  | S754_finite _ m e => let '(p, q) := Num.ratio_of m e in p <? 10 ^ 21 * q
  | _ => false
  end.

(** The sign [toFixed] prints. *)
Definition minus_sign (x : Num.jsnum) : string :=
  match x with
  | S754_finite true _ _ => "-"
  | _ => ""
  end.

(** Is [x] a finite Number below zero? *)
Definition is_negative (x : Num.jsnum) : bool :=
  match x with
  | S754_finite s _ _ => s
  | _ => false
  end.

(** A character a number starts with, and a character of a decimal
    with a sign and a point. *)
Definition starts_number (c : ascii) : bool := Str.is_digit c || Ascii.eqb c "-".

Definition is_decimal_char (c : ascii) : bool :=
  Str.is_digit c || Ascii.eqb c "." || Ascii.eqb c "-".

(** The integer written by a string of decimal digits, after the
    digits of [acc]. *)
Fixpoint digits_value (acc : Z) (s : string) : Z :=
  match s with
  | EmptyString => acc
  | String c r => digits_value (10 * acc + Str.digit_val c) r
  end.

(** Is [n] the number of hundredths nearest to the magnitude of [x], the
    larger one when [x] lies halfway between two:
    [n - 1/2 <= 100 |x| < n + 1/2]? *)
Definition nearest_hundredths (x : Num.jsnum) (n : Z) : bool :=
  match x with
  | S754_zero _ => n =? 0
  | S754_finite _ m e =>
      let '(p, q) := Num.ratio_of m e in
      (2 * n * q <=? 200 * p + q) && (200 * p + q <? 2 * (n + 1) * q)
  | _ => false
  end.



(** ** Requests, calls and replies *)

(** The token a caller supplies: the header [X-Proxy-Key] when it is
    present and not empty, the query parameter [key] otherwise. *)
Definition supplied_token (req : request) : option string :=
  match header_X_Proxy_Key req with
  | Some h => if String.eqb h "" then query_key req else Some h
  | None => query_key req
  end.

Definition authorized (env : environment) (req : request) : Prop :=
  PROXY_API_KEY env <> "" /\ supplied_token req = Some (PROXY_API_KEY env).

Definition unauthorized_response : option http_response :=
  respond 401 (Obj [("error", Str "Unauthorized")]).

Definition keys_configured (env : environment) : Prop :=
  BINANCE_API_KEY env <> "" /\ BINANCE_API_SECRET env <> "".

Definition spot_price_url : string := "https://api.binance.com/api/v3/ticker/price?symbol=".
Definition futures_price_url : string := "https://fapi.binance.com/fapi/v1/ticker/price?symbol=".

(** The symbol a price handler asks for. *)
Definition requested_symbol (toUpperCase : string -> string) (req : request) : string :=
  toUpperCase (if present (query_symbol req) then or_empty (query_symbol req) else "BNBUSDT").

(** A signed call: the query string, its signature appended, and the API
    key in a header. *)
Definition signed_call (base qs : string) (env : environment) : call :=
  {| call_url := base ++ qs ++ "&signature=" ++ hmac qs (BINANCE_API_SECRET env);
     call_headers := api_key_header env |}.

Definition account_url : string := "https://api.binance.com/api/v3/account?".
Definition futures_account_url : string := "https://fapi.binance.com/fapi/v2/balance?".
Definition spot_trades_url : string := "https://api.binance.com/api/v3/myTrades?".
Definition futures_trades_url : string := "https://fapi.binance.com/fapi/v1/userTrades?".

(** The query string of the two balance handlers, read at time [t]. *)
Definition balance_query (t : Z) : string :=
  "recvWindow=5000&timestamp=" ++ Str.decimal t.

(** The query string of a trade query over [range], read at time [t]. *)
Definition trade_query (range : DateRange) (t : Z) : string :=
  "startTime=" ++ DateTime.to_string (start range)
  ++ "&endTime=" ++ DateTime.to_string (end_ range)
  ++ "&timestamp=" ++ Str.decimal t.

(** The parsed body of an upstream answer, or the exception met on the
    way to it; the status plays no part. *)
Definition body_of (r : fetch_result) : result value :=
  match r with
  | FetchRejected e => inl e
  | Response _ b => b
  end.

(** The volume one side of /hedge-volume draws from an answer. *)
Definition volume_of (r : fetch_result) : result Num.jsnum :=
  data <- body_of r ;; aggregate data.

Definition hedge_volume_body (date : string) (spotVolume futuresVolume : Num.jsnum) : value :=
  Obj [("date", Str date);
       ("spotHedgeVolumeUSDT", Number (round2 spotVolume));
       ("futuresHedgeVolumeUSDT", Number (round2 futuresVolume))].

(** What /balance draws from the account data of a successful answer. *)
Definition balance_body (data : value) : result value :=
  found <- find_in_balances data ;;
  let bnb := or_else found (Obj [("free", Str "0"); ("locked", Str "0")]) in
  f <- get bnb "free" ;;
  free <- to_number (or_else f (Number Num.pzero)) ;;
  l <- get bnb "locked" ;;
  locked <- to_number (or_else l (Number Num.pzero)) ;;
  inr (Obj [("asset", Str "BNB"); ("free", Number free); ("locked", Number locked);
            ("total", Number (Num.add free locked))]).

(** The answer of a handler that relays upstream errors, given what it
    makes of a successful body. *)
Definition relay (shape : value -> result value) (r : fetch_result) : option http_response :=
  match r with
  | FetchRejected e => proxy_exception e
  | Response _ (inl e) => proxy_exception e
  | Response st (inr data) =>
      if ok st then
        match shape data with
        | inl e => proxy_exception e
        | inr b => respond 200 b
        end
      else binance_error st data
  end.

(** What a price handler draws from a successful body. *)
Definition price_body (type symbol : string) (data : value) : result value :=
  p <- get (Some data) "price" ;;
  n <- to_number p ;;
  inr (Obj [("type", Str type); ("symbol", Str symbol); ("price", Number n)]).

(** The upstream answers its [n]-th call with [r], whatever the call. *)
Definition answers (w : world) (n : nat) (r : fetch_result) : Prop :=
  forall c : call, upstream w n c = r.

(** [Number(t.quoteQty || 0)] for one trade record [t]. *)
Definition quantity (t : value) : result Num.jsnum :=
  q <- get (Some t) "quoteQty" ;;
  to_number (or_else q (Number Num.pzero)).

(** The value under key [k] of a value other than [null]: that of the
    key for a parsed object, [undefined] for anything else. *)
Definition field (k : string) (v : value) : option value :=
  match v with
  | Obj fields => lookup k fields
  | _ => None
  end.

(** Is [b] an entry whose [asset] is the string ["BNB"]? *)
Definition has_asset_BNB (b : value) : bool :=
  is_string (field "asset" b) "BNB".

Definition zero_balance : value :=
  Obj [("asset", Str "BNB"); ("free", Number Num.pzero); ("locked", Number Num.pzero);
       ("total", Number Num.pzero)].

(** ** Claims that fail as stated *)

(** A program relays upstream errors: when every upstream answer has the
    non-success status [st] and the JSON body [data], the caller receives
    that status and [{error:"binance_error", data}]. *)
Definition relays_upstream_errors (p : prog (option http_response)) : Prop :=
  forall (w : world) (st : Z) (data : value),
    (forall n, answers w n (Response st (inr data))) ->
    ok st = false ->
    fst (run p w)
    = Some {| status := st; body := Obj [("error", Str "binance_error"); ("data", data)] |}.


(** ** Inputs of the examples *)

(** A runtime that reads no date outside the format. *)
Definition no_legacy : legacy_parser := fun _ => None.

Definition demo_env : environment :=
  {| env_PROXY_API_KEY := Some "s3cret";
     env_BINANCE_API_KEY := Some "api-key";
     env_BINANCE_API_SECRET := Some "api-secret";
     env_TIMEZONE_OFFSET_HOURS := None |}.

(** A request with the right key in the header and a date. *)
Definition demo_req : request :=
  {| header_X_Proxy_Key := Some "s3cret";
     query_key := None;
     query_symbol := Some "ethusdt";
     query_date := Some "2025-01-01" |}.

(** A request whose header is wrong although the query key is right. *)
Definition wrong_header_req : request :=
  {| header_X_Proxy_Key := Some "guess";
     query_key := Some "s3cret";
     query_symbol := None;
     query_date := Some "2025-01-01" |}.


(** An authorized request whose date is a timestamp, not a date. *)
Definition invalid_date_req : request :=
  {| header_X_Proxy_Key := Some "s3cret";
     query_key := None;
     query_symbol := None;
     query_date := Some "2025-01-01T00:00:00Z" |}.

(** An environment with the offset of India, five and a half hours. *)
Definition india_env : environment :=
  {| env_PROXY_API_KEY := Some "s3cret";
     env_BINANCE_API_KEY := Some "api-key";
     env_BINANCE_API_SECRET := Some "api-secret";
     env_TIMEZONE_OFFSET_HOURS := Some "5.5" |}.

(** An environment without the exchange secret. *)
Definition no_secret_env : environment :=
  {| env_PROXY_API_KEY := Some "s3cret";
     env_BINANCE_API_KEY := Some "api-key";
     env_BINANCE_API_SECRET := None;
     env_TIMEZONE_OFFSET_HOURS := None |}.

(** The body Binance sends with status 400 for a rejected timestamp. *)
Definition timestamp_error : value :=
  Obj [("code", Number (Num.of_Z (-1021)));
       ("msg", Str "Timestamp for this request is outside of the recvWindow.")].

(** An upstream that rejects every call with status 400. *)
Definition rejecting_world : world :=
  {| clock := fun n => 1700000000000 + Z.of_nat n;
     upstream := fun _ _ => Response 400 (inr timestamp_error) |}.

(** The three trades of the specification's example. *)
Definition example_trades : value :=
  Arr [ Obj [("quoteQty", Str "10.5")];
        Obj [("quoteQty", Null)];
        Obj [("quoteQty", Str "2")] ].

(** The spot side rejects the query with an error object, the futures
    side answers with the example trades. *)
Definition spot_rejecting_world : world :=
  {| clock := fun n => 1700000000000 + Z.of_nat n;
     upstream := fun n _ =>
       match n with
       | O => Response 400 (inr timestamp_error)
       | _ => Response 200 (inr example_trades)
       end |}.


(** Trades of which the second has a quote quantity that is not a
    number. *)
Definition unparseable_trades : value :=
  Arr [ Obj [("quoteQty", Str "10.5")];
        Obj [("quoteQty", Str "abc")];
        Obj [("quoteQty", Str "2")] ].

Definition unparseable_world : world :=
  {| clock := fun n => 1700000000000 + Z.of_nat n;
     upstream := fun _ _ => Response 200 (inr unparseable_trades) |}.

(** Account data with balances in two assets, neither of them BNB. *)
Definition account_without_BNB : list (string * value) :=
  [ ("balances",
     Arr [ Obj [("asset", Str "BTC"); ("free", Str "0.5"); ("locked", Str "0")];
           Obj [("asset", Str "USDT"); ("free", Str "120.25"); ("locked", Str "10")] ]) ].

Definition account_world : world :=
  {| clock := fun n => 1700000000000 + Z.of_nat n;
     upstream := fun _ _ => Response 200 (inr (Obj account_without_BNB)) |}.

(** ** Further vocabulary: dates, encoded components, replies, the application *)

(** A date string YYYY-MM-DD that the runtime reads: the month in range,
    the day at most 31 whatever the month. *)
Definition readable_date (y m d : Z) : Prop :=
  0 <= y <= 9999 /\ 1 <= m <= 12 /\ 1 <= d <= 31.

(** The zone designator each variant appends to the date. *)
Definition zone_of (v : variant) (env : environment) : string :=
  match v with
  | index_js => "Z"
  | part_000 => offsetStr (tzOffsetHours env)
  end.

(** The bounds of day number [day] in the zone the designator [zone]
    names: NaN when it names none.  (The designators the resolvers
    append are an offset or make the string no date; none is left to
    the runtime.) *)
Definition range_of_day (day : Z) (zone : string) : DateRange :=
  match DateTime.parse_zone zone with
  | DateTime.Value off =>
      {| start := DateTime.TimeClip (day * 86400000 - off);
         end_ := DateTime.TimeClip (day * 86400000 + 86399000 - off) |}
  | _ => {| start := None; end_ := None |}
  end.

(** The characters of an encoded component: those left as they are, and
    the percent sign of the escapes. *)
Definition url_safe (c : ascii) : bool := is_unreserved c || Ascii.eqb c "%".

(** Characters that delimit the parts of a URL or of a query string. *)
Definition is_delimiter (c : ascii) : bool :=
  existsb (Ascii.eqb c) (list_ascii_of_string "&=?#/:@+,;$ ").

Definition hex_value (c : ascii) : Z :=
  let n := Z.of_nat (nat_of_ascii c) in
  if n <? 58 then n - 48 else n - 55.

(** Reads an encoded component back: [%XY] is the byte with the
    hexadecimal digits [X] and [Y]. *)
Fixpoint percent_decode (s : string) : string :=
  match s with
  | EmptyString => ""
  | String c r =>
      if Ascii.eqb c "%" then
        match r with
        | String a (String b r') =>
            String (ascii_of_nat (Z.to_nat (16 * hex_value a + hex_value b)))
                   (percent_decode r')
        | _ => s
        end
      else String c (percent_decode r)
  end.

(** The replies that report an error: each has its status and its value
    of [error]. *)
Inductive error_reply : http_response -> Prop :=
| reply_unauthorized :
    error_reply {| status := 401; body := Obj [("error", Str "Unauthorized")] |}
| reply_missing_keys :
    error_reply {| status := 400; body := Obj [("error", Str "missing_binance_keys")] |}
| reply_missing_date :
    error_reply {| status := 400; body := Obj [("error", Str "missing_date")] |}
| reply_exception (e : exn) :
    error_reply {| status := 500;
                   body := Obj [("error", Str "proxy_exception");
                                ("message", Str (exn_to_string e))] |}
| reply_upstream (st : Z) (data : value) :
    ok st = false ->
    error_reply {| status := st; body := Obj [("error", Str "binance_error"); ("data", data)] |}.

Definition success_reply (r : http_response) : Prop :=
  status r = 200 /\ field "error" (body r) = None.

Definition spot_host : string := "https://api.binance.com/".
Definition futures_host : string := "https://fapi.binance.com/".

Definition goes_to (host : string) (c : call) : Prop :=
  exists rest : string, call_url c = host ++ rest.

(** A call as operation [op] may make it: to the host of its market,
    with the API key in a header exactly when the operation is signed. *)
Definition exchange_call (env : environment) (op : operation) (c : call) : Prop :=
  match op with
  | op_price => goes_to spot_host c /\ call_headers c = []
  | op_futures_price => goes_to futures_host c /\ call_headers c = []
  | op_balance =>
      goes_to spot_host c /\ call_headers c = [("X-MBX-APIKEY", BINANCE_API_KEY env)]
  | op_futures_balance =>
      goes_to futures_host c /\ call_headers c = [("X-MBX-APIKEY", BINANCE_API_KEY env)]
  | op_hedge_volume =>
      (goes_to spot_host c \/ goes_to futures_host c) /\
      call_headers c = [("X-MBX-APIKEY", BINANCE_API_KEY env)]
  end.


Definition price_url (op : operation) : string :=
  match op with
  | op_futures_price => futures_price_url
  | _ => spot_price_url
  end.

(** The three headers of the CORS middleware. *)
Definition cors_headers : headers :=
  [("Access-Control-Allow-Origin", "*");
   ("Access-Control-Allow-Methods", "GET,OPTIONS");
   ("Access-Control-Allow-Headers", "Content-Type,X-Proxy-Key")].

Definition headers_of (o : outcome) : headers :=
  match o with
  | Replied hs _ _ => hs
  | Unanswered hs => hs
  | NotRouted hs => hs
  end.

(** The outcome that carries the reply [r] of a handler. *)
Definition sent (r : http_response) : outcome :=
  Replied cors_headers (status r) (Some (body r)).

(** ** Further inputs *)

(** An environment whose offset variable is set, to the empty string. *)
Definition empty_offset_env : environment :=
  {| env_PROXY_API_KEY := Some "s3cret";
     env_BINANCE_API_KEY := Some "api-key";
     env_BINANCE_API_SECRET := Some "api-secret";
     env_TIMEZONE_OFFSET_HOURS := Some "" |}.



(** What reading an HTML error page as JSON throws. *)
Definition gateway_error : exn :=
  {| exn_name := "SyntaxError"; exn_message := "Unexpected token < in JSON at position 0" |}.


(** The spot side behind such a gateway, the futures side answering
    with the example trades. *)
Definition spot_gateway_world : world :=
  {| clock := fun n => 1700000000000 + Z.of_nat n;
     upstream := fun n _ =>
       match n with
       | O => Response 502 (inl gateway_error)
       | _ => Response 200 (inr example_trades)
       end |}.

(** What [fetch] rejects with when the host cannot be reached. *)
Definition network_error : exn := TypeError "fetch failed".

(** The spot side out of reach, the futures side answering with the
    example trades. *)
Definition spot_unreachable_world : world :=
  {| clock := fun n => 1700000000000 + Z.of_nat n;
     upstream := fun n _ =>
       match n with
       | O => FetchRejected network_error
       | _ => Response 200 (inr example_trades)
       end |}.

(** Successful answers whose account data is [null], has an object for
    its balances, or has a [null] entry in its list of balances. *)
Definition null_account_world : world :=
  {| clock := fun n => 1700000000000 + Z.of_nat n;
     upstream := fun _ _ => Response 200 (inr Null) |}.

Definition balances_object_world : world :=
  {| clock := fun n => 1700000000000 + Z.of_nat n;
     upstream := fun _ _ => Response 200 (inr (Obj [("balances", Obj [])])) |}.

Definition null_entry_world : world :=
  {| clock := fun n => 1700000000000 + Z.of_nat n;
     upstream := fun _ _ => Response 200 (inr (Obj [("balances", Arr [Null])])) |}.

Definition ticker_without_price : value := Obj [("symbol", Str "ETHUSDT")].

Definition ticker_world : world :=
  {| clock := fun n => 1700000000000 + Z.of_nat n;
     upstream := fun _ _ => Response 200 (inr ticker_without_price) |}.

(** A preflight request, without any key. *)
Definition preflight_req : incoming :=
  {| method := "OPTIONS";
     matched := None;
     parameters := {| header_X_Proxy_Key := None; query_key := None;
                      query_symbol := None; query_date := Some "2025-01-01" |} |}.

(** A request for the index, without any key. *)
Definition index_req : incoming :=
  {| method := "GET";
     matched := Some route_index;
     parameters := {| header_X_Proxy_Key := None; query_key := None;
                      query_symbol := None; query_date := None |} |}.

(** A request for the balance with a wrong key in the header. *)
Definition guessing_req : incoming :=
  {| method := "GET";
     matched := Some (route_operation op_balance);
     parameters := wrong_header_req |}.

(** Settings that switch the keep-alive off. *)
Definition switched_off : settings :=
  {| env_PORT := Some "3000"; env_KEEP_ALIVE := Some "false";
     env_SELF_PING_URL := None; env_PING_INTERVAL_MS := Some "0" |}.

(* ===================================================================== *)
(** * Facts about the runtime operations *)
(* ===================================================================== *)

(** A check over an initial segment of the integers, by enumeration. *)
Lemma forall_below (f : Z -> bool) (k : Z) :
  forallb f (map Z.of_nat (seq 0 (Z.to_nat k))) = true ->
  forall n : Z, 0 <= n < k -> f n = true.
Proof.
  intros H n Hn. rewrite forallb_forall in H. apply H.
  apply in_map_iff. exists (Z.to_nat n). split; [lia |].
  apply in_seq. lia.
Qed.

(** ** Addition never produces NaN from a finite summand

    Rounding keeps a non-negative mantissa non-negative, so the result
    of rounding is a zero, a finite number or an infinity. *)

Lemma shr_1_nonneg (mrs : shr_record) : 0 <= shr_m mrs -> 0 <= shr_m (shr_1 mrs).
Proof.
  destruct mrs as [m r s]. cbn [shr_m]. intros H.
  destruct m as [| p | p]; [| | lia].
  - cbn. lia.
  - destruct p; cbn; lia.
Qed.

Lemma iter_shr_1_nonneg (p : positive) (mrs : shr_record) :
  0 <= shr_m mrs -> 0 <= shr_m (iter_pos shr_1 p mrs).
Proof.
  revert mrs. induction p as [p IH | p IH |]; intros mrs H; cbn [iter_pos].
  - apply IH, IH, shr_1_nonneg, H.
  - apply IH, IH, H.
  - apply shr_1_nonneg, H.
Qed.

Lemma shr_fexp_nonneg (prec emax m e : Z) (l : location) :
  0 <= m -> 0 <= shr_m (fst (shr_fexp prec emax m e l)).
Proof.
  intros H. unfold shr_fexp, shr.
  assert (H0 : 0 <= shr_m (shr_record_of_loc m l)).
  { destruct l as [| []]; exact H. }
  destruct (fexp prec emax (Zdigits2 m + e) - e); cbn [fst]; try exact H0.
  apply iter_shr_1_nonneg, H0.
Qed.

Lemma round_nearest_even_nonneg (m : Z) (l : location) :
  0 <= m -> 0 <= round_nearest_even m l.
Proof.
  intros H. destruct l as [| []]; cbn; try lia.
  destruct (Z.even m); lia.
Qed.

Lemma binary_round_aux_not_nan (prec emax : Z) (s : bool) (m e : Z) (l : location) :
  0 <= m -> binary_round_aux prec emax s m e l <> S754_nan.
Proof.
  intros H. unfold binary_round_aux.
  pose proof (shr_fexp_nonneg prec emax m e l H) as H1.
  destruct (shr_fexp prec emax m e l) as [mrs' e']. cbn [fst] in H1.
  pose proof (shr_fexp_nonneg prec emax _ e' loc_Exact
                (round_nearest_even_nonneg _ (loc_of_shr_record mrs') H1)) as H2.
  destruct (shr_fexp prec emax _ e' loc_Exact) as [mrs'' e'']. cbn [fst] in H2.
  destruct (shr_m mrs'') as [| p | p]; [discriminate | | lia].
  destruct (e'' <=? emax - prec); discriminate.
Qed.

Lemma binary_normalize_not_nan (prec emax m e : Z) (sz : bool) :
  binary_normalize prec emax m e sz <> S754_nan.
Proof.
  destruct m as [| p | p]; cbn [binary_normalize]; [discriminate | |];
    unfold binary_round; destruct (shl_align _ _ _) as [mz ez];
    apply binary_round_aux_not_nan; lia.
Qed.

Lemma add_not_nan (x y : Num.jsnum) :
  Num.is_nan x = false -> Num.is_finite y = true -> Num.is_nan (Num.add x y) = false.
Proof.
  intros Hx Hy.
  destruct x as [sx | sx | | sx mx ex]; try discriminate Hx;
    destruct y as [sy | sy | | sy my ey]; try discriminate Hy;
    try reflexivity.
  - unfold Num.add. cbn. destruct sx, sy; reflexivity.
  - unfold Num.add, SFadd.
    match goal with |- Num.is_nan ?t = false =>
      pose proof (binary_normalize_not_nan Num.prec Num.emax
        (cond_Zopp sx (Z.pos (fst (shl_align mx ex (Z.min ex ey))))
         + cond_Zopp sy (Z.pos (fst (shl_align my ey (Z.min ex ey)))))
        (Z.min ex ey) false) as H end.
    destruct (binary_normalize _ _ _ _ _); try reflexivity. contradiction.
Qed.

(** ** Digits and padding *)

Lemma is_digit_digit_char (d : Z) : 0 <= d < 10 -> Str.is_digit (Str.digit_char d) = true.
Proof.
  apply (forall_below (fun d => Str.is_digit (Str.digit_char d)) 10).
  vm_compute. reflexivity.
Qed.

Lemma all_append (f : ascii -> bool) (s t : string) :
  Str.all f (s ++ t) = Str.all f s && Str.all f t.
Proof.
  induction s as [| c s IH]; [reflexivity |].
  cbn. rewrite IH, andb_assoc. reflexivity.
Qed.

Lemma digits_fuel_all (fuel : nat) (n : Z) (acc : string) :
  Str.all Str.is_digit acc = true ->
  Str.all Str.is_digit (Str.digits_fuel fuel n acc) = true.
Proof.
  revert n acc. induction fuel as [| f IH]; intros n acc H; [exact H |].
  cbn [Str.digits_fuel].
  assert (H' : Str.all Str.is_digit (String (Str.digit_char (n mod 10)) acc) = true).
  { cbn. rewrite H, is_digit_digit_char; [reflexivity | apply Z.mod_pos_bound; lia]. }
  destruct (n / 10 =? 0); [exact H' | apply IH, H'].
Qed.

Lemma repeat_char_spec (f : ascii -> bool) (c : ascii) (n : nat) :
  f c = true ->
  String.length (Str.repeat_char c n) = n /\ Str.all f (Str.repeat_char c n) = true.
Proof.
  intros H. induction n as [| n [IHl IHa]]; [split; reflexivity |].
  cbn. rewrite IHl, IHa, H. split; reflexivity.
Qed.

Lemma length_append (s t : string) :
  String.length (s ++ t) = (String.length s + String.length t)%nat.
Proof. induction s as [| c s IH]; [reflexivity | cbn; rewrite IH; reflexivity]. Qed.

Lemma append_assoc (a b c : string) : (a ++ b) ++ c = a ++ (b ++ c).
Proof. induction a as [| x a IH]; [reflexivity | cbn; rewrite IH; reflexivity]. Qed.

Lemma padStart_digits (s : string) (n : nat) :
  Str.all Str.is_digit s = true ->
  (n <= String.length (Str.padStart s n "0"))%nat /\
  Str.all Str.is_digit (Str.padStart s n "0") = true.
Proof.
  intros H. unfold Str.padStart.
  destruct (repeat_char_spec Str.is_digit "0" (n - String.length s) eq_refl) as [Hl Ha].
  rewrite length_append, all_append, Hl, Ha, H. split; [lia | reflexivity].
Qed.

Lemma substring_all (f : ascii -> bool) (s : string) (n m : nat) :
  Str.all f s = true -> Str.all f (substring n m s) = true.
Proof.
  revert n m. induction s as [| c s IH]; intros n m H.
  - destruct n, m; reflexivity.
  - cbn in H. apply andb_prop in H. destruct H as [Hc Hs].
    destruct n as [| n]; cbn [substring].
    + destruct m as [| m]; [reflexivity |]. cbn. rewrite Hc. apply IH, Hs.
    + apply IH, Hs.
Qed.

Lemma substring_length (s : string) (n m : nat) :
  (n + m <= String.length s)%nat -> String.length (substring n m s) = m.
Proof.
  revert n m. induction s as [| c s IH]; intros n m H; cbn in H.
  - destruct n, m; try reflexivity; lia.
  - destruct n as [| n]; cbn [substring].
    + destruct m as [| m]; [reflexivity |]. cbn. rewrite IH; [reflexivity | lia].
    + apply IH. lia.
Qed.

Lemma digit_val_digit_char (d : Z) :
  0 <= d <= 9 -> Str.digit_val (Str.digit_char d) = d.
Proof.
  intros H.
  assert (E : (Str.digit_val (Str.digit_char d) =? d) = true).
  { apply (forall_below (fun d => Str.digit_val (Str.digit_char d) =? d) 10);
      [vm_compute; reflexivity | lia]. }
  apply Z.eqb_eq, E.
Qed.

(** The digits produced for [n], read back. *)
Lemma digits_value_digits_fuel (fuel : nat) (n : Z) (acc : string) :
  0 <= n < 10 ^ Z.of_nat fuel ->
  digits_value 0 (Str.digits_fuel fuel n acc) = digits_value n acc.
Proof.
  revert n acc. induction fuel as [| f IH]; intros n acc H.
  - cbn in H. replace n with 0 by lia. reflexivity.
  - cbn [Str.digits_fuel].
    assert (Hm : 0 <= n mod 10 < 10) by (apply Z.mod_pos_bound; lia).
    assert (Hn : n = 10 * (n / 10) + n mod 10) by (apply Z.div_mod; lia).
    assert (Hs : digits_value (n / 10) (String (Str.digit_char (n mod 10)) acc)
                 = digits_value n acc).
    { cbn [digits_value]. rewrite digit_val_digit_char by lia. f_equal. lia. }
    destruct (Z.eqb_spec (n / 10) 0) as [E | E].
    + rewrite <- Hs, E. reflexivity.
    + rewrite IH; [exact Hs |].
      rewrite Nat2Z.inj_succ, Z.pow_succ_r in H by lia.
      split; [apply Z.div_pos; lia | apply Z.div_lt_upper_bound; lia].
Qed.

Lemma digits_value_decimal_nonneg (n : Z) :
  0 <= n -> digits_value 0 (Str.decimal_nonneg n) = n.
Proof.
  intros H. unfold Str.decimal_nonneg.
  rewrite digits_value_digits_fuel; [reflexivity |].
  split; [exact H |].
  rewrite Nat2Z.inj_succ, Z2Nat.id by apply Z.log2_nonneg.
  destruct (Z.eq_dec n 0) as [-> | Hn]; [reflexivity |].
  apply Z.lt_le_trans with (2 ^ Z.succ (Z.log2 n)).
  - apply Z.log2_spec. lia.
  - apply Z.pow_le_mono_l. pose proof (Z.log2_nonneg n). lia.
Qed.

Lemma digits_value_padStart (s : string) (n : nat) :
  digits_value 0 (Str.padStart s n "0") = digits_value 0 s.
Proof.
  unfold Str.padStart. generalize (n - String.length s)%nat. intros k.
  induction k as [| k IH]; [reflexivity | exact IH].
Qed.

Lemma substring_split (s : string) (n : nat) :
  (n <= String.length s)%nat ->
  substring 0 n s ++ substring n (String.length s - n) s = s.
Proof.
  revert n. induction s as [| c s IH]; intros n H; cbn in H.
  - destruct n; [reflexivity | lia].
  - destruct n as [| n].
    + cbn [substring append String.length Nat.sub]. f_equal.
      specialize (IH 0%nat ltac:(lia)). rewrite Nat.sub_0_r in IH.
      destruct s; [reflexivity | exact IH].
    + cbn [substring append String.length Nat.sub]. f_equal. apply IH. lia.
Qed.

Lemma ratio_of_positive (m : positive) (e p q : Z) :
  Num.ratio_of m e = (p, q) -> 0 < p /\ 0 < q.
Proof.
  unfold Num.ratio_of. destruct (Z.leb_spec 0 e) as [He | He]; intros E.
  - assert (Hp : p = Z.pos m * 2 ^ e) by congruence.
    assert (Hq : q = 1) by congruence.
    pose proof (Z.pow_pos_nonneg 2 e ltac:(lia) He). split; [nia | lia].
  - assert (Hp : p = Z.pos m) by congruence.
    assert (Hq : q = 2 ^ (- e)) by congruence.
    pose proof (Z.pow_pos_nonneg 2 (- e) ltac:(lia) ltac:(lia)). split; lia.
Qed.

(** Below [10^21] the text of [x.toFixed(2)] is a sign, at least one
    digit, a point and exactly two digits; the digits write the number
    of hundredths nearest to the magnitude of [x], the larger one on a
    tie. *)
Lemma toFixed_two_digits (x : Num.jsnum) :
  below_1e21 x = true ->
  exists (ip fp : string) (n : Z),
    Num.toFixed x 2 = minus_sign x ++ ip ++ "." ++ fp /\
    (1 <= String.length ip)%nat /\ String.length fp = 2%nat /\
    Str.all Str.is_digit ip = true /\ Str.all Str.is_digit fp = true /\
    digits_value 0 (ip ++ fp) = n /\
    nearest_hundredths x n = true.
Proof.
  destruct x as [s | s | | s m e]; cbn [below_1e21]; try discriminate.
  - intros _. exists "0", "00", 0. repeat split. cbn. lia.
  - cbn [Num.toFixed minus_sign nearest_hundredths].
    destruct (Num.ratio_of m e) as [p q] eqn:Er. intros Hlt.
    destruct (ratio_of_positive m e p q Er) as [Hp Hq].
    replace (10 ^ 21 * q <=? p) with false by (symmetry; apply Z.leb_gt, Z.ltb_lt, Hlt).
    change (10 ^ Z.of_nat 2) with 100.
    set (n := (2 * p * 100 + q) / (2 * q)).
    assert (Hn : 0 <= n) by (apply Z.div_pos; lia).
    assert (Hd : Str.all Str.is_digit (Str.decimal_nonneg n) = true)
      by (apply digits_fuel_all; reflexivity).
    destruct (padStart_digits _ 3 Hd) as [Hl Ha].
    pose proof (digits_value_padStart (Str.decimal_nonneg n) 3) as Hv.
    rewrite digits_value_decimal_nonneg in Hv by exact Hn.
    set (ds := Str.padStart (Str.decimal_nonneg n) 3 "0") in *.
    exists (substring 0 (String.length ds - 2) ds), (substring (String.length ds - 2) 2 ds), n.
    split; [destruct s; reflexivity |].
    rewrite !substring_length by lia.
    rewrite !substring_all by exact Ha.
    split; [lia |]. split; [reflexivity |]. split; [reflexivity |]. split; [reflexivity |].
    split.
    + pose proof (substring_split ds (String.length ds - 2) ltac:(lia)) as E.
      replace (String.length ds - (String.length ds - 2))%nat with 2%nat in E by lia.
      rewrite E. exact Hv.
    + assert (E : 2 * p * 100 + q = 200 * p + q) by lia.
      pose proof (Z.mul_div_le (200 * p + q) (2 * q) ltac:(lia)) as Hlo.
      pose proof (Z.mul_succ_div_gt (200 * p + q) (2 * q) ltac:(lia)) as Hhi.
      unfold n. rewrite E.
      apply andb_true_intro. split; [apply Z.leb_le | apply Z.ltb_lt]; lia.
Qed.

(** ** Reading the rounded text back

    [Number] of a sign, digits, a point and two digits: nothing is
    trimmed, the text is no literal in another radix, and its value is
    that of the digits, divided by 100. *)

Lemma strip_one_number (c : ascii) (r : string) :
  starts_number c = true ->
  Num.strip_one Num.white_space (String c r) = None /\
  Num.strip_one (map Str.rev Num.white_space) (String c r) = None.
Proof.
  destruct c as [[] [] [] [] [] [] [] []]; intros H; try discriminate H;
    split; reflexivity.
Qed.

Lemma rev_acc_append (s t acc : string) :
  Str.rev_acc (s ++ t) acc = Str.rev_acc t (Str.rev_acc s acc).
Proof.
  revert acc. induction s as [| c s IH]; intros acc; [reflexivity | apply IH].
Qed.

Lemma rev_acc_rev_acc (s a b : string) :
  Str.rev_acc (Str.rev_acc s a) b = Str.rev_acc a (s ++ b).
Proof.
  revert a. induction s as [| c s IH]; intros a; [reflexivity |].
  cbn [Str.rev_acc]. rewrite IH. reflexivity.
Qed.

Lemma append_nil (s : string) : s ++ "" = s.
Proof. induction s as [| c s IH]; [reflexivity | cbn; rewrite IH; reflexivity]. Qed.

Lemma rev_rev (s : string) : Str.rev (Str.rev s) = s.
Proof. unfold Str.rev. rewrite rev_acc_rev_acc. cbn. apply append_nil. Qed.

Lemma trim_start_number (c : ascii) (r : string) :
  starts_number c = true -> Num.trim_start (String c r) = String c r.
Proof.
  intros H. unfold Num.trim_start. cbn [String.length Num.trim_start_fuel].
  rewrite (proj1 (strip_one_number c r H)). reflexivity.
Qed.

Lemma trim_end_digit (s : string) (c : ascii) :
  Str.is_digit c = true ->
  Num.trim_end (s ++ String c "") = s ++ String c "".
Proof.
  intros H. unfold Num.trim_end.
  assert (E : Str.rev (s ++ String c "") = String c (Str.rev s)).
  { unfold Str.rev. rewrite rev_acc_append. reflexivity. }
  rewrite E.
  assert (L : exists k, String.length (s ++ String c "") = S k).
  { rewrite length_append. cbn. exists (String.length s). lia. }
  destruct L as [k ->]. cbn [Num.trim_start_fuel].
  assert (Hn : starts_number c = true) by (unfold starts_number; rewrite H; reflexivity).
  rewrite (proj2 (strip_one_number c (Str.rev s) Hn)).
  rewrite <- E. apply rev_rev.
Qed.

Lemma parse_non_decimal_decimal (s : string) :
  Str.all is_decimal_char s = true -> Num.parse_non_decimal s = None.
Proof.
  destruct s as [| c0 [| c1 [| c2 r]]]; try reflexivity.
  - intros _. destruct c0 as [[] [] [] [] [] [] [] []]; reflexivity.
  - intros _. destruct c0 as [[] [] [] [] [] [] [] []]; reflexivity.
  - intros H. cbn [Str.all] in H.
    apply andb_prop in H. destruct H as [_ H].
    apply andb_prop in H. destruct H as [H1 _].
    destruct c0 as [[] [] [] [] [] [] [] []]; try reflexivity.
    destruct c1 as [[] [] [] [] [] [] [] []]; try discriminate H1; reflexivity.
Qed.

Lemma digits_value_append (s t : string) (acc : Z) :
  digits_value acc (s ++ t) = digits_value (digits_value acc s) t.
Proof.
  revert acc. induction s as [| c s IH]; intros acc; [reflexivity | apply IH].
Qed.

Lemma take_digits_all (s r : string) (acc cnt : Z) :
  Str.all Str.is_digit s = true ->
  DateTime.digit_next r = false ->
  Num.take_digits (s ++ r) acc cnt
  = (digits_value acc s, cnt + Z.of_nat (String.length s), r).
Proof.
  intros Hs Hr. revert acc cnt. induction s as [| c s IH]; intros acc cnt.
  - cbn [String.append digits_value String.length]. rewrite Z.add_0_r.
    destruct r as [| c r]; [reflexivity |].
    cbn [Num.take_digits]. cbn in Hr. rewrite Hr. reflexivity.
  - cbn in Hs. apply andb_prop in Hs. destruct Hs as [Hc Hs].
    cbn [String.append Num.take_digits]. rewrite Hc, (IH Hs).
    cbn [digits_value String.length]. do 2 f_equal. lia.
Qed.

Lemma of_string_fixed (neg : bool) (ip fp : string) :
  (1 <= String.length ip)%nat ->
  String.length fp = 2%nat ->
  Str.all Str.is_digit ip = true ->
  Str.all Str.is_digit fp = true ->
  Num.of_string ((if neg then "-" else "") ++ ip ++ "." ++ fp)
  = match digits_value 0 (ip ++ fp) with
    | Zpos p => Num.of_ratio neg p 100
    | _ => S754_zero neg
    end.
Proof.
  intros Hl Hf Hi Hd.
  destruct ip as [| c ip]; [cbn in Hl; lia |].
  destruct fp as [| a [| b [| x fp]]]; try discriminate Hf.
  assert (Hc : Str.is_digit c = true) by (cbn in Hi; apply andb_prop in Hi; tauto).
  assert (Hb : Str.is_digit b = true).
  { cbn in Hd. apply andb_prop in Hd. destruct Hd as [_ Hd].
    apply andb_prop in Hd. tauto. }
  set (body := String c ip ++ "." ++ String a (String b "")).
  assert (Hall : Str.all is_decimal_char body = true).
  { unfold body. rewrite all_append.
    assert (W : forall s, Str.all Str.is_digit s = true -> Str.all is_decimal_char s = true).
    { induction s as [| y s IH]; [reflexivity |]. cbn. intros H.
      apply andb_prop in H. destruct H as [H1 H2].
      unfold is_decimal_char at 1. rewrite H1, (IH H2). reflexivity. }
    rewrite (W _ Hi). pose proof (W _ Hd) as Wd.
    change ("." ++ String a (String b "")) with (String "." (String a (String b ""))).
    cbn [Str.all] in Wd |- *. rewrite Wd. reflexivity. }
  assert (Hu : Num.parse_unsigned_decimal neg body
               = Some (match digits_value 0 (String c ip ++ String a (String b "")) with
                       | Zpos p => Num.of_ratio neg p 100
                       | _ => S754_zero neg
                       end)).
  { unfold Num.parse_unsigned_decimal.
    assert (Ei : String.eqb body "Infinity" = false).
    { unfold body. cbn [String.append String.eqb].
      destruct c as [[] [] [] [] [] [] [] []]; try discriminate Hc; reflexivity. }
    rewrite Ei. unfold body.
    rewrite (take_digits_all (String c ip) ("." ++ String a (String b "")) 0 0 Hi eq_refl).
    change ("." ++ String a (String b "")) with (String "." (String a (String b "") ++ "")).
    cbv iota beta.
    rewrite (take_digits_all (String a (String b "")) "" _ 0 Hd eq_refl).
    cbv iota beta.
    replace (0 + Z.of_nat (String.length (String c ip))
             + (0 + Z.of_nat (String.length (String a (String b "")))) =? 0)
      with false by (symmetry; apply Z.eqb_neq; cbn [String.length]; lia).
    cbn [Num.parse_exponent]. rewrite digits_value_append.
    unfold Num.of_decimal.
    destruct (digits_value (digits_value 0 (String c ip)) (String a (String b "")))
      as [| p | p]; try reflexivity.
    replace (400 <? 0 - (0 + Z.of_nat (String.length (String a (String b ""))))) with false
      by reflexivity.
    replace (0 + Z.of_nat (String.length (String c ip))
             + (0 + Z.of_nat (String.length (String a (String b ""))))
             + (0 - (0 + Z.of_nat (String.length (String a (String b ""))))) <? -400)
      with false by (symmetry; apply Z.ltb_ge; cbn [String.length]; lia).
    reflexivity. }
  unfold Num.of_string.
  assert (Et : Num.trim ((if neg then "-" else "") ++ body)
               = (if neg then "-" else "") ++ body).
  { unfold Num.trim.
    assert (Es : exists c' r', (if neg then "-" else "") ++ body = String c' r'
                               /\ starts_number c' = true).
    { destruct neg; [exists "-"%char, body; split; reflexivity |].
      exists c, (ip ++ "." ++ String a (String b "")). split; [reflexivity |].
      unfold starts_number. rewrite Hc. reflexivity. }
    destruct Es as (c' & r' & Es & Hn). rewrite Es, (trim_start_number c' r' Hn), <- Es.
    assert (Ee : (if neg then "-" else "") ++ body
                 = ((if neg then "-" else "") ++ String c ip ++ "." ++ String a "")
                   ++ String b "").
    { unfold body. rewrite !append_assoc. reflexivity. }
    rewrite Ee. apply trim_end_digit, Hb. }
  fold body. rewrite Et.
  destruct neg.
  - change ("-" ++ body) with (String "-" body). cbv beta iota zeta.
    rewrite (parse_non_decimal_decimal (String "-" body))
      by (cbn [Str.all]; rewrite Hall; reflexivity).
    cbn [Ascii.eqb Bool.eqb]. rewrite Hu. reflexivity.
  - change ("" ++ body) with body.
    assert (Ep : Ascii.eqb c "+" = false)
      by (destruct c as [[] [] [] [] [] [] [] []]; try discriminate Hc; reflexivity).
    assert (Em : Ascii.eqb c "-" = false)
      by (destruct c as [[] [] [] [] [] [] [] []]; try discriminate Hc; reflexivity).
    assert (Eb : body = String c (ip ++ "." ++ String a (String b ""))) by reflexivity.
    rewrite Eb. cbv beta iota zeta. rewrite <- Eb.
    rewrite (parse_non_decimal_decimal body Hall), Ep, Em, Hu. reflexivity.
Qed.

(** ** The calendar

    The closed formulas of [MakeDay] against the count of days. *)

Lemma div_succ (a c : Z) :
  0 < c -> (a + 1) / c = a / c + (if (a + 1) mod c =? 0 then 1 else 0).
Proof.
  intros Hc.
  pose proof (Z.div_mod (a + 1) c ltac:(lia)) as H1.
  pose proof (Z.div_mod a c ltac:(lia)) as H2.
  pose proof (Z.mod_pos_bound a c Hc) as H3.
  pose proof (Z.mod_pos_bound (a + 1) c Hc) as H4.
  destruct (Z.eqb_spec ((a + 1) mod c) 0) as [E | E]; [rewrite E in H1 |]; nia.
Qed.

Lemma mod_shift (y k c : Z) : 0 < c -> (y + k * c) mod c = y mod c.
Proof. intros Hc. apply Z.mod_add. lia. Qed.

Lemma multiple_of_400 (y : Z) : y mod 400 = 0 -> y mod 100 = 0.
Proof.
  intros H. rewrite (Z.div_mod y 400) by lia. rewrite H, Z.add_0_r.
  replace (400 * (y / 400)) with (4 * (y / 400) * 100) by lia. apply Z.mod_mul. lia.
Qed.

Lemma multiple_of_100 (y : Z) : y mod 100 = 0 -> y mod 4 = 0.
Proof.
  intros H. rewrite (Z.div_mod y 100) by lia. rewrite H, Z.add_0_r.
  replace (100 * (y / 100)) with (25 * (y / 100) * 4) by lia. apply Z.mod_mul. lia.
Qed.

Lemma InLeapYear_leap_year (y : Z) : DateTime.InLeapYear y = leap_year y.
Proof.
  unfold DateTime.InLeapYear, leap_year.
  pose proof (multiple_of_400 y) as H400. pose proof (multiple_of_100 y) as H100.
  destruct (Z.eqb_spec (y mod 4) 0); destruct (Z.eqb_spec (y mod 100) 0);
    destruct (Z.eqb_spec (y mod 400) 0); cbn [andb orb negb]; try reflexivity; lia.
Qed.

Lemma DayFromYear_succ (y : Z) :
  DateTime.DayFromYear (y + 1) = DateTime.DayFromYear y + year_length y.
Proof.
  unfold DateTime.DayFromYear, year_length, leap_year.
  replace (y + 1 - 1969) with (y - 1969 + 1) by lia.
  replace (y + 1 - 1901) with (y - 1901 + 1) by lia.
  replace (y + 1 - 1601) with (y - 1601 + 1) by lia.
  rewrite !div_succ by lia.
  replace (y - 1969 + 1) with (y + (-492) * 4) by lia.
  replace (y - 1901 + 1) with (y + (-19) * 100) by lia.
  replace (y - 1601 + 1) with (y + (-4) * 400) by lia.
  rewrite !mod_shift by lia.
  pose proof (multiple_of_400 y) as H400. pose proof (multiple_of_100 y) as H100.
  destruct (Z.eqb_spec (y mod 4) 0); destruct (Z.eqb_spec (y mod 100) 0);
    destruct (Z.eqb_spec (y mod 400) 0); cbn [andb orb negb]; lia.
Qed.

Lemma days_to_1970_value : days_to_1970 = 719528.
Proof. vm_compute. reflexivity. Qed.

(** The closed formula for the first day of a year agrees with counting
    the years one by one. *)
Lemma DayFromYear_counts (n : nat) :
  DateTime.DayFromYear (Z.of_nat n) = days_to_year n - days_to_1970.
Proof.
  induction n as [| n IH].
  - rewrite days_to_1970_value. reflexivity.
  - rewrite Nat2Z.inj_succ, <- Z.add_1_r, DayFromYear_succ, IH.
    cbn [days_to_year]. lia.
Qed.

Lemma month_start_counts (leap : bool) (m : Z) :
  1 <= m <= 12 ->
  DateTime.month_start leap (m - 1) = days_to_month leap (Z.to_nat (m - 1)).
Proof.
  intros H.
  assert (C : m = 1 \/ m = 2 \/ m = 3 \/ m = 4 \/ m = 5 \/ m = 6 \/ m = 7 \/ m = 8 \/
              m = 9 \/ m = 10 \/ m = 11 \/ m = 12) by lia.
  clear H.
  repeat (destruct C as [C | C]; [subst m; destruct leap; vm_compute; reflexivity |]).
  subst m; destruct leap; vm_compute; reflexivity.
Qed.

Lemma MakeDay_counts (y m d : Z) :
  0 <= y -> 1 <= m <= 12 ->
  DateTime.MakeDay y (m - 1) d = epoch_day y m d.
Proof.
  intros Hy Hm. unfold DateTime.MakeDay, epoch_day.
  replace ((m - 1) / 12) with 0 by (symmetry; apply Z.div_small; lia).
  replace ((m - 1) mod 12) with (m - 1) by (symmetry; apply Z.mod_small; lia).
  rewrite Z.add_0_r, InLeapYear_leap_year, month_start_counts by exact Hm.
  rewrite <- (Z2Nat.id y) at 1 by exact Hy.
  rewrite DayFromYear_counts. lia.
Qed.

Lemma month_length_bound (leap : bool) (m : Z) : 28 <= month_length leap m <= 31.
Proof.
  unfold month_length.
  destruct m as [| p | p]; try lia.
  do 4 (try (destruct p as [p | p |]; try lia)); destruct leap; lia.
Qed.



(** ** Reading back a date the proxy has put into a string *)

Lemma pad_two (v : Z) : 0 <= v <= 99 -> pad 2 v = two_digits v.
Proof.
  intros H. apply String.eqb_eq.
  apply (forall_below (fun v => String.eqb (pad 2 v) (two_digits v)) 100);
    [vm_compute; reflexivity | lia].
Qed.

Lemma pad_four (v : Z) : 0 <= v <= 9999 -> pad 4 v = four_digits v.
Proof.
  intros H. apply String.eqb_eq.
  apply (forall_below (fun v => String.eqb (pad 4 v) (four_digits v)) 10000);
    [vm_compute; reflexivity | lia].
Qed.

Lemma fixed_digits_digit (n : nat) (d : Z) (rest : string) (acc : Z) :
  0 <= d <= 9 ->
  DateTime.fixed_digits (S n) (String (Str.digit_char d) rest) acc
  = DateTime.fixed_digits n rest (10 * acc + d).
Proof.
  intros H. cbn [DateTime.fixed_digits].
  rewrite is_digit_digit_char, digit_val_digit_char by lia. reflexivity.
Qed.

Lemma div_range (v c k : Z) : 0 < c -> 0 <= v < c * k -> 0 <= v / c <= k - 1.
Proof.
  intros Hc H. split; [apply Z.div_pos; lia |].
  assert (v / c < k) by (apply Z.div_lt_upper_bound; lia). lia.
Qed.

Lemma fixed_two (v : Z) (rest : string) :
  0 <= v <= 99 ->
  DateTime.fixed_digits 2 (two_digits v ++ rest) 0 = Some (v, rest).
Proof.
  intros H. unfold two_digits. cbn [String.append].
  pose proof (div_range v 10 10 ltac:(lia) ltac:(lia)).
  pose proof (Z.mod_pos_bound v 10 ltac:(lia)).
  rewrite !fixed_digits_digit by lia. cbn [DateTime.fixed_digits].
  do 2 f_equal. pose proof (Z.div_mod v 10 ltac:(lia)). lia.
Qed.

Lemma fixed_four (v : Z) (rest : string) :
  0 <= v <= 9999 ->
  DateTime.fixed_digits 4 (four_digits v ++ rest) 0 = Some (v, rest).
Proof.
  intros H. unfold four_digits. cbn [String.append].
  pose proof (div_range v 1000 10 ltac:(lia) ltac:(lia)).
  pose proof (Z.mod_pos_bound (v / 100) 10 ltac:(lia)).
  pose proof (Z.mod_pos_bound (v / 10) 10 ltac:(lia)).
  pose proof (Z.mod_pos_bound v 10 ltac:(lia)).
  rewrite !fixed_digits_digit by lia. cbn [DateTime.fixed_digits].
  do 2 f_equal.
  pose proof (Z.div_mod v 10 ltac:(lia)).
  pose proof (Z.div_mod (v / 10) 10 ltac:(lia)).
  pose proof (Z.div_mod (v / 100) 10 ltac:(lia)).
  replace (v / 100) with (v / 10 / 10) in * by (rewrite Z.div_div by lia; reflexivity).
  replace (v / 1000) with (v / 10 / 10 / 10) in * by (rewrite !Z.div_div by lia; reflexivity).
  lia.
Qed.

Lemma parse_year_digit (d : Z) (s : string) :
  0 <= d <= 9 ->
  DateTime.parse_year (String (Str.digit_char d) s)
  = DateTime.fixed_digits 4 (String (Str.digit_char d) s) 0.
Proof.
  intros H.
  assert (C : d = 0 \/ d = 1 \/ d = 2 \/ d = 3 \/ d = 4 \/ d = 5 \/ d = 6 \/ d = 7 \/
              d = 8 \/ d = 9) by lia.
  clear H.
  repeat (destruct C as [C | C]; [subst d; reflexivity |]).
  subst d; reflexivity.
Qed.

Lemma parse_year_four (y : Z) (rest : string) :
  0 <= y <= 9999 ->
  DateTime.parse_year (four_digits y ++ rest) = Some (y, rest).
Proof.
  intros H. rewrite <- (fixed_four y rest H). unfold four_digits. cbn [String.append].
  apply parse_year_digit.
  pose proof (div_range y 1000 10 ltac:(lia) ltac:(lia)). lia.
Qed.

Lemma parse_dash_field_two (lo hi dflt v : Z) (rest : string) :
  0 <= v <= 99 -> lo <= v <= hi ->
  DateTime.parse_dash_field lo hi dflt (String "-" (two_digits v ++ rest))
  = Some (v, true, rest).
Proof.
  intros H Hr. cbn [DateTime.parse_dash_field Ascii.eqb Bool.eqb].
  rewrite fixed_two by exact H.
  replace (lo <=? v) with true by (symmetry; apply Z.leb_le; lia).
  replace (v <=? hi) with true by (symmetry; apply Z.leb_le; lia).
  reflexivity.
Qed.

Lemma iso_date_append (y m d : Z) (rest : string) :
  valid_date y m d ->
  iso_date y m d ++ rest
  = four_digits y ++ String "-" (two_digits m ++ String "-" (two_digits d ++ rest)).
Proof.
  intros (Hy & Hm & Hd). pose proof (month_length_bound (leap_year y) m).
  unfold iso_date. rewrite pad_four, !pad_two by lia.
  rewrite !append_assoc. reflexivity.
Qed.

Lemma parse_date_iso (y m d : Z) (rest : string) :
  valid_date y m d ->
  DateTime.parse_date (iso_date y m d ++ rest) = Some (y, m, d, rest).
Proof.
  intros H. rewrite iso_date_append by exact H.
  destruct H as (Hy & Hm & Hd). pose proof (month_length_bound (leap_year y) m).
  unfold DateTime.parse_date.
  rewrite parse_year_four by exact Hy.
  rewrite parse_dash_field_two by lia.
  rewrite parse_dash_field_two by lia.
  reflexivity.
Qed.





(** ** Strings that are not dates *)

(** The date part reads no further than a ["T"]: a string that is not
    the start of a date stays so when a time is appended. *)
Lemma fixed_digits_before_T (n : nat) (s r : string) (acc : Z) :
  DateTime.fixed_digits n s acc = None ->
  DateTime.fixed_digits n (s ++ String "T" r) acc = None.
Proof.
  revert s acc. induction n as [| n IH]; intros s acc H; [discriminate H |].
  destruct s as [| c s]; [reflexivity |].
  cbn [DateTime.fixed_digits String.append] in *.
  destruct (Str.is_digit c); [apply IH, H | reflexivity].
Qed.

Lemma fixed_digits_append (n : nat) (s r : string) (acc v : Z) (rest : string) :
  DateTime.fixed_digits n s acc = Some (v, rest) ->
  DateTime.fixed_digits n (s ++ r) acc = Some (v, rest ++ r).
Proof.
  revert s acc. induction n as [| n IH]; intros s acc H.
  - cbn in H. injection H as <- <-. reflexivity.
  - destruct s as [| c s]; [discriminate H |].
    cbn [DateTime.fixed_digits String.append] in *.
    destruct (Str.is_digit c); [apply IH, H | discriminate H].
Qed.

Lemma parse_year_before_T (s r : string) :
  DateTime.parse_year s = None ->
  DateTime.parse_year (s ++ String "T" r) = None.
Proof.
  destruct s as [| c s]; [reflexivity |].
  cbn [DateTime.parse_year String.append].
  destruct (Ascii.eqb c "+"); [apply fixed_digits_before_T |].
  destruct (Ascii.eqb c "-").
  - destruct (DateTime.fixed_digits 6 s 0) as [[y r'] |] eqn:E.
    + rewrite (fixed_digits_append _ _ (String "T" r) _ _ _ E).
      destruct (y =? 0); [reflexivity | discriminate].
    + intros _. rewrite (fixed_digits_before_T _ _ r _ E). reflexivity.
  - apply (fixed_digits_before_T 4 (String c s) r 0).
Qed.

Lemma parse_year_append (s r : string) (y : Z) (rest : string) :
  DateTime.parse_year s = Some (y, rest) ->
  DateTime.parse_year (s ++ r) = Some (y, rest ++ r).
Proof.
  destruct s as [| c s]; [discriminate |].
  cbn [DateTime.parse_year String.append].
  destruct (Ascii.eqb c "+"); [apply fixed_digits_append |].
  destruct (Ascii.eqb c "-").
  - destruct (DateTime.fixed_digits 6 s 0) as [[y' r'] |] eqn:E; [| discriminate].
    rewrite (fixed_digits_append _ _ r _ _ _ E).
    destruct (y' =? 0); [discriminate |]. intros H. injection H as <- <-. reflexivity.
  - apply (fixed_digits_append 4 (String c s) r 0).
Qed.

Lemma parse_dash_field_before_T (lo hi dflt : Z) (s r : string) :
  DateTime.parse_dash_field lo hi dflt s = None ->
  DateTime.parse_dash_field lo hi dflt (s ++ String "T" r) = None.
Proof.
  destruct s as [| c s]; [discriminate |].
  cbn [DateTime.parse_dash_field String.append].
  destruct (Ascii.eqb c "-"); [| discriminate].
  destruct (DateTime.fixed_digits 2 s 0) as [[v r'] |] eqn:E.
  - rewrite (fixed_digits_append _ _ (String "T" r) _ _ _ E).
    destruct ((lo <=? v) && (v <=? hi)); [discriminate | reflexivity].
  - intros _. rewrite (fixed_digits_before_T _ _ r _ E). reflexivity.
Qed.

Lemma parse_dash_field_append (lo hi dflt : Z) (s r : string) (v : Z) (rest : string) :
  DateTime.parse_dash_field lo hi dflt s = Some (v, true, rest) ->
  DateTime.parse_dash_field lo hi dflt (s ++ r) = Some (v, true, rest ++ r).
Proof.
  destruct s as [| c s]; [discriminate |].
  cbn [DateTime.parse_dash_field String.append].
  destruct (Ascii.eqb c "-"); [| discriminate].
  destruct (DateTime.fixed_digits 2 s 0) as [[v' r'] |] eqn:E; [| discriminate].
  rewrite (fixed_digits_append _ _ r _ _ _ E).
  destruct ((lo <=? v') && (v' <=? hi)); [| discriminate].
  intros H. injection H as <- <-. reflexivity.
Qed.

Lemma parse_date_before_T (s r : string) :
  DateTime.parse_date s = None ->
  DateTime.parse_date (s ++ String "T" r) = None.
Proof.
  unfold DateTime.parse_date.
  destruct (DateTime.parse_year s) as [[y r1] |] eqn:Ey.
  - rewrite (parse_year_append _ (String "T" r) _ _ Ey).
    destruct (DateTime.parse_dash_field 1 12 1 r1) as [[[m [|]] r2] |] eqn:Em.
    + rewrite (parse_dash_field_append _ _ _ _ (String "T" r) _ _ Em).
      destruct (DateTime.parse_dash_field 1 31 1 r2) as [[[d b] r3] |] eqn:Ed;
        [discriminate |].
      intros _. rewrite (parse_dash_field_before_T _ _ _ _ r Ed). reflexivity.
    + discriminate.
    + intros _. rewrite (parse_dash_field_before_T _ _ _ _ r Em). reflexivity.
  - intros _. rewrite (parse_year_before_T _ r Ey). reflexivity.
Qed.

(** What does not start as a date is left to the runtime, also once a
    time is appended. *)
Lemma parse_not_a_date (legacy : legacy_parser) (s r : string) :
  DateTime.parse_date s = None ->
  DateTime.parse legacy (s ++ String "T" r) = legacy (s ++ String "T" r).
Proof.
  intros H. unfold DateTime.parse. rewrite (parse_date_before_T s r H). reflexivity.
Qed.

(** ** The signature *)










(** ** The offset string *)



(* ===================================================================== *)
(** * Properties of the handlers *)
(* ===================================================================== *)

(** The facts about concrete inputs are settled by evaluation. *)
Ltac evaluate := vm_compute; reflexivity.
Ltac show_authorized := split; [discriminate | reflexivity].
Ltac show_keys_configured := split; discriminate.

#[local] Arguments get : simpl never.
#[local] Arguments to_number : simpl never.
#[local] Arguments find_in_balances : simpl never.
#[local] Arguments aggregate : simpl never.
#[local] Arguments round2 : simpl never.
#[local] Arguments hmac : simpl never.
#[local] Arguments dayRange : simpl never.
#[local] Arguments encodeURIComponent : simpl never.
#[local] Arguments Str.decimal : simpl never.
#[local] Arguments DateTime.to_string : simpl never.
#[local] Arguments Num.add : simpl never.
#[local] Arguments String.append : simpl never.

(** ** The handlers, run

    For an authorized request each handler is characterized by its run:
    the calls it makes and the reply it draws from the answers. *)

Lemma get_field (k : string) (v : value) :
  v <> Null -> get (Some v) k = inr (field k v).
Proof. destruct v; intros H; try reflexivity. contradiction. Qed.

Lemma checkAuth_true_iff (env : environment) (req : request) :
  fst (checkAuth env req) = true <-> authorized env req.
Proof.
  unfold checkAuth, authorized, supplied_token, present, strict_eq.
  destruct (String.eqb_spec (PROXY_API_KEY env) "") as [E | E]; cbn.
  - split; [discriminate | intros [H _]; contradiction].
  - destruct (header_X_Proxy_Key req) as [h |]; cbn.
    + destruct (String.eqb_spec h "") as [Eh | Eh]; cbn.
      * destruct (query_key req) as [k |]; cbn.
        -- destruct (String.eqb_spec k (PROXY_API_KEY env)) as [Ek | Ek]; cbn;
             split; try discriminate; try (intros; split; congruence).
           intros [_ H]; congruence.
        -- split; [discriminate | intros [_ H]; discriminate].
      * destruct (String.eqb_spec h (PROXY_API_KEY env)) as [Ek | Ek]; cbn;
          split; try discriminate; try (intros; split; congruence).
        intros [_ H]; congruence.
    + destruct (query_key req) as [k |]; cbn.
      * destruct (String.eqb_spec k (PROXY_API_KEY env)) as [Ek | Ek]; cbn;
          split; try discriminate; try (intros; split; congruence).
        intros [_ H]; congruence.
      * split; [discriminate | intros [_ H]; discriminate].
Qed.

Lemma checkAuth_false (env : environment) (req : request) :
  fst (checkAuth env req) = false ->
  checkAuth env req = (false, unauthorized_response).
Proof.
  unfold checkAuth.
  destruct (_ || _); cbn; [reflexivity | discriminate].
Qed.

Lemma checkAuth_authorized (env : environment) (req : request) :
  authorized env req -> checkAuth env req = (true, None).
Proof.
  intros H. apply checkAuth_true_iff in H. revert H.
  unfold checkAuth. destruct (_ || _); cbn; [discriminate | reflexivity].
Qed.

Lemma keys_configured_not_missing (env : environment) :
  keys_configured env -> keys_missing env = false.
Proof.
  intros [Hk Hs]. unfold keys_missing.
  destruct (String.eqb_spec (BINANCE_API_KEY env) ""); [contradiction |].
  destruct (String.eqb_spec (BINANCE_API_SECRET env) ""); [contradiction | reflexivity].
Qed.

Lemma keys_not_missing_configured (env : environment) :
  keys_missing env = false -> keys_configured env.
Proof.
  unfold keys_missing, keys_configured. intros H.
  apply orb_false_elim in H. destruct H as [H1 H2].
  split; intros E; rewrite E in *; discriminate.
Qed.

Section AuthorizedRequest.

Variables (env : environment) (req : request).
Hypothesis Ha : authorized env req.

Lemma price_handler_run (toUpperCase : string -> string) (url type : string) (w : world) :
  run (price_handler toUpperCase url type env req) w
  = let symbol := requested_symbol toUpperCase req in
    let c := {| call_url := url ++ encodeURIComponent symbol; call_headers := [] |} in
    (relay (price_body type symbol) (upstream w 0 c), [c]).
Proof.
  unfold run, price_handler. rewrite (checkAuth_authorized _ _ Ha). cbn.
  fold (requested_symbol toUpperCase req).
  destruct (upstream w 0 _) as [e | st [e | data]]; cbn; try reflexivity.
  unfold price_body.
  destruct (ok st); cbn; [| reflexivity].
  destruct (get (Some data) "price") as [e | p]; cbn; [reflexivity |].
  destruct (to_number p); reflexivity.
Qed.

Hypothesis Hk : keys_configured env.

Lemma balance_run (w : world) :
  run (balance env req) w
  = let c := signed_call account_url (balance_query (clock w 0)) env in
    (relay balance_body (upstream w 0 c), [c]).
Proof.
  unfold run, balance.
  rewrite (checkAuth_authorized _ _ Ha), (keys_configured_not_missing _ Hk). cbn.
  fold (balance_query (clock w 0)).
  fold (signed_call account_url (balance_query (clock w 0)) env).
  destruct (upstream w 0 _) as [e | st [e | data]]; cbn; try reflexivity.
  unfold balance_body.
  destruct (ok st); cbn; [| reflexivity].
  destruct (find_in_balances data) as [e | found]; cbn; [reflexivity |].
  destruct (get _ "free") as [e | f]; cbn; [reflexivity |].
  destruct (to_number (or_else f _)) as [e | free]; cbn; [reflexivity |].
  destruct (get _ "locked") as [e | l]; cbn; [reflexivity |].
  destruct (to_number (or_else l _)) as [e | locked]; reflexivity.
Qed.

Lemma futures_balance_run (w : world) :
  run (futures_balance env req) w
  = let c := signed_call futures_account_url (balance_query (clock w 0)) env in
    (relay (fun data => inr (Obj [("balances", data)])) (upstream w 0 c), [c]).
Proof.
  unfold run, futures_balance.
  rewrite (checkAuth_authorized _ _ Ha), (keys_configured_not_missing _ Hk). cbn.
  fold (balance_query (clock w 0)).
  fold (signed_call futures_account_url (balance_query (clock w 0)) env).
  destruct (upstream w 0 _) as [e | st [e | data]]; cbn; try reflexivity.
  destruct (ok st); reflexivity.
Qed.

(** /hedge-volume with a date: two signed calls, the second made only
    when the first side did not throw, and a reply drawn from the two
    bodies. *)
Lemma hedge_volume_run
    (legacy : legacy_parser) (v : variant) (date : string) (w : world) :
  query_date req = Some date ->
  date <> "" ->
  run (hedge_volume legacy v env req) w
  = let range := dayRange legacy v env date in
    let c1 := signed_call spot_trades_url (trade_query range (clock w 0)) env in
    let c2 := signed_call futures_trades_url (trade_query range (clock w 1)) env in
    match volume_of (upstream w 0 c1) with
    | inl e => (proxy_exception e, [c1])
    | inr spotVolume =>
        match volume_of (upstream w 1 c2) with
        | inl e => (proxy_exception e, [c1; c2])
        | inr futuresVolume =>
            (respond 200 (hedge_volume_body date spotVolume futuresVolume), [c1; c2])
        end
    end.
Proof.
  intros Hd Hne. unfold run, hedge_volume.
  rewrite (checkAuth_authorized _ _ Ha), (keys_configured_not_missing _ Hk), Hd.
  assert (Hp : present (Some date) = true).
  { cbn. destruct (String.eqb_spec date ""); [contradiction | reflexivity]. }
  rewrite Hp. cbn.
  fold (trade_query (dayRange legacy v env date) (clock w 0)).
  fold (signed_call spot_trades_url
          (trade_query (dayRange legacy v env date) (clock w 0)) env).
  destruct (upstream w 0 _) as [e | st [e | data]]; cbn; try reflexivity.
  destruct (aggregate data) as [e | spotVolume]; cbn; [reflexivity |].
  fold (trade_query (dayRange legacy v env date) (clock w 1)).
  fold (signed_call futures_trades_url
          (trade_query (dayRange legacy v env date) (clock w 1)) env).
  destruct (upstream w 1 _) as [e | st2 [e | data2]]; cbn; try reflexivity.
  destruct (aggregate data2) as [e | futuresVolume]; reflexivity.
Qed.

End AuthorizedRequest.

(** ** C1: the day range *)






(** ** C2: the hedge-volume aggregation *)

(** C2, refuted as stated: a quote quantity that does not parse is not
    counted as zero but makes the running total NaN, which /hedge-volume
    then reports for that side; and a trade list with a [null] record
    makes the aggregation throw. *)
Lemma unparseable_quoteQty_poisons_total :
  aggregate unparseable_trades = inr Num.NaN /\
  (forall legacy : legacy_parser,
      fst (run (handle (fun s => s) legacy part_000 op_hedge_volume demo_env demo_req)
               unparseable_world)
      = Some {| status := 200;
                body := Obj [("date", Str "2025-01-01");
                             ("spotHedgeVolumeUSDT", Number Num.NaN);
                             ("futuresHedgeVolumeUSDT", Number Num.NaN)] |}) /\
  aggregate (Arr [Null])
  = inl (TypeError "Cannot read properties of null (reading 'quoteQty')") /\
  ~ (forall trades : list value,
        exists total : Num.jsnum,
          aggregate (Arr trades) = inr total /\ Num.is_nan total = false).
Proof.
  assert (E : aggregate unparseable_trades = inr Num.NaN) by evaluate.
  split; [exact E |].
  split; [intros legacy; evaluate |].
  split; [evaluate |].
  intros H.
  destruct (H [ Obj [("quoteQty", Str "10.5")];
                Obj [("quoteQty", Str "abc")];
                Obj [("quoteQty", Str "2")] ]) as [total [Ht Hn]].
  change (Arr _) with unparseable_trades in Ht.
  rewrite E in Ht. injection Ht as <-. discriminate Hn.
Qed.

Lemma quantity_missing (t : value) :
  t <> Null ->
  truthy (field "quoteQty" t) = false ->
  quantity t = inr Num.pzero.
Proof.
  intros Hn H. unfold quantity. rewrite (get_field "quoteQty" t Hn). cbn [bind].
  unfold or_else. rewrite H. reflexivity.
Qed.

Lemma quantity_string (t : value) (s : string) :
  field "quoteQty" t = Some (Str s) ->
  s <> "" ->
  quantity t = inr (Num.of_string s).
Proof.
  intros H Hs.
  assert (Hn : t <> Null) by (intros ->; discriminate H).
  unfold quantity. rewrite (get_field "quoteQty" t Hn). cbn [bind].
  unfold or_else. rewrite H.
  cbn [truthy]. destruct (String.eqb_spec s ""); [contradiction | reflexivity].
Qed.

Lemma sum_quoteQty_fold (trades : list value) (quantities : list Num.jsnum)
    (volume : Num.jsnum) :
  Forall2 (fun t n => quantity t = inr n) trades quantities ->
  sum_quoteQty trades volume = inr (fold_left Num.add quantities volume).
Proof.
  intros H. revert volume.
  induction H as [| t n trades quantities Hq _ IH]; intros volume; [reflexivity |].
  cbn [sum_quoteQty fold_left]. unfold quantity in Hq.
  destruct (get (Some t) "quoteQty") as [e | q]; cbn [bind] in *; [discriminate Hq |].
  rewrite Hq. cbn [bind]. apply IH.
Qed.

Lemma fold_add_not_nan (quantities : list Num.jsnum) (volume : Num.jsnum) :
  Num.is_nan volume = false ->
  Forall (fun n => Num.is_finite n = true) quantities ->
  Num.is_nan (fold_left Num.add quantities volume) = false.
Proof.
  intros Hv H. revert volume Hv.
  induction H as [| n quantities Hn _ IH]; intros volume Hv; [exact Hv |].
  cbn [fold_left]. apply IH, add_not_nan; assumption.
Qed.

(** C2, amended.  For trade records each of which gives a quantity
    [Number(record.quoteQty || 0)] without throwing, the aggregation
    returns the sum of these quantities, from left to right in binary64.
    A record other than [null] whose [quoteQty] is missing, null, empty,
    zero or otherwise falsy counts as zero; a non-empty string counts as
    [Number] of it, whether it parses or not.  When every quantity is
    finite the total is not NaN.  The per-side result is the total
    rounded to two decimal places: for a total below [10^21] in
    magnitude it is [Number] of the text made of the sign, at least one
    digit, a point and exactly two digits, and the digits write the
    number of hundredths nearest to the magnitude of the total, the
    larger one when the total lies halfway between two; as a Number it
    is the binary64 nearest to that many hundredths, with the sign of
    the total.  The records of
    the specification's example sum to 12.5, printed ["12.50"]; 0.125 is
    printed ["0.13"], and 1.005, which in binary64 lies below the
    decimal, ["1.00"]. *)
Theorem aggregation_sums_quote_quantities
    (trades : list value) (quantities : list Num.jsnum) :
  Forall2 (fun t n => quantity t = inr n) trades quantities ->
  aggregate (Arr trades) = inr (fold_left Num.add quantities Num.pzero) /\
  (Forall (fun n => Num.is_finite n = true) quantities ->
   Num.is_nan (fold_left Num.add quantities Num.pzero) = false) /\
  (forall t : value,
      t <> Null ->
      truthy (field "quoteQty" t) = false ->
      quantity t = inr Num.pzero) /\
  (forall (t : value) (s : string),
      field "quoteQty" t = Some (Str s) -> s <> "" ->
      quantity t = inr (Num.of_string s)) /\
  (forall total : Num.jsnum,
      below_1e21 total = true ->
      exists (ip fp : string) (n : Z),
        round2 total = Num.of_string (minus_sign total ++ ip ++ "." ++ fp) /\
        (1 <= String.length ip)%nat /\ String.length fp = 2%nat /\
        Str.all Str.is_digit ip = true /\ Str.all Str.is_digit fp = true /\
        digits_value 0 (ip ++ fp) = n /\
        nearest_hundredths total n = true /\
        round2 total = match n with
                       | Zpos p => Num.of_ratio (is_negative total) p 100
                       | _ => S754_zero (is_negative total)
                       end) /\
  (aggregate example_trades = inr (Num.of_string "12.5") /\
   Num.toFixed (Num.of_string "12.5") 2 = "12.50" /\
   round2 (Num.of_string "12.5") = Num.of_string "12.5" /\
   Num.toFixed (Num.of_string "0.125") 2 = "0.13" /\
   round2 (Num.of_string "0.125") = Num.of_string "0.13" /\
   Num.toFixed (Num.of_string "1.005") 2 = "1.00" /\
   round2 (Num.of_string "1.005") = Num.of_string "1" /\
   round2 (Num.of_string "-2.675") = Num.of_string "-2.67").
Proof.
  intros H. split; [exact (sum_quoteQty_fold trades quantities Num.pzero H) |].
  split; [apply fold_add_not_nan; reflexivity |].
  split; [exact quantity_missing |].
  split; [exact quantity_string |].
  split.
  - intros total Hb.
    destruct (toFixed_two_digits total Hb) as (ip & fp & n & E & Hl & Hf & Hi & Hd & Hn & Hr).
    exists ip, fp, n. unfold round2. rewrite E.
    repeat (split; [first [reflexivity | assumption] |]).
    assert (Es : minus_sign total = if is_negative total then "-" else "")
      by (destruct total as [| | | []]; reflexivity).
    rewrite Es, (of_string_fixed _ ip fp Hl Hf Hi Hd), Hn. reflexivity.
  - repeat split; vm_compute; reflexivity.
Qed.

Lemma aggregation_sums_quote_quantities_witness :
  Forall2 (fun t n => quantity t = inr n)
    [ Obj [("quoteQty", Str "10.5")]; Obj [("quoteQty", Null)]; Obj [("quoteQty", Str "2")] ]
    [ Num.of_string "10.5"; Num.pzero; Num.of_string "2" ] /\
  aggregate (Arr [ Obj [("quoteQty", Str "10.5")]; Obj [("quoteQty", Null)];
                   Obj [("quoteQty", Str "2")] ])
  = inr (fold_left Num.add [ Num.of_string "10.5"; Num.pzero; Num.of_string "2" ] Num.pzero).
Proof.
  assert (H : Forall2 (fun t n => quantity t = inr n)
                [ Obj [("quoteQty", Str "10.5")]; Obj [("quoteQty", Null)];
                  Obj [("quoteQty", Str "2")] ]
                [ Num.of_string "10.5"; Num.pzero; Num.of_string "2" ])
    by (repeat constructor).
  split; [exact H |].
  exact (proj1 (aggregation_sums_quote_quantities _ _ H)).
Defined.

(** ** C3: signed calls *)




(** ** C4: upstream errors *)

(** C4, refuted as stated: /hedge-volume, in both variants, answers 200
    with zero volumes when the upstream rejects both trade queries with
    status 400; the status and the body are not relayed. *)
Lemma hedge_volume_swallows_upstream_error :
  (forall legacy : legacy_parser,
      fst (run (handle (fun s => s) legacy index_js op_hedge_volume demo_env demo_req)
               rejecting_world)
      = Some {| status := 200;
                body := Obj [("date", Str "2025-01-01");
                             ("spotHedgeVolumeUSDT", Number Num.pzero);
                             ("futuresHedgeVolumeUSDT", Number Num.pzero)] |}) /\
  (forall legacy : legacy_parser,
      fst (run (handle (fun s => s) legacy part_000 op_hedge_volume demo_env demo_req)
               rejecting_world)
      = Some {| status := 200;
                body := Obj [("date", Str "2025-01-01");
                             ("spotHedgeVolumeUSDT", Number Num.pzero);
                             ("futuresHedgeVolumeUSDT", Number Num.pzero)] |}) /\
  (forall legacy : legacy_parser,
      ~ relays_upstream_errors
          (handle (fun s => s) legacy index_js op_hedge_volume demo_env demo_req)).
Proof.
  assert (E : forall legacy : legacy_parser,
             fst (run (handle (fun s => s) legacy index_js op_hedge_volume demo_env demo_req)
                      rejecting_world)
             = Some {| status := 200;
                       body := Obj [("date", Str "2025-01-01");
                                    ("spotHedgeVolumeUSDT", Number Num.pzero);
                                    ("futuresHedgeVolumeUSDT", Number Num.pzero)] |})
    by (intros legacy; evaluate).
  split; [exact E | split; [intros legacy; evaluate |]].
  intros legacy H.
  specialize (H rejecting_world 400 timestamp_error (fun n c => eq_refl) eq_refl).
  rewrite E in H. discriminate H.
Qed.

(** C4, amended.  In /price, /futures-price, /balance and
    /futures-balance an upstream answer with a non-success status whose
    body parses as JSON is relayed: same status, body
    [{error:"binance_error", data}]; when the body does not parse, the
    reply is 500 [{error:"proxy_exception", message}] with the text of
    the exception.  /hedge-volume never looks at the status of either
    answer: the reply is drawn from the two bodies alone, 200 with the
    two volumes unless reading or summing a body throws. *)
Theorem upstream_errors_relayed_outside_hedge_volume
    (toUpperCase : string -> string) (legacy : legacy_parser) (v : variant)
    (env : environment) (req : request) (w : world) (st : Z) (data : value) :
  authorized env req ->
  answers w 0 (Response st (inr data)) ->
  ok st = false ->
  fst (run (handle toUpperCase legacy v op_price env req) w)
  = Some {| status := st; body := Obj [("error", Str "binance_error"); ("data", data)] |} /\
  fst (run (handle toUpperCase legacy v op_futures_price env req) w)
  = Some {| status := st; body := Obj [("error", Str "binance_error"); ("data", data)] |} /\
  (keys_configured env ->
   fst (run (handle toUpperCase legacy v op_balance env req) w)
   = Some {| status := st; body := Obj [("error", Str "binance_error"); ("data", data)] |} /\
   fst (run (handle toUpperCase legacy v op_futures_balance env req) w)
   = Some {| status := st; body := Obj [("error", Str "binance_error"); ("data", data)] |} /\
   forall (date : string) (r2 : fetch_result),
     query_date req = Some date -> date <> "" ->
     answers w 1 r2 ->
     fst (run (handle toUpperCase legacy v op_hedge_volume env req) w)
     = let failed (e : exn) :=
         Some {| status := 500;
                 body := Obj [("error", Str "proxy_exception");
                              ("message", Str (exn_to_string e))] |} in
       match aggregate data with
       | inl e => failed e
       | inr spotVolume =>
           match volume_of r2 with
           | inl e => failed e
           | inr futuresVolume =>
               Some {| status := 200;
                       body := Obj [("date", Str date);
                                    ("spotHedgeVolumeUSDT", Number (round2 spotVolume));
                                    ("futuresHedgeVolumeUSDT",
                                     Number (round2 futuresVolume))] |}
           end
       end) /\
  (forall (w' : world) (e : exn),
      answers w' 0 (Response st (inl e)) ->
      let failed :=
        Some {| status := 500;
                body := Obj [("error", Str "proxy_exception");
                             ("message", Str (exn_to_string e))] |} in
      fst (run (handle toUpperCase legacy v op_price env req) w') = failed /\
      fst (run (handle toUpperCase legacy v op_futures_price env req) w') = failed /\
      (keys_configured env ->
       fst (run (handle toUpperCase legacy v op_balance env req) w') = failed /\
       fst (run (handle toUpperCase legacy v op_futures_balance env req) w') = failed)).
Proof.
  intros Ha Hw Hst. cbn [handle]. unfold price, futures_price.
  rewrite !price_handler_run by assumption. cbn zeta. rewrite !Hw. cbn [relay fst].
  rewrite Hst. split; [reflexivity | split; [reflexivity |]].
  split.
  - intros Hk. repeat split.
    + rewrite balance_run by assumption. cbn zeta. rewrite Hw. cbn. rewrite Hst. reflexivity.
    + rewrite futures_balance_run by assumption. cbn zeta. rewrite Hw. cbn. rewrite Hst.
      reflexivity.
    + intros date r2 Hd Hne H2.
      rewrite (hedge_volume_run env req Ha Hk legacy v date w) by assumption. cbn zeta.
      rewrite Hw, H2. cbn [volume_of body_of bind].
      destruct (aggregate data) as [e | s]; [reflexivity |].
      destruct (volume_of r2); reflexivity.
  - intros w' e Hw'. cbn zeta.
    rewrite !price_handler_run by assumption. cbn zeta. rewrite !Hw'.
    split; [reflexivity | split; [reflexivity |]].
    intros Hk.
    rewrite balance_run, futures_balance_run by assumption. cbn zeta. rewrite !Hw'.
    split; reflexivity.
Qed.

Lemma upstream_errors_relayed_outside_hedge_volume_witness :
  authorized demo_env demo_req /\
  answers rejecting_world 0 (Response 400 (inr timestamp_error)) /\
  ok 400 = false /\
  fst (run (handle (fun s => s) no_legacy index_js op_price demo_env demo_req) rejecting_world)
  = Some {| status := 400;
            body := Obj [("error", Str "binance_error"); ("data", timestamp_error)] |}.
Proof.
  assert (Ha : authorized demo_env demo_req) by show_authorized.
  assert (Hw : answers rejecting_world 0 (Response 400 (inr timestamp_error)))
    by (intros c; reflexivity).
  split; [exact Ha | split; [exact Hw | split; [reflexivity |]]].
  exact (proj1 (upstream_errors_relayed_outside_hedge_volume (fun s => s) no_legacy index_js
                  demo_env demo_req rejecting_world 400 timestamp_error Ha Hw eq_refl)).
Defined.

(** ** C5: the Authenticator *)



(** ** C6: a trade answer that is not a list *)

Lemma aggregate_non_list (b : value) :
  isArray b = false -> aggregate b = inr Num.pzero.
Proof. destruct b; cbn; intros H; try reflexivity; discriminate H. Qed.

Lemma round2_zero : round2 Num.pzero = Num.pzero.
Proof. evaluate. Qed.

(** A side whose answer cannot be read gives no volume. *)
Lemma volume_of_unread (r : fetch_result) (e : exn) :
  r = FetchRejected e \/ (exists st : Z, r = Response st (inl e)) ->
  volume_of r = inl e.
Proof. intros [-> | [st ->]]; reflexivity. Qed.

(** C6, refuted as stated: a side that fails does fail the whole
    request.  With the spot side behind a gateway that answers 502 with
    an HTML page, or not reachable at all, and the futures side ready to
    answer with the trades of the example, /hedge-volume answers 500
    and never queries the futures side. *)
Lemma failed_side_fails_the_request :
  (forall legacy : legacy_parser,
      run (handle (fun s => s) legacy part_000 op_hedge_volume demo_env demo_req)
          spot_gateway_world
      = (Some {| status := 500;
                 body := Obj [("error", Str "proxy_exception");
                              ("message",
                               Str "SyntaxError: Unexpected token < in JSON at position 0")] |},
         [ signed_call spot_trades_url
             "startTime=1735660800000&endTime=1735747199000&timestamp=1700000000000"
             demo_env ])) /\
  (forall legacy : legacy_parser,
      run (handle (fun s => s) legacy index_js op_hedge_volume demo_env demo_req)
          spot_unreachable_world
      = (Some {| status := 500;
                 body := Obj [("error", Str "proxy_exception");
                              ("message", Str "TypeError: fetch failed")] |},
         [ signed_call spot_trades_url
             "startTime=1735689600000&endTime=1735775999000&timestamp=1700000000000"
             demo_env ])) /\
  (forall legacy : legacy_parser,
      ~ (forall (w : world) (r1 : fetch_result),
            answers w 0 r1 ->
            answers w 1 (Response 200 (inr example_trades)) ->
            exists resp : http_response,
              fst (run (handle (fun s => s) legacy part_000 op_hedge_volume demo_env
                               demo_req) w)
              = Some resp /\
              status resp = 200)).
Proof.
  assert (E : forall legacy : legacy_parser,
             run (handle (fun s => s) legacy part_000 op_hedge_volume demo_env demo_req)
                 spot_gateway_world
             = (Some {| status := 500;
                        body := Obj [("error", Str "proxy_exception");
                                     ("message",
                                      Str "SyntaxError: Unexpected token < in JSON at position 0")] |},
                [ signed_call spot_trades_url
                    "startTime=1735660800000&endTime=1735747199000&timestamp=1700000000000"
                    demo_env ]))
    by (intros legacy; evaluate).
  split; [exact E |].
  split; [intros legacy; evaluate |].
  intros legacy H.
  destruct (H spot_gateway_world (Response 502 (inl gateway_error))
              (fun c => eq_refl) (fun c => eq_refl)) as [resp [Hr Hs]].
  rewrite E in Hr. injection Hr as <-. discriminate Hs.
Qed.

(** C6, amended.  A trade answer whose body is JSON but not a list (an
    error object, say) gives the volume zero for its side, whatever its
    status, and no exception.  With such an answer on the spot side the
    reply is decided by the futures side alone, and conversely: 200 with
    zero for the side that is not a list, unless the other side throws.
    A side whose request fails ([fetch] rejects) or whose body is not
    JSON is not counted as zero: it fails the whole request, answered
    500 [{error:"proxy_exception", message}]; when it is the spot side,
    the futures side is not queried. *)
Theorem non_list_side_counts_zero
    (toUpperCase : string -> string) (legacy : legacy_parser) (v : variant)
    (env : environment) (req : request) (date : string) (w : world)
    (st : Z) (b : value) :
  authorized env req ->
  keys_configured env ->
  query_date req = Some date ->
  date <> "" ->
  isArray b = false ->
  aggregate b = inr Num.pzero /\
  (forall r2 : fetch_result,
      answers w 0 (Response st (inr b)) ->
      answers w 1 r2 ->
      fst (run (handle toUpperCase legacy v op_hedge_volume env req) w)
      = match volume_of r2 with
        | inl e =>
            Some {| status := 500;
                    body := Obj [("error", Str "proxy_exception");
                                 ("message", Str (exn_to_string e))] |}
        | inr futuresVolume =>
            Some {| status := 200;
                    body := Obj [("date", Str date);
                                 ("spotHedgeVolumeUSDT", Number Num.pzero);
                                 ("futuresHedgeVolumeUSDT",
                                  Number (round2 futuresVolume))] |}
        end) /\
  (forall (r1 : fetch_result) (spotVolume : Num.jsnum),
      answers w 0 r1 ->
      volume_of r1 = inr spotVolume ->
      answers w 1 (Response st (inr b)) ->
      fst (run (handle toUpperCase legacy v op_hedge_volume env req) w)
      = Some {| status := 200;
                body := Obj [("date", Str date);
                             ("spotHedgeVolumeUSDT", Number (round2 spotVolume));
                             ("futuresHedgeVolumeUSDT", Number Num.pzero)] |}) /\
  (forall (r1 : fetch_result) (e : exn),
      answers w 0 r1 ->
      r1 = FetchRejected e \/ (exists st1 : Z, r1 = Response st1 (inl e)) ->
      let qs1 := trade_query (dayRange legacy v env date) (clock w 0) in
      run (handle toUpperCase legacy v op_hedge_volume env req) w
      = (Some {| status := 500;
                 body := Obj [("error", Str "proxy_exception");
                              ("message", Str (exn_to_string e))] |},
         [ {| call_url := spot_trades_url ++ qs1 ++ "&signature="
                          ++ hmac qs1 (BINANCE_API_SECRET env);
              call_headers := [("X-MBX-APIKEY", BINANCE_API_KEY env)] |} ])) /\
  (forall (r1 r2 : fetch_result) (spotVolume : Num.jsnum) (e : exn),
      answers w 0 r1 ->
      volume_of r1 = inr spotVolume ->
      answers w 1 r2 ->
      r2 = FetchRejected e \/ (exists st2 : Z, r2 = Response st2 (inl e)) ->
      fst (run (handle toUpperCase legacy v op_hedge_volume env req) w)
      = Some {| status := 500;
                body := Obj [("error", Str "proxy_exception");
                             ("message", Str (exn_to_string e))] |}).
Proof.
  intros Ha Hk Hd Hne Hb.
  pose proof (aggregate_non_list b Hb) as Hz.
  assert (Hv : volume_of (Response st (inr b)) = inr Num.pzero) by exact Hz.
  split; [exact Hz |].
  split; [| split; [| split]].
  - intros r2 H1 H2. cbn [handle].
    rewrite (hedge_volume_run env req Ha Hk legacy v date w) by assumption. cbn zeta.
    rewrite H1, H2, Hv.
    destruct (volume_of r2) as [e | f]; [reflexivity |].
    cbn [fst]. unfold hedge_volume_body. rewrite round2_zero. reflexivity.
  - intros r1 s H1 Hs H2. cbn [handle].
    rewrite (hedge_volume_run env req Ha Hk legacy v date w) by assumption. cbn zeta.
    rewrite H1, H2, Hs, Hv.
    cbn [fst]. unfold hedge_volume_body. rewrite round2_zero. reflexivity.
  - intros r1 e H1 Hr. cbn [handle]. cbn zeta.
    rewrite (hedge_volume_run env req Ha Hk legacy v date w) by assumption. cbn zeta.
    rewrite H1, (volume_of_unread r1 e Hr). reflexivity.
  - intros r1 r2 s e H1 Hs H2 Hr. cbn [handle].
    rewrite (hedge_volume_run env req Ha Hk legacy v date w) by assumption. cbn zeta.
    rewrite H1, H2, Hs, (volume_of_unread r2 e Hr). reflexivity.
Qed.

Lemma non_list_side_counts_zero_witness :
  authorized demo_env demo_req /\
  keys_configured demo_env /\
  isArray timestamp_error = false /\
  fst (run (handle (fun s => s) no_legacy part_000 op_hedge_volume demo_env demo_req)
           spot_rejecting_world)
  = Some {| status := 200;
            body := Obj [("date", Str "2025-01-01");
                         ("spotHedgeVolumeUSDT", Number Num.pzero);
                         ("futuresHedgeVolumeUSDT", Number (Num.of_string "12.5"))] |}.
Proof.
  assert (Ha : authorized demo_env demo_req) by show_authorized.
  assert (Hk : keys_configured demo_env) by show_keys_configured.
  assert (Hne : "2025-01-01" <> "") by discriminate.
  split; [exact Ha | split; [exact Hk | split; [reflexivity |]]].
  exact (proj1 (proj2 (non_list_side_counts_zero (fun s => s) no_legacy part_000 demo_env
                         demo_req "2025-01-01" spot_rejecting_world 400 timestamp_error
                         Ha Hk eq_refl Hne eq_refl))
           (Response 200 (inr example_trades))
           (fun c => eq_refl) (fun c => eq_refl)).
Defined.

(** ** C7: a date that does not parse *)

(** A timestamp where a date is expected is not a date once a time is
    appended: the zone designator ["Z"] no longer ends the string. *)
Lemma parse_timestamp
    (legacy : legacy_parser) (y m d hh mi ss : Z) (c : ascii) (r : string) :
  valid_date y m d ->
  0 <= hh <= 99 -> 0 <= mi <= 99 -> 0 <= ss <= 99 ->
  DateTime.parse legacy (iso_timestamp y m d hh mi ss ++ String c r) = None.
Proof.
  intros Hv Hh Hm Hs.
  assert (E : iso_timestamp y m d hh mi ss ++ String c r
              = iso_date y m d
                ++ String "T"
                     (two_digits hh
                      ++ String ":"
                           (two_digits mi
                            ++ String ":" (two_digits ss ++ String "Z" (String c r))))).
  { unfold iso_timestamp. rewrite !pad_two by lia. rewrite !append_assoc. reflexivity. }
  rewrite E. unfold DateTime.parse. rewrite parse_date_iso by exact Hv.
  assert (Hd : DateTime.digit_next
                 (two_digits hh
                  ++ String ":"
                       (two_digits mi
                        ++ String ":" (two_digits ss ++ String "Z" (String c r)))) = true).
  { apply is_digit_digit_char.
    pose proof (div_range hh 10 10 ltac:(lia) ltac:(lia)). lia. }
  rewrite Hd. unfold DateTime.parse_time.
  rewrite fixed_two by exact Hh. cbv beta iota.
  rewrite fixed_two by exact Hm. cbv beta iota zeta.
  rewrite fixed_two by exact Hs. cbv beta iota.
  destruct ((hh <=? 23) && (mi <=? 59) && (ss <=? 59)); [reflexivity |].
  destruct ((hh =? 24) && (mi =? 0) && (ss =? 0) && (0 =? 0)); reflexivity.
Qed.

Lemma dayRange_timestamp
    (legacy : legacy_parser) (v : variant) (env : environment) (y m d hh mi ss : Z) :
  valid_date y m d ->
  0 <= hh <= 99 -> 0 <= mi <= 99 -> 0 <= ss <= 99 ->
  dayRange legacy v env (iso_timestamp y m d hh mi ss) = {| start := None; end_ := None |}.
Proof.
  intros Hv Hh Hm Hs.
  destruct v; unfold dayRange, getDayRangeUTC, getDayRange; cbn zeta.
  - change (iso_timestamp y m d hh mi ss ++ "T00:00:00Z")
      with (iso_timestamp y m d hh mi ss ++ String "T" "00:00:00Z").
    change (iso_timestamp y m d hh mi ss ++ "T23:59:59Z")
      with (iso_timestamp y m d hh mi ss ++ String "T" "23:59:59Z").
    rewrite !parse_timestamp by assumption. reflexivity.
  - set (z := offsetStr (tzOffsetHours env)).
    change (iso_timestamp y m d hh mi ss ++ "T00:00:00" ++ z)
      with (iso_timestamp y m d hh mi ss ++ String "T" ("00:00:00" ++ z)).
    change (iso_timestamp y m d hh mi ss ++ "T23:59:59" ++ z)
      with (iso_timestamp y m d hh mi ss ++ String "T" ("23:59:59" ++ z)).
    rewrite !parse_timestamp by assumption. reflexivity.
Qed.

(** A string that does not start as a date of the format is read by the
    runtime's lenient parser, with the time appended. *)
Lemma dayRange_not_a_date
    (legacy : legacy_parser) (v : variant) (env : environment) (date : string) :
  DateTime.parse_date date = None ->
  dayRange legacy v env date
  = {| start := legacy (date ++ "T00:00:00" ++ zone_of v env);
       end_ := legacy (date ++ "T23:59:59" ++ zone_of v env) |}.
Proof.
  intros H. destruct v; unfold dayRange, getDayRangeUTC, getDayRange, zone_of; cbn zeta.
  - change (date ++ "T00:00:00Z") with (date ++ String "T" "00:00:00Z").
    change (date ++ "T23:59:59Z") with (date ++ String "T" "23:59:59Z").
    change (date ++ "T00:00:00" ++ "Z") with (date ++ String "T" "00:00:00Z").
    change (date ++ "T23:59:59" ++ "Z") with (date ++ String "T" "23:59:59Z").
    rewrite !parse_not_a_date by exact H. reflexivity.
  - set (z := offsetStr (tzOffsetHours env)).
    change (date ++ "T00:00:00" ++ z) with (date ++ String "T" ("00:00:00" ++ z)).
    change (date ++ "T23:59:59" ++ z) with (date ++ String "T" ("23:59:59" ++ z)).
    rewrite !parse_not_a_date by exact H. reflexivity.
Qed.

(** C7, refuted as stated: no error is surfaced for a date that is not a
    valid YYYY-MM-DD date.  For the timestamp ["2025-01-01T00:00:00Z"]
    both resolvers return NaN for both bounds, whatever the runtime
    makes of the strings outside the format; /hedge-volume sends the two
    trade queries with [startTime=NaN&endTime=NaN] and, the upstream
    rejecting them with status 400, answers 200 with zero volumes.  For
    ["2025-02-30"], a day that does not exist, the resolver returns the
    bounds of the second of March. *)
Lemma invalid_date_is_not_rejected :
  (forall legacy : legacy_parser,
      getDayRange legacy demo_env "2025-01-01T00:00:00Z"
      = {| start := None; end_ := None |}) /\
  (forall legacy : legacy_parser,
      getDayRangeUTC legacy "2025-01-01T00:00:00Z" = {| start := None; end_ := None |}) /\
  (forall legacy : legacy_parser,
      run (handle (fun s => s) legacy part_000 op_hedge_volume demo_env invalid_date_req)
          rejecting_world
      = (Some {| status := 200;
                 body := Obj [("date", Str "2025-01-01T00:00:00Z");
                              ("spotHedgeVolumeUSDT", Number Num.pzero);
                              ("futuresHedgeVolumeUSDT", Number Num.pzero)] |},
         [ signed_call spot_trades_url
             "startTime=NaN&endTime=NaN&timestamp=1700000000000" demo_env;
           signed_call futures_trades_url
             "startTime=NaN&endTime=NaN&timestamp=1700000000001" demo_env ])) /\
  (forall legacy : legacy_parser,
      getDayRangeUTC legacy "2025-02-30" = getDayRangeUTC legacy "2025-03-02" /\
      getDayRangeUTC legacy "2025-02-30"
      = {| start := Some 1740873600000; end_ := Some 1740959999000 |}) /\
  (forall legacy : legacy_parser,
      ~ (forall (v : variant) (w : world) (resp : http_response),
            fst (run (handle (fun s => s) legacy v op_hedge_volume demo_env invalid_date_req)
                     w)
            = Some resp ->
            status resp <> 200)).
Proof.
  assert (E : forall legacy : legacy_parser,
             run (handle (fun s => s) legacy part_000 op_hedge_volume demo_env
                         invalid_date_req)
                 rejecting_world
             = (Some {| status := 200;
                        body := Obj [("date", Str "2025-01-01T00:00:00Z");
                                     ("spotHedgeVolumeUSDT", Number Num.pzero);
                                     ("futuresHedgeVolumeUSDT", Number Num.pzero)] |},
                [ signed_call spot_trades_url
                    "startTime=NaN&endTime=NaN&timestamp=1700000000000" demo_env;
                  signed_call futures_trades_url
                    "startTime=NaN&endTime=NaN&timestamp=1700000000001" demo_env ]))
    by (intros legacy; evaluate).
  split; [intros legacy; evaluate |].
  split; [intros legacy; evaluate |].
  split; [exact E |].
  split; [intros legacy; split; evaluate |].
  intros legacy H.
  apply (H part_000 rejecting_world
           {| status := 200;
              body := Obj [("date", Str "2025-01-01T00:00:00Z");
                           ("spotHedgeVolumeUSDT", Number Num.pzero);
                           ("futuresHedgeVolumeUSDT", Number Num.pzero)] |}).
  - rewrite E. reflexivity.
  - reflexivity.
Qed.

(** C7, amended.  The Day-Range Resolver has no error to surface: for
    every string it returns a pair, and nothing validates the string or
    the pair.  For a timestamp YYYY-MM-DDThh:mm:ssZ given as the date,
    both bounds are NaN in both variants, whatever the offset.  A string
    that does not start as a date of the format (four digits, or a sign
    and six, then optional [-MM] and [-DD] in range) is read, with the
    time and the zone appended, by the lenient parser of the runtime,
    and the bounds are what that parser returns, NaN or numbers.
    Whenever both bounds are NaN, /hedge-volume goes on as for any other
    date: it signs and sends [startTime=NaN&endTime=NaN&timestamp=t] to
    the spot endpoint and then to the futures endpoint, and answers from
    the two bodies, 200 with the two volumes unless a side throws. *)
Theorem unparseable_date_reaches_upstream
    (toUpperCase : string -> string) (legacy : legacy_parser) (v : variant)
    (env : environment) (req : request) (date : string) (w : world) :
  authorized env req ->
  keys_configured env ->
  query_date req = Some date ->
  date <> "" ->
  (forall y m d hh mi ss : Z,
      valid_date y m d ->
      0 <= hh <= 99 -> 0 <= mi <= 99 -> 0 <= ss <= 99 ->
      dayRange legacy v env (iso_timestamp y m d hh mi ss)
      = {| start := None; end_ := None |}) /\
  (DateTime.parse_date date = None ->
   dayRange legacy v env date
   = {| start := legacy (date ++ "T00:00:00" ++ zone_of v env);
        end_ := legacy (date ++ "T23:59:59" ++ zone_of v env) |}) /\
  (dayRange legacy v env date = {| start := None; end_ := None |} ->
   run (handle toUpperCase legacy v op_hedge_volume env req) w
   = let qs1 := "startTime=NaN&endTime=NaN&timestamp=" ++ Str.decimal (clock w 0) in
     let qs2 := "startTime=NaN&endTime=NaN&timestamp=" ++ Str.decimal (clock w 1) in
     let c1 := {| call_url := spot_trades_url ++ qs1 ++ "&signature="
                              ++ hmac qs1 (BINANCE_API_SECRET env);
                  call_headers := [("X-MBX-APIKEY", BINANCE_API_KEY env)] |} in
     let c2 := {| call_url := futures_trades_url ++ qs2 ++ "&signature="
                              ++ hmac qs2 (BINANCE_API_SECRET env);
                  call_headers := [("X-MBX-APIKEY", BINANCE_API_KEY env)] |} in
     let failed (e : exn) :=
       Some {| status := 500;
               body := Obj [("error", Str "proxy_exception");
                            ("message", Str (exn_to_string e))] |} in
     match volume_of (upstream w 0 c1) with
     | inl e => (failed e, [c1])
     | inr spotVolume =>
         match volume_of (upstream w 1 c2) with
         | inl e => (failed e, [c1; c2])
         | inr futuresVolume =>
             (Some {| status := 200;
                      body := Obj [("date", Str date);
                                   ("spotHedgeVolumeUSDT", Number (round2 spotVolume));
                                   ("futuresHedgeVolumeUSDT",
                                    Number (round2 futuresVolume))] |},
              [c1; c2])
         end
     end).
Proof.
  intros Ha Hk Hd Hne.
  split; [intros y m d hh mi ss; apply dayRange_timestamp |].
  split; [apply dayRange_not_a_date |].
  intros Hr. cbn [handle].
  rewrite (hedge_volume_run env req Ha Hk legacy v date w Hd Hne). cbn zeta.
  rewrite Hr. reflexivity.
Qed.

Lemma unparseable_date_reaches_upstream_witness :
  authorized demo_env invalid_date_req /\
  keys_configured demo_env /\
  valid_date 2025 1 1 /\
  iso_timestamp 2025 1 1 0 0 0 = "2025-01-01T00:00:00Z" /\
  dayRange no_legacy index_js demo_env (iso_timestamp 2025 1 1 0 0 0)
  = {| start := None; end_ := None |}.
Proof.
  assert (Ha : authorized demo_env invalid_date_req) by show_authorized.
  assert (Hk : keys_configured demo_env) by show_keys_configured.
  assert (Hne : "2025-01-01T00:00:00Z" <> "") by discriminate.
  assert (Hv : valid_date 2025 1 1) by (unfold valid_date; cbn; lia).
  split; [exact Ha | split; [exact Hk | split; [exact Hv | split; [reflexivity |]]]].
  exact (proj1 (unparseable_date_reaches_upstream (fun s => s) no_legacy index_js demo_env
                  invalid_date_req "2025-01-01T00:00:00Z" rejecting_world Ha Hk eq_refl Hne)
           2025 1 1 0 0 0 Hv ltac:(lia) ltac:(lia) ltac:(lia)).
Defined.

(** ** C8: absent exchange credentials *)

(** C8.  With the API key or the secret absent, an authorized request to
    /balance, /futures-balance or /hedge-volume is answered 400
    [{error:"missing_binance_keys"}] by a program that makes no upstream
    call.  The two price handlers never read the exchange credentials:
    they are the same programs whatever those are, and they make their
    one, unsigned, upstream call. *)
Theorem missing_keys_block_signed_operations_only
    (toUpperCase : string -> string) (legacy : legacy_parser) (v : variant)
    (env : environment) (req : request) :
  authorized env req ->
  BINANCE_API_KEY env = "" \/ BINANCE_API_SECRET env = "" ->
  (handle toUpperCase legacy v op_balance env req
   = Ret (Some {| status := 400; body := Obj [("error", Str "missing_binance_keys")] |}) /\
   handle toUpperCase legacy v op_futures_balance env req
   = Ret (Some {| status := 400; body := Obj [("error", Str "missing_binance_keys")] |}) /\
   handle toUpperCase legacy v op_hedge_volume env req
   = Ret (Some {| status := 400; body := Obj [("error", Str "missing_binance_keys")] |})) /\
  (forall env' : environment,
      env_PROXY_API_KEY env' = env_PROXY_API_KEY env ->
      handle toUpperCase legacy v op_price env' req
      = handle toUpperCase legacy v op_price env req /\
      handle toUpperCase legacy v op_futures_price env' req
      = handle toUpperCase legacy v op_futures_price env req) /\
  (forall w : world,
      snd (run (handle toUpperCase legacy v op_price env req) w)
      = [ {| call_url := spot_price_url ++ encodeURIComponent (requested_symbol toUpperCase req);
             call_headers := [] |} ] /\
      snd (run (handle toUpperCase legacy v op_futures_price env req) w)
      = [ {| call_url := futures_price_url
                         ++ encodeURIComponent (requested_symbol toUpperCase req);
             call_headers := [] |} ]).
Proof.
  intros Ha Hk.
  assert (Km : keys_missing env = true).
  { unfold keys_missing. destruct Hk as [-> | ->]; cbn; [reflexivity |].
    apply orb_true_r. }
  split; [| split].
  - cbn. unfold balance, futures_balance, hedge_volume.
    rewrite (checkAuth_authorized _ _ Ha), Km. repeat split.
  - intros env' E. cbn. unfold price, futures_price, price_handler, checkAuth, PROXY_API_KEY.
    rewrite E. split; reflexivity.
  - intros w. cbn [handle]. unfold price, futures_price.
    rewrite !price_handler_run by assumption. split; reflexivity.
Qed.

Lemma missing_keys_block_signed_operations_only_witness :
  authorized no_secret_env demo_req /\
  (BINANCE_API_KEY no_secret_env = "" \/ BINANCE_API_SECRET no_secret_env = "") /\
  handle (fun s => s) no_legacy index_js op_balance no_secret_env demo_req
  = Ret (Some {| status := 400; body := Obj [("error", Str "missing_binance_keys")] |}).
Proof.
  assert (Ha : authorized no_secret_env demo_req) by show_authorized.
  assert (Hk : BINANCE_API_KEY no_secret_env = "" \/ BINANCE_API_SECRET no_secret_env = "")
    by (right; reflexivity).
  split; [exact Ha | split; [exact Hk |]].
  exact (proj1 (proj1 (missing_keys_block_signed_operations_only
                         (fun s => s) no_legacy index_js no_secret_env demo_req Ha Hk))).
Defined.

(** ** C9: the missing date *)



(** ** C10: the BNB balance *)

Lemma find_BNB_none (l : list value) :
  Forall (fun b => b <> Null /\ has_asset_BNB b = false) l ->
  find_BNB l = inr None.
Proof.
  induction 1 as [| b l [Hn Hb] _ IH]; [reflexivity |].
  cbn [find_BNB]. rewrite (get_field "asset" b Hn). cbn [bind].
  unfold has_asset_BNB in Hb. rewrite Hb. exact IH.
Qed.

Lemma balance_body_without_BNB (data : value) :
  data <> Null ->
  truthy (field "balances" data) = false \/
  (exists l, field "balances" data = Some (Arr l) /\
             Forall (fun b => b <> Null /\ has_asset_BNB b = false) l) ->
  balance_body data = inr zero_balance.
Proof.
  intros Hn H.
  assert (F : find_in_balances data = inr None).
  { unfold find_in_balances. rewrite (get_field "balances" data Hn). cbn [bind].
    unfold or_else.
    destruct H as [H | [l [E H]]].
    - rewrite H. reflexivity.
    - rewrite E. cbn. apply find_BNB_none, H. }
  unfold balance_body. rewrite F. vm_compute. reflexivity.
Qed.

Lemma balance_body_total (data body : value) :
  balance_body data = inr body ->
  exists free locked : Num.jsnum,
    body = Obj [("asset", Str "BNB"); ("free", Number free); ("locked", Number locked);
                ("total", Number (Num.add free locked))].
Proof.
  unfold balance_body.
  destruct (find_in_balances data) as [e | found]; cbn [bind]; [discriminate |].
  destruct (get _ "free") as [e | f]; cbn [bind]; [discriminate |].
  destruct (to_number (or_else f _)) as [e | free]; cbn [bind]; [discriminate |].
  destruct (get _ "locked") as [e | l]; cbn [bind]; [discriminate |].
  destruct (to_number (or_else l _)) as [e | locked]; cbn [bind]; [discriminate |].
  intros H. injection H as <-. exists free, locked. reflexivity.
Qed.

Lemma ok_200 (st : Z) : ok st = false -> st <> 200.
Proof. intros H E. subst st. discriminate H. Qed.

(** The search throws at a [null] entry that no BNB entry precedes. *)
Lemma find_BNB_null (pre post : list value) :
  Forall (fun b => b <> Null /\ has_asset_BNB b = false) pre ->
  exists e : exn, find_BNB (pre ++ Null :: post)%list = inl e.
Proof.
  induction 1 as [| b l [Hn Hb] _ [e IH]]; [eexists; reflexivity |].
  exists e. cbn [List.app find_BNB]. rewrite (get_field "asset" b Hn). cbn [bind].
  unfold has_asset_BNB in Hb. rewrite Hb. exact IH.
Qed.

(** Account data of which /balance makes an exception. *)
Lemma balance_body_throws (data : value) :
  data = Null \/
  (exists b : value,
      field "balances" data = Some b /\ truthy (Some b) = true /\ isArray b = false) \/
  (exists (l pre post : list value),
      field "balances" data = Some (Arr l) /\
      l = (pre ++ Null :: post)%list /\
      Forall (fun b => b <> Null /\ has_asset_BNB b = false) pre) ->
  exists e : exn, balance_body data = inl e.
Proof.
  intros [-> | [[b [E [Ht Hb]]] | [l [pre [post [E [-> Hp]]]]]]].
  - eexists. reflexivity.
  - assert (Hn : data <> Null) by (intros ->; discriminate E).
    unfold balance_body, find_in_balances.
    rewrite (get_field "balances" data Hn), E. cbn [bind]. unfold or_else. rewrite Ht.
    destruct b; try discriminate Hb; eexists; reflexivity.
  - assert (Hn : data <> Null) by (intros ->; discriminate E).
    destruct (find_BNB_null pre post Hp) as [e He].
    exists e. unfold balance_body, find_in_balances.
    rewrite (get_field "balances" data Hn), E. cbn [bind].
    change (or_else (Some (Arr (pre ++ Null :: post)%list)) (Arr []))
      with (Some (Arr (pre ++ Null :: post)%list)).
    cbn iota. rewrite He. reflexivity.
Qed.

(** C10, refuted as stated: account data without a list of balances, or
    with a list that has no BNB entry, can be answered with an error.
    A successful upstream answer whose account data is [null], whose
    [balances] is an object, or whose list of balances holds a [null]
    entry is answered 500 [{error:"proxy_exception", message}]. *)
Lemma balance_without_BNB_can_fail :
  (forall legacy : legacy_parser,
      fst (run (handle (fun s => s) legacy index_js op_balance demo_env demo_req)
               null_account_world)
      = Some {| status := 500;
                body := Obj [("error", Str "proxy_exception");
                             ("message",
                              Str "TypeError: Cannot read properties of null (reading 'balances')")] |}) /\
  (forall legacy : legacy_parser,
      exists msg : string,
        fst (run (handle (fun s => s) legacy index_js op_balance demo_env demo_req)
                 balances_object_world)
        = Some {| status := 500;
                  body := Obj [("error", Str "proxy_exception"); ("message", Str msg)] |}) /\
  (forall legacy : legacy_parser,
      fst (run (handle (fun s => s) legacy index_js op_balance demo_env demo_req)
               null_entry_world)
      = Some {| status := 500;
                body := Obj [("error", Str "proxy_exception");
                             ("message",
                              Str "TypeError: Cannot read properties of null (reading 'asset')")] |}) /\
  (forall legacy : legacy_parser,
      ~ (forall (w : world) (data : value),
            answers w 0 (Response 200 (inr data)) ->
            (forall l : list value, field "balances" data <> Some (Arr l)) \/
            (exists l : list value,
                field "balances" data = Some (Arr l) /\
                Forall (fun b => has_asset_BNB b = false) l) ->
            fst (run (handle (fun s => s) legacy index_js op_balance demo_env demo_req) w)
            = Some {| status := 200;
                      body := Obj [("asset", Str "BNB"); ("free", Number Num.pzero);
                                   ("locked", Number Num.pzero);
                                   ("total", Number Num.pzero)] |})).
Proof.
  assert (E : forall legacy : legacy_parser,
             fst (run (handle (fun s => s) legacy index_js op_balance demo_env demo_req)
                      null_entry_world)
             = Some {| status := 500;
                       body := Obj [("error", Str "proxy_exception");
                                    ("message",
                                     Str "TypeError: Cannot read properties of null (reading 'asset')")] |})
    by (intros legacy; evaluate).
  split; [intros legacy; evaluate |].
  split; [intros legacy; eexists; evaluate |].
  split; [exact E |].
  intros legacy H.
  specialize (H null_entry_world (Obj [("balances", Arr [Null])]) (fun c => eq_refl)).
  rewrite E in H.
  assert (Hc : Some {| status := 500;
                       body := Obj [("error", Str "proxy_exception");
                                    ("message",
                                     Str "TypeError: Cannot read properties of null (reading 'asset')")] |}
               = Some {| status := 200;
                         body := Obj [("asset", Str "BNB"); ("free", Number Num.pzero);
                                      ("locked", Number Num.pzero);
                                      ("total", Number Num.pzero)] |}).
  { apply H. right. exists [Null]. split; [reflexivity |].
    constructor; [reflexivity | constructor]. }
  discriminate Hc.
Qed.

(** C10, amended.  Every reply of /balance with status 200 has the body
    [{asset:"BNB", free, locked, total}] with [total = free + locked].
    When the account data of a successful answer is not [null] and has
    no [balances] (the key is absent, or its value is null or otherwise
    falsy), or has a list of entries other than [null] none of which has
    asset ["BNB"], the reply is 200 with exactly
    [{asset:"BNB", free:0, locked:0, total:0}].  When the account data
    is [null], or its [balances] is a truthy value that is not a list,
    or the list holds a [null] entry that no BNB entry precedes, the
    reply is an error: 500 [{error:"proxy_exception", message}]. *)
Theorem balance_total_and_default
    (toUpperCase : string -> string) (legacy : legacy_parser) (v : variant)
    (env : environment) (req : request) (w : world) :
  (forall resp : http_response,
      fst (run (handle toUpperCase legacy v op_balance env req) w) = Some resp ->
      status resp = 200 ->
      exists free locked : Num.jsnum,
        body resp = Obj [("asset", Str "BNB"); ("free", Number free);
                         ("locked", Number locked);
                         ("total", Number (Num.add free locked))]) /\
  (forall (st : Z) (data : value),
      authorized env req ->
      keys_configured env ->
      answers w 0 (Response st (inr data)) ->
      ok st = true ->
      data <> Null ->
      truthy (field "balances" data) = false \/
      (exists l, field "balances" data = Some (Arr l) /\
                 Forall (fun b => b <> Null /\ has_asset_BNB b = false) l) ->
      fst (run (handle toUpperCase legacy v op_balance env req) w)
      = Some {| status := 200;
                body := Obj [("asset", Str "BNB"); ("free", Number Num.pzero);
                             ("locked", Number Num.pzero);
                             ("total", Number Num.pzero)] |}) /\
  (forall (st : Z) (data : value),
      authorized env req ->
      keys_configured env ->
      answers w 0 (Response st (inr data)) ->
      ok st = true ->
      data = Null \/
      (exists b : value,
          field "balances" data = Some b /\ truthy (Some b) = true /\ isArray b = false) \/
      (exists (l pre post : list value),
          field "balances" data = Some (Arr l) /\
          l = (pre ++ Null :: post)%list /\
          Forall (fun b => b <> Null /\ has_asset_BNB b = false) pre) ->
      exists e : exn,
        fst (run (handle toUpperCase legacy v op_balance env req) w)
        = Some {| status := 500;
                  body := Obj [("error", Str "proxy_exception");
                               ("message", Str (exn_to_string e))] |}).
Proof.
  cbn [handle]. split; [| split].
  - intros resp Hr Hs.
    destruct (fst (checkAuth env req)) eqn:Ec.
    + apply checkAuth_true_iff in Ec.
      destruct (keys_missing env) eqn:Ek.
      * unfold run, balance in Hr.
        rewrite (checkAuth_authorized _ _ Ec), Ek in Hr.
        injection Hr as <-. discriminate Hs.
      * apply keys_not_missing_configured in Ek.
        rewrite (balance_run env req Ec Ek w) in Hr. cbn zeta in Hr. cbn [fst] in Hr.
        destruct (upstream w 0 _) as [e | st [e | data]]; cbn [relay] in Hr;
          try (injection Hr as <-; discriminate Hs).
        destruct (ok st) eqn:Eo.
        -- destruct (balance_body data) as [e | b] eqn:Eb;
             [injection Hr as <-; discriminate Hs |].
           injection Hr as <-. cbn [body]. exact (balance_body_total _ _ Eb).
        -- injection Hr as <-. cbn in Hs. apply ok_200 in Eo. contradiction.
    + apply checkAuth_false in Ec. unfold run, balance in Hr. rewrite Ec in Hr.
      injection Hr as <-. discriminate Hs.
  - intros st data Ha Hk Hw Ho Hn Hb.
    rewrite (balance_run env req Ha Hk w). cbn zeta. rewrite Hw. cbn [fst relay].
    rewrite Ho, (balance_body_without_BNB data Hn Hb). reflexivity.
  - intros st data Ha Hk Hw Ho Hb.
    destruct (balance_body_throws data Hb) as [e He]. exists e.
    rewrite (balance_run env req Ha Hk w). cbn zeta. rewrite Hw. cbn [fst relay].
    rewrite Ho, He. reflexivity.
Qed.

Lemma balance_total_and_default_witness :
  authorized demo_env demo_req /\
  keys_configured demo_env /\
  answers account_world 0 (Response 200 (inr (Obj account_without_BNB))) /\
  fst (run (handle (fun s => s) no_legacy index_js op_balance demo_env demo_req) account_world)
  = Some {| status := 200;
            body := Obj [("asset", Str "BNB"); ("free", Number Num.pzero);
                         ("locked", Number Num.pzero); ("total", Number Num.pzero)] |}.
Proof.
  assert (Ha : authorized demo_env demo_req) by show_authorized.
  assert (Hk : keys_configured demo_env) by show_keys_configured.
  assert (Hw : answers account_world 0 (Response 200 (inr (Obj account_without_BNB))))
    by (intros c; reflexivity).
  assert (Hn : Obj account_without_BNB <> Null) by discriminate.
  split; [exact Ha | split; [exact Hk | split; [exact Hw |]]].
  refine (proj1 (proj2 (balance_total_and_default (fun s => s) no_legacy index_js demo_env
                          demo_req account_world))
            200 (Obj account_without_BNB) Ha Hk Hw eq_refl Hn _).
  right. eexists. split; [reflexivity |].
  repeat constructor; discriminate.
Defined.

(* ===================================================================== *)
(** * Further properties of the code

    The middleware and the index, what every reply and every upstream
    call looks like, the encoding of the symbol, the day ranges beyond
    the well-formed dates and offsets, and the keep-alive ping. *)
(* ===================================================================== *)

(** ** The handlers, by cases *)

Lemma authorized_dec (env : environment) (req : request) :
  authorized env req \/ ~ authorized env req.
Proof.
  destruct (fst (checkAuth env req)) eqn:E.
  - left. apply checkAuth_true_iff, E.
  - right. intros H. apply checkAuth_true_iff in H. congruence.
Qed.

Lemma checkAuth_not_authorized (env : environment) (req : request) :
  ~ authorized env req -> checkAuth env req = (false, unauthorized_response).
Proof.
  intros H. apply checkAuth_false.
  destruct (fst (checkAuth env req)) eqn:E; [| reflexivity].
  exfalso. apply H, checkAuth_true_iff, E.
Qed.

Lemma handle_not_authorized
    (toUpperCase : string -> string) (legacy : legacy_parser) (v : variant) (op : operation)
    (env : environment) (req : request) :
  ~ authorized env req ->
  handle toUpperCase legacy v op env req = Ret unauthorized_response.
Proof.
  intros H. apply checkAuth_not_authorized in H.
  destruct op; cbn;
    unfold price, futures_price, price_handler, balance, futures_balance, hedge_volume;
    rewrite H; reflexivity.
Qed.

Lemma keys_dec (env : environment) :
  keys_configured env \/ keys_missing env = true.
Proof.
  destruct (keys_missing env) eqn:E; [right; reflexivity |].
  left. apply keys_not_missing_configured, E.
Qed.

Lemma signed_without_keys
    (legacy : legacy_parser) (v : variant) (env : environment) (req : request) :
  authorized env req ->
  keys_missing env = true ->
  balance env req = Ret missing_binance_keys /\
  futures_balance env req = Ret missing_binance_keys /\
  hedge_volume legacy v env req = Ret missing_binance_keys.
Proof.
  intros Ha Hk. unfold balance, futures_balance, hedge_volume.
  rewrite (checkAuth_authorized _ _ Ha), Hk. repeat split.
Qed.

Lemma date_cases (req : request) :
  (exists date, query_date req = Some date /\ date <> "") \/
  present (query_date req) = false.
Proof.
  destruct (query_date req) as [date |]; [| right; reflexivity].
  destruct (String.eqb_spec date "") as [-> | H]; [right; reflexivity |].
  left. exists date. auto.
Qed.

Lemma hedge_volume_without_date
    (legacy : legacy_parser) (v : variant) (env : environment) (req : request) :
  authorized env req ->
  keys_configured env ->
  present (query_date req) = false ->
  hedge_volume legacy v env req = Ret (respond 400 (Obj [("error", Str "missing_date")])).
Proof.
  intros Ha Hk Hd. unfold hedge_volume.
  rewrite (checkAuth_authorized _ _ Ha), (keys_configured_not_missing _ Hk), Hd.
  reflexivity.
Qed.

Lemma ok_not_204 (st : Z) : ok st = false -> st <> 204.
Proof. intros H E. subst st. discriminate H. Qed.

Lemma error_reply_status (r : http_response) :
  error_reply r -> status r <> 200 /\ status r <> 204.
Proof.
  intros [| | | e | st data H]; cbn [status]; try (split; discriminate).
  split; [apply ok_200, H | apply ok_not_204, H].
Qed.

Lemma relay_kind (shape : value -> result value) (r : fetch_result) :
  (forall data b, shape data = inr b -> field "error" b = None) ->
  exists resp, relay shape r = Some resp /\ (success_reply resp \/ error_reply resp).
Proof.
  intros Hs. destruct r as [e | st [e | data]]; cbn [relay].
  - eexists. split; [reflexivity |]. right. constructor.
  - eexists. split; [reflexivity |]. right. constructor.
  - destruct (ok st) eqn:Eo.
    + destruct (shape data) as [e | b] eqn:Eb.
      * eexists. split; [reflexivity |]. right. constructor.
      * eexists. split; [reflexivity |]. left. split; [reflexivity |].
        exact (Hs data b Eb).
    + eexists. split; [reflexivity |]. right. constructor. exact Eo.
Qed.

Lemma price_body_no_error (type symbol : string) (data b : value) :
  price_body type symbol data = inr b -> field "error" b = None.
Proof.
  unfold price_body.
  destruct (get (Some data) "price") as [e | p]; cbn [bind]; [discriminate |].
  destruct (to_number p) as [e | n]; cbn [bind]; [discriminate |].
  intros H. injection H as <-. reflexivity.
Qed.

Lemma balance_body_no_error (data b : value) :
  balance_body data = inr b -> field "error" b = None.
Proof.
  intros H. apply balance_body_total in H. destruct H as (free & locked & ->). reflexivity.
Qed.

(** Every operation replies, with a success or with one of the errors. *)
Lemma handle_reply_kind
    (toUpperCase : string -> string) (legacy : legacy_parser) (v : variant) (op : operation)
    (env : environment) (req : request) (w : world) :
  exists r, fst (run (handle toUpperCase legacy v op env req) w) = Some r /\
            (success_reply r \/ error_reply r).
Proof.
  destruct (authorized_dec env req) as [Ha | Ha].
  2:{ rewrite (handle_not_authorized _ _ _ _ _ _ Ha).
      eexists. split; [reflexivity |]. right. constructor. }
  destruct op; cbn [handle]; unfold price, futures_price.
  - rewrite (price_handler_run env req Ha). cbn zeta. cbn [fst].
    apply relay_kind, price_body_no_error.
  - rewrite (price_handler_run env req Ha). cbn zeta. cbn [fst].
    apply relay_kind, price_body_no_error.
  - destruct (keys_dec env) as [Hk | Hk].
    + rewrite (balance_run env req Ha Hk). cbn zeta. cbn [fst].
      apply relay_kind, balance_body_no_error.
    + rewrite (proj1 (signed_without_keys legacy v env req Ha Hk)).
      eexists. split; [reflexivity |]. right. constructor.
  - destruct (keys_dec env) as [Hk | Hk].
    + rewrite (futures_balance_run env req Ha Hk). cbn zeta. cbn [fst].
      apply relay_kind. intros data b H. injection H as <-. reflexivity.
    + rewrite (proj1 (proj2 (signed_without_keys legacy v env req Ha Hk))).
      eexists. split; [reflexivity |]. right. constructor.
  - destruct (keys_dec env) as [Hk | Hk].
    + destruct (date_cases req) as [(date & Hd & Hne) | Hd].
      * rewrite (hedge_volume_run env req Ha Hk legacy v date w Hd Hne). cbn zeta.
        destruct (volume_of (upstream w 0 _)) as [e | sv].
        { eexists. split; [reflexivity |]. right. constructor. }
        destruct (volume_of (upstream w 1 _)) as [e | fv].
        { eexists. split; [reflexivity |]. right. constructor. }
        eexists. split; [reflexivity |]. left. split; reflexivity.
      * rewrite (hedge_volume_without_date legacy v env req Ha Hk Hd).
        eexists. split; [reflexivity |]. right. constructor.
    + rewrite (proj2 (proj2 (signed_without_keys legacy v env req Ha Hk))).
      eexists. split; [reflexivity |]. right. constructor.
Qed.

(** ** The middleware and the index *)

Lemma run_from_and_then {A B : Type} (p : prog A) (f : A -> B) (w : world) (n k : nat) :
  run_from (and_then p f) w n k
  = (f (fst (run_from p w n k)), snd (run_from p w n k)).
Proof.
  revert n k. induction p as [a | g IH | url hs g IH]; intros n k.
  - reflexivity.
  - cbn [and_then run_from]. apply IH.
  - cbn [and_then run_from]. rewrite IH.
    destruct (run_from (g _) w n (S k)). reflexivity.
Qed.

Lemma run_and_then {A B : Type} (p : prog A) (f : A -> B) (w : world) :
  run (and_then p f) w = (f (fst (run p w)), snd (run p w)).
Proof. apply run_from_and_then. Qed.

Lemma cors_sets_headers (method : string) :
  cors method [] = (cors_headers, if String.eqb method "OPTIONS" then Some 204 else None).
Proof. reflexivity. Qed.

Lemma app_cases
    (toUpperCase : string -> string) (legacy : legacy_parser) (v : variant)
    (env : environment) (i : incoming) :
  app toUpperCase legacy v env i
  = if String.eqb (method i) "OPTIONS" then Ret (Replied cors_headers 204 None)
    else
      match matched i with
      | None => Ret (NotRouted cors_headers)
      | Some route_index => Ret (Replied cors_headers 200 (Some index_body))
      | Some (route_operation op) =>
          and_then (handle toUpperCase legacy v op env (parameters i))
            (fun res =>
               match res with
               | Some r => sent r
               | None => Unanswered cors_headers
               end)
      end.
Proof.
  unfold app. rewrite cors_sets_headers.
  destruct (String.eqb (method i) "OPTIONS"); reflexivity.
Qed.

(** The application answers an operation with the reply of its handler,
    after the calls of its handler. *)
Lemma app_operation
    (toUpperCase : string -> string) (legacy : legacy_parser) (v : variant)
    (env : environment) (i : incoming)
    (op : operation) (w : world) :
  String.eqb (method i) "OPTIONS" = false ->
  matched i = Some (route_operation op) ->
  exists r,
    fst (run (handle toUpperCase legacy v op env (parameters i)) w) = Some r /\
    (success_reply r \/ error_reply r) /\
    run (app toUpperCase legacy v env i) w
    = (sent r, snd (run (handle toUpperCase legacy v op env (parameters i)) w)).
Proof.
  intros Hm Hr. rewrite app_cases, Hm, Hr, run_and_then.
  destruct (handle_reply_kind toUpperCase legacy v op env (parameters i) w) as (r & E & K).
  exists r. rewrite E. auto.
Qed.

(** X1.  Whatever the method, the route, the credentials and the
    upstream, what becomes of a request carries the three headers of the
    CORS middleware (allowed origin [*], methods [GET,OPTIONS], headers
    [Content-Type,X-Proxy-Key]) and no other header set by the proxy:
    the 401, 400 and 500 replies as much as the successes.  No selected
    handler returns without a response. *)
Theorem every_outcome_carries_the_cors_headers
    (toUpperCase : string -> string) (legacy : legacy_parser) (v : variant)
    (env : environment) (i : incoming)
    (w : world) :
  headers_of (fst (run (app toUpperCase legacy v env i) w)) = cors_headers /\
  (forall hs : headers, fst (run (app toUpperCase legacy v env i) w) <> Unanswered hs).
Proof.
  destruct (String.eqb (method i) "OPTIONS") eqn:Hm.
  { rewrite app_cases, Hm. split; [reflexivity | discriminate]. }
  destruct (matched i) as [[| op] |] eqn:Hr.
  - rewrite app_cases, Hm, Hr. split; [reflexivity | discriminate].
  - destruct (app_operation toUpperCase legacy v env i op w Hm Hr) as (r & _ & _ & ->).
    split; [reflexivity | discriminate].
  - rewrite app_cases, Hm, Hr. split; [reflexivity | discriminate].
Qed.

(** X2.  A request with method [OPTIONS] is answered 204 without body by
    the middleware, whatever its path and whether or not it carries a
    key: no handler runs, the clock is not read, nothing goes upstream.
    Conversely a reply with status 204 is the answer to an [OPTIONS]
    request: no handler sends 204, not even relaying the upstream. *)
Theorem preflight_is_answered_before_the_key_is_checked
    (toUpperCase : string -> string) (legacy : legacy_parser) (v : variant)
    (env : environment) (i : incoming) :
  (method i = "OPTIONS" ->
   app toUpperCase legacy v env i = Ret (Replied cors_headers 204 None)) /\
  (forall (w : world) (hs : headers) (b : option value),
      fst (run (app toUpperCase legacy v env i) w) = Replied hs 204 b ->
      method i = "OPTIONS").
Proof.
  split.
  - intros H. rewrite app_cases, H. reflexivity.
  - intros w hs b H.
    destruct (String.eqb_spec (method i) "OPTIONS") as [E | E]; [exact E |].
    apply String.eqb_neq in E. exfalso.
    destruct (matched i) as [[| op] |] eqn:Hr.
    + rewrite app_cases, E, Hr in H. discriminate H.
    + destruct (app_operation toUpperCase legacy v env i op w E Hr) as (r & _ & K & R).
      rewrite R in H. cbn [fst] in H. unfold sent in H. injection H as _ Hs _.
      destruct K as [[K _] | K]; [congruence |].
      apply error_reply_status in K. tauto.
    + rewrite app_cases, E, Hr in H. discriminate H.
Qed.

Lemma preflight_is_answered_before_the_key_is_checked_witness :
  method preflight_req = "OPTIONS" /\
  app (fun s => s) no_legacy part_000 demo_env preflight_req = Ret (Replied cors_headers 204 None).
Proof.
  split; [reflexivity |].
  exact (proj1 (preflight_is_answered_before_the_key_is_checked (fun s => s) no_legacy part_000
                  demo_env preflight_req) eq_refl).
Defined.

(** X3.  The index route checks no key: a request routed to ["/"] (and
    not a preflight) is answered 200 with [{ok:true, routes}] whatever
    the environment and the credentials, by a program that makes no
    call.  The routes it lists are the paths under which the five
    operations are registered, that of /hedge-volume followed by its
    query. *)
Theorem index_is_served_without_a_key
    (toUpperCase : string -> string) (legacy : legacy_parser) (v : variant)
    (env : environment) (i : incoming) :
  method i <> "OPTIONS" ->
  matched i = Some route_index ->
  app toUpperCase legacy v env i = Ret (Replied cors_headers 200 (Some index_body)) /\
  field "ok" index_body = Some (Bool true) /\
  field "routes" index_body
  = Some (Arr [Str (path (route_operation op_price));
               Str (path (route_operation op_futures_price));
               Str (path (route_operation op_balance));
               Str (path (route_operation op_futures_balance));
               Str (path (route_operation op_hedge_volume) ++ "?date=YYYY-MM-DD")]).
Proof.
  intros Hm Hr. apply String.eqb_neq in Hm.
  rewrite app_cases, Hm, Hr. repeat split.
Qed.

Lemma index_is_served_without_a_key_witness :
  method index_req <> "OPTIONS" /\
  ~ authorized demo_env (parameters index_req) /\
  app (fun s => s) no_legacy index_js demo_env index_req
  = Ret (Replied cors_headers 200 (Some index_body)).
Proof.
  assert (Hm : method index_req <> "OPTIONS") by discriminate.
  split; [exact Hm | split].
  - intros [_ H]. discriminate H.
  - exact (proj1 (index_is_served_without_a_key (fun s => s) no_legacy index_js demo_env index_req
                    Hm eq_refl)).
Defined.

(** X4.  Without the key the application fails closed.  When no proxy
    credential is configured, or the supplied token is not the
    configured one, the application is a program that returns at once,
    reading no clock and calling nothing upstream, and what it returns
    is one of four things: the 204 of a preflight, the index, 401
    [{error:"Unauthorized"}], or no route. *)
Theorem without_the_key_nothing_goes_upstream
    (toUpperCase : string -> string) (legacy : legacy_parser) (v : variant)
    (env : environment) (i : incoming) :
  PROXY_API_KEY env = "" \/ supplied_token (parameters i) <> Some (PROXY_API_KEY env) ->
  exists o : outcome,
    app toUpperCase legacy v env i = Ret o /\
    (o = Replied cors_headers 204 None \/
     o = Replied cors_headers 200 (Some index_body) \/
     o = Replied cors_headers 401 (Some (Obj [("error", Str "Unauthorized")])) \/
     o = NotRouted cors_headers).
Proof.
  intros H.
  assert (Ha : ~ authorized env (parameters i)).
  { intros [Hk Ht]. destruct H as [H | H]; contradiction. }
  rewrite app_cases.
  destruct (String.eqb (method i) "OPTIONS"); [eexists; split; [reflexivity | auto] |].
  destruct (matched i) as [[| op] |].
  - eexists. split; [reflexivity | auto].
  - rewrite (handle_not_authorized toUpperCase legacy v op env (parameters i) Ha).
    eexists. split; [reflexivity |]. right. right. left. reflexivity.
  - eexists. split; [reflexivity | auto].
Qed.

Lemma without_the_key_nothing_goes_upstream_witness :
  supplied_token (parameters guessing_req) <> Some (PROXY_API_KEY demo_env) /\
  exists o : outcome,
    app (fun s => s) no_legacy part_000 demo_env guessing_req = Ret o /\
    (o = Replied cors_headers 204 None \/
     o = Replied cors_headers 200 (Some index_body) \/
     o = Replied cors_headers 401 (Some (Obj [("error", Str "Unauthorized")])) \/
     o = NotRouted cors_headers).
Proof.
  assert (H : supplied_token (parameters guessing_req) <> Some (PROXY_API_KEY demo_env))
    by discriminate.
  split; [exact H |].
  exact (without_the_key_nothing_goes_upstream (fun s => s) no_legacy part_000 demo_env guessing_req
           (or_intror H)).
Defined.

(** X5.  The middleware changes nothing but the headers.  For a
    request that is not a preflight and is routed to an operation, the
    application makes the upstream calls of the handler, in the same
    order, and sends the reply of the handler: its status and its body,
    under the three headers. *)
Theorem middleware_changes_nothing_but_the_headers
    (toUpperCase : string -> string) (legacy : legacy_parser) (v : variant)
    (env : environment) (i : incoming)
    (op : operation) (w : world) :
  method i <> "OPTIONS" ->
  matched i = Some (route_operation op) ->
  exists r : http_response,
    run (handle toUpperCase legacy v op env (parameters i)) w
    = (Some r, snd (run (app toUpperCase legacy v env i) w)) /\
    fst (run (app toUpperCase legacy v env i) w) = Replied cors_headers (status r) (Some (body r)).
Proof.
  intros Hm Hr. apply String.eqb_neq in Hm.
  destruct (app_operation toUpperCase legacy v env i op w Hm Hr) as (r & E & _ & R).
  exists r. rewrite R. cbn [fst snd]. split; [| reflexivity].
  rewrite <- E. destruct (run (handle toUpperCase legacy v op env (parameters i)) w). reflexivity.
Qed.

Lemma middleware_changes_nothing_but_the_headers_witness :
  method guessing_req <> "OPTIONS" /\
  exists r : http_response,
    run (handle (fun s => s) no_legacy index_js op_balance demo_env (parameters guessing_req))
        rejecting_world
    = (Some r,
       snd (run (app (fun s => s) no_legacy index_js demo_env guessing_req)
                rejecting_world)) /\
    fst (run (app (fun s => s) no_legacy index_js demo_env guessing_req) rejecting_world)
    = Replied cors_headers (status r) (Some (body r)).
Proof.
  assert (Hm : method guessing_req <> "OPTIONS") by discriminate.
  split; [exact Hm |].
  exact (middleware_changes_nothing_but_the_headers (fun s => s) no_legacy index_js demo_env
           guessing_req op_balance rejecting_world Hm eq_refl).
Defined.

(** ** Replies and calls *)

(** X6.  Every operation answers every request, whatever the upstream
    does: no exception escapes a handler and no path returns without a
    reply.  The reply is either a success, with status 200 and no
    [error] in its body, or one of five errors, each with its status:
    401 [Unauthorized], 400 [missing_binance_keys], 400 [missing_date],
    500 [proxy_exception] with the text of the exception, or
    [binance_error] with the status of the upstream, which is then not
    a success status.  An error never has status 200, so the status
    alone tells the two apart. *)
Theorem every_reply_is_a_success_or_a_known_error
    (toUpperCase : string -> string) (legacy : legacy_parser) (v : variant) (op : operation)
    (env : environment) (req : request) (w : world) :
  (exists r, fst (run (handle toUpperCase legacy v op env req) w) = Some r /\
             (success_reply r \/ error_reply r)) /\
  (forall r, error_reply r -> status r <> 200).
Proof.
  split; [apply handle_reply_kind |].
  intros r H. apply error_reply_status, H.
Qed.

Lemma goes_to_spot (rest : string) (hs : list (string * string)) :
  goes_to spot_host {| call_url := "https://api.binance.com/" ++ rest; call_headers := hs |}.
Proof. exists rest. reflexivity. Qed.

Lemma goes_to_futures (rest : string) (hs : list (string * string)) :
  goes_to futures_host {| call_url := "https://fapi.binance.com/" ++ rest; call_headers := hs |}.
Proof. exists rest. reflexivity. Qed.

(** X7.  A request makes at most two upstream calls, and at most one
    unless it is for /hedge-volume.  Every call goes to the exchange:
    the URL starts with [https://api.binance.com/] for /price and
    /balance, with [https://fapi.binance.com/] for /futures-price and
    /futures-balance, with one of the two for /hedge-volume; nothing in
    a request can direct a call elsewhere.  The calls of the two price
    operations carry no header; those of the signed operations carry the
    API key in [X-MBX-APIKEY] and nothing else. *)
Theorem calls_go_to_the_exchange_only
    (toUpperCase : string -> string) (legacy : legacy_parser) (v : variant) (op : operation)
    (env : environment) (req : request) (w : world) :
  (List.length (snd (run (handle toUpperCase legacy v op env req) w)) <= 2)%nat /\
  (op <> op_hedge_volume ->
   (List.length (snd (run (handle toUpperCase legacy v op env req) w)) <= 1)%nat) /\
  Forall (exchange_call env op) (snd (run (handle toUpperCase legacy v op env req) w)).
Proof.
  destruct (authorized_dec env req) as [Ha | Ha].
  2:{ rewrite (handle_not_authorized _ _ _ _ _ _ Ha). cbn. repeat split; auto. }
  destruct op; cbn [handle]; unfold price, futures_price.
  - rewrite (price_handler_run env req Ha). cbn zeta. cbn [snd List.length].
    repeat split; auto. constructor; [| constructor].
    split; [| reflexivity].
    apply (goes_to_spot ("api/v3/ticker/price?symbol=" ++ _)).
  - rewrite (price_handler_run env req Ha). cbn zeta. cbn [snd List.length].
    repeat split; auto. constructor; [| constructor].
    split; [| reflexivity].
    apply (goes_to_futures ("fapi/v1/ticker/price?symbol=" ++ _)).
  - destruct (keys_dec env) as [Hk | Hk].
    + rewrite (balance_run env req Ha Hk). cbn zeta. cbn [snd List.length].
      repeat split; auto. constructor; [| constructor].
      split; [| reflexivity].
      apply (goes_to_spot ("api/v3/account?" ++ _)).
    + rewrite (proj1 (signed_without_keys legacy v env req Ha Hk)). cbn. repeat split; auto.
  - destruct (keys_dec env) as [Hk | Hk].
    + rewrite (futures_balance_run env req Ha Hk). cbn zeta. cbn [snd List.length].
      repeat split; auto. constructor; [| constructor].
      split; [| reflexivity].
      apply (goes_to_futures ("fapi/v2/balance?" ++ _)).
    + rewrite (proj1 (proj2 (signed_without_keys legacy v env req Ha Hk))). cbn.
      repeat split; auto.
  - destruct (keys_dec env) as [Hk | Hk].
    + destruct (date_cases req) as [(date & Hd & Hne) | Hd].
      * rewrite (hedge_volume_run env req Ha Hk legacy v date w Hd Hne). cbn zeta.
        assert (H1 : exchange_call env op_hedge_volume
                       (signed_call spot_trades_url
                          (trade_query (dayRange legacy v env date) (clock w 0)) env)).
        { split; [left | reflexivity]. apply (goes_to_spot ("api/v3/myTrades?" ++ _)). }
        assert (H2 : exchange_call env op_hedge_volume
                       (signed_call futures_trades_url
                          (trade_query (dayRange legacy v env date) (clock w 1)) env)).
        { split; [right | reflexivity].
          apply (goes_to_futures ("fapi/v1/userTrades?" ++ _)). }
        destruct (volume_of (upstream w 0 _)) as [e | sv].
        { cbn [snd List.length]. split; [lia |]. split; [congruence |].
          constructor; [exact H1 | constructor]. }
        destruct (volume_of (upstream w 1 _)) as [e | fv];
          cbn [snd List.length]; (split; [lia |]); (split; [congruence |]);
          (constructor; [exact H1 | constructor; [exact H2 | constructor]]).
      * rewrite (hedge_volume_without_date legacy v env req Ha Hk Hd). cbn.
        split; [lia |]. split; [congruence | constructor].
    + rewrite (proj2 (proj2 (signed_without_keys legacy v env req Ha Hk))). cbn.
      split; [lia |]. split; [congruence | constructor].
Qed.





(** ** The encoded symbol *)

Lemma upper_hex_digit_safe (n : Z) :
  0 <= n < 16 -> is_unreserved (upper_hex_digit n) = true.
Proof.
  apply (forall_below (fun n => is_unreserved (upper_hex_digit n)) 16).
  vm_compute. reflexivity.
Qed.

Lemma byte_of_ascii (c : ascii) : 0 <= Z.of_nat (nat_of_ascii c) < 256.
Proof. pose proof (nat_ascii_bounded c). lia. Qed.

Lemma encodeURIComponent_step (c : ascii) (r : string) :
  encodeURIComponent (String c r)
  = if is_unreserved c then String c (encodeURIComponent r)
    else
      let n := Z.of_nat (nat_of_ascii c) in
      String "%" (String (upper_hex_digit (n / 16))
        (String (upper_hex_digit (n mod 16)) (encodeURIComponent r))).
Proof. reflexivity. Qed.

Lemma encodeURIComponent_safe (s : string) :
  Str.all url_safe (encodeURIComponent s) = true.
Proof.
  induction s as [| c r IH]; [reflexivity |].
  rewrite encodeURIComponent_step.
  destruct (is_unreserved c) eqn:E.
  - cbn [Str.all]. rewrite IH. unfold url_safe. rewrite E. reflexivity.
  - cbn zeta. cbn [Str.all]. rewrite IH. unfold url_safe at 1 2 3.
    pose proof (byte_of_ascii c) as Hb.
    rewrite !upper_hex_digit_safe.
    + reflexivity.
    + apply Z.mod_pos_bound. lia.
    + split; [apply Z.div_pos; lia | apply Z.div_lt_upper_bound; lia].
Qed.

Lemma encodeURIComponent_unreserved (s : string) :
  Str.all is_unreserved s = true -> encodeURIComponent s = s.
Proof.
  induction s as [| c r IH]; [reflexivity |].
  cbn [Str.all]. intros H. apply andb_prop in H. destruct H as [Hc Hr].
  rewrite encodeURIComponent_step, Hc, (IH Hr). reflexivity.
Qed.

Lemma url_safe_not_delimiter (c : ascii) :
  url_safe c = true -> is_delimiter c = false.
Proof.
  destruct c as [[] [] [] [] [] [] [] []]; vm_compute; intros H;
    first [reflexivity | discriminate H].
Qed.

Lemma url_safe_no_delimiter (s : string) :
  Str.all url_safe s = true -> Str.all (fun x => negb (is_delimiter x)) s = true.
Proof.
  induction s as [| x s IH]; [reflexivity |]. cbn [Str.all]. intros H.
  apply andb_prop in H. destruct H as [Hx Hs].
  rewrite (url_safe_not_delimiter x Hx), (IH Hs). reflexivity.
Qed.

Lemma percent_decode_byte (c : ascii) (r : string) :
  percent_decode
    (if is_unreserved c then String c r
     else String "%" (String (upper_hex_digit (Z.of_nat (nat_of_ascii c) / 16))
            (String (upper_hex_digit (Z.of_nat (nat_of_ascii c) mod 16)) r)))
  = String c (percent_decode r).
Proof.
  destruct c as [[] [] [] [] [] [] [] []]; reflexivity.
Qed.

Lemma percent_decode_encodeURIComponent (s : string) :
  percent_decode (encodeURIComponent s) = s.
Proof.
  induction s as [| c r IH]; [reflexivity |].
  rewrite encodeURIComponent_step. cbn zeta.
  pose proof (percent_decode_byte c (encodeURIComponent r)) as H.
  destruct (is_unreserved c); rewrite H, IH; reflexivity.
Qed.

(** X10.  The symbol of a request cannot alter the upstream URL of a
    price operation.  The URL of the call is the endpoint, ending in
    [?symbol=], followed by the encoded symbol, which consists of
    letters, digits, the marks [-_.!~*'()] and percent escapes: no [&],
    [=], [?], [#], [/] or other delimiter, so that it can neither add a
    parameter nor change the path.  A symbol made of letters, digits and
    those marks is sent as it is. *)
Theorem symbol_cannot_alter_the_upstream_url
    (toUpperCase : string -> string) (legacy : legacy_parser) (v : variant) (op : operation)
    (env : environment) (req : request) (w : world) (c : call) :
  op = op_price \/ op = op_futures_price ->
  In c (snd (run (handle toUpperCase legacy v op env req) w)) ->
  exists t : string,
    call_url c = price_url op ++ t /\
    Str.all url_safe t = true /\
    Str.all (fun x => negb (is_delimiter x)) t = true /\
    (Str.all is_unreserved (requested_symbol toUpperCase req) = true ->
     t = requested_symbol toUpperCase req).
Proof.
  intros Hop Hin.
  destruct (authorized_dec env req) as [Ha | Ha].
  2:{ rewrite (handle_not_authorized _ _ _ _ _ _ Ha) in Hin. destruct Hin. }
  exists (encodeURIComponent (requested_symbol toUpperCase req)).
  destruct Hop as [-> | ->]; cbn [handle] in Hin; unfold price, futures_price in Hin;
    rewrite (price_handler_run env req Ha) in Hin; cbn zeta in Hin; cbn [snd] in Hin;
    destruct Hin as [<- | []]; cbn [call_url];
    (split; [reflexivity |]); (split; [apply encodeURIComponent_safe |]);
    (split; [apply url_safe_no_delimiter, encodeURIComponent_safe
            | apply encodeURIComponent_unreserved]).
Qed.

Lemma symbol_cannot_alter_the_upstream_url_witness :
  In {| call_url := spot_price_url ++ encodeURIComponent (requested_symbol (fun s => s) demo_req);
        call_headers := [] |}
     (snd (run (handle (fun s => s) no_legacy index_js op_price demo_env demo_req) ticker_world)) /\
  exists t : string,
    spot_price_url ++ encodeURIComponent (requested_symbol (fun s => s) demo_req)
    = price_url op_price ++ t /\
    Str.all url_safe t = true /\
    Str.all (fun x => negb (is_delimiter x)) t = true /\
    (Str.all is_unreserved (requested_symbol (fun s => s) demo_req) = true ->
     t = requested_symbol (fun s => s) demo_req).
Proof.
  assert (H : In {| call_url := spot_price_url
                                ++ encodeURIComponent (requested_symbol (fun s => s) demo_req);
                    call_headers := [] |}
                 (snd (run (handle (fun s => s) no_legacy index_js op_price demo_env demo_req)
                           ticker_world)))
    by (left; reflexivity).
  split; [exact H |].
  exact (symbol_cannot_alter_the_upstream_url (fun s => s) no_legacy index_js op_price demo_env
           demo_req ticker_world _ (or_introl eq_refl) H).
Defined.

(** X11.  The encoding of a component loses nothing: reading the percent
    escapes back gives the string that was encoded, so two different
    symbols are never sent upstream as the same one. *)
Theorem encodeURIComponent_can_be_read_back (s : string) :
  percent_decode (encodeURIComponent s) = s /\
  (forall t : string, encodeURIComponent s = encodeURIComponent t -> s = t).
Proof.
  split; [apply percent_decode_encodeURIComponent |].
  intros t H.
  rewrite <- (percent_decode_encodeURIComponent s), H.
  apply percent_decode_encodeURIComponent.
Qed.

Lemma encodeURIComponent_can_be_read_back_witness :
  encodeURIComponent "bnb/usdt&x=1" = "bnb%2Fusdt%26x%3D1" /\
  percent_decode (encodeURIComponent "bnb/usdt&x=1") = "bnb/usdt&x=1".
Proof.
  split; [reflexivity |].
  exact (proj1 (encodeURIComponent_can_be_read_back "bnb/usdt&x=1")).
Defined.

(** ** The balance *)





(** ** The day range, beyond the well-formed dates and offsets *)

Lemma iso_date_readable (y m d : Z) (rest : string) :
  readable_date y m d ->
  iso_date y m d ++ rest
  = four_digits y ++ String "-" (two_digits m ++ String "-" (two_digits d ++ rest)).
Proof.
  intros (Hy & Hm & Hd).
  unfold iso_date. rewrite pad_four, !pad_two by lia.
  rewrite !append_assoc. reflexivity.
Qed.

Lemma parse_date_readable (y m d : Z) (rest : string) :
  readable_date y m d ->
  DateTime.parse_date (iso_date y m d ++ rest) = Some (y, m, d, rest).
Proof.
  intros H. rewrite iso_date_readable by exact H.
  destruct H as (Hy & Hm & Hd).
  unfold DateTime.parse_date.
  rewrite parse_year_four by exact Hy.
  rewrite parse_dash_field_two by lia.
  rewrite parse_dash_field_two by lia.
  reflexivity.
Qed.

Lemma zone_of_shape (v : variant) (env : environment) :
  exists r, zone_of v env = String "Z" r \/ zone_of v env = String "+" r \/
            zone_of v env = String "-" r.
Proof.
  destruct v; [exists ""; left; reflexivity |].
  unfold zone_of, offsetStr. destruct (Num.ge _ _); eexists; [right; left | right; right];
    reflexivity.
Qed.

Lemma parse_time_bounds (z : string) :
  (exists r, z = String "Z" r \/ z = String "+" r \/ z = String "-" r) ->
  DateTime.parse_time ("00:00:00" ++ z) = DateTime.Value (0, z) /\
  DateTime.parse_time ("23:59:59" ++ z) = DateTime.Value (86399000, z) /\
  DateTime.digit_next ("00:00:00" ++ z) = true /\
  DateTime.digit_next ("23:59:59" ++ z) = true.
Proof.
  intros [r [-> | [-> | ->]]]; repeat split; reflexivity.
Qed.

Lemma fixed_digits_all (n : nat) (s : string) (acc v : Z) :
  DateTime.fixed_digits n s acc = Some (v, "") -> Str.all Str.is_digit s = true.
Proof.
  revert s acc. induction n as [| n IH]; intros s acc H.
  - cbn in H. injection H as _ ->. reflexivity.
  - cbn [DateTime.fixed_digits] in H. destruct s as [| c r]; [discriminate |].
    destruct (Str.is_digit c) eqn:E; [| discriminate].
    cbn [Str.all]. rewrite E. exact (IH _ _ H).
Qed.

(** A designator with a character that is not a digit after its first
    is read here: it is an offset, or the string is not a date. *)
Lemma parse_zone_decided (c : ascii) (r : string) :
  Str.all Str.is_digit r = false ->
  DateTime.parse_zone (String c r) <> DateTime.Open.
Proof.
  intros Hr. unfold DateTime.parse_zone.
  assert (H4 : match DateTime.fixed_digits 4 r 0 with
               | Some (_, EmptyString) => DateTime.Open
               | _ => DateTime.Invalid
               end <> @DateTime.Open Z).
  { destruct (DateTime.fixed_digits 4 r 0) as [[v [| c' r']] |] eqn:E; try discriminate.
    apply fixed_digits_all in E. congruence. }
  destruct (Ascii.eqb c "Z"); [destruct r; discriminate |].
  destruct (Ascii.eqb c "z"); [destruct r; [discriminate Hr | discriminate] |].
  destruct (Ascii.eqb c "+" || Ascii.eqb c "-"); [| discriminate].
  destruct (DateTime.fixed_digits 2 r 0) as [[h [| c1 r1]] |]; try exact H4.
  destruct c1 as [[] [] [] [] [] [] [] []]; try exact H4.
  destruct (DateTime.fixed_digits 2 r1 0) as [[mi [| c2 r2]] |]; try discriminate.
  destruct ((h <=? 23) && (mi <=? 59)); discriminate.
Qed.

(** The designator either variant appends is never left to the
    runtime. *)
Lemma zone_of_decided (v : variant) (env : environment) :
  DateTime.parse_zone (zone_of v env) <> DateTime.Open.
Proof.
  destruct v; [discriminate |].
  unfold zone_of, offsetStr. cbn zeta.
  set (hh := Str.padStart _ 2 "0"). set (mm := Str.padStart _ 2 "0").
  assert (H : Str.all Str.is_digit (hh ++ ":" ++ mm) = false).
  { rewrite all_append. cbn. apply andb_false_r. }
  destruct (Num.ge _ _); exact (parse_zone_decided _ _ H).
Qed.

(** When the date part of [dateStr] reads as [y]-[m]-[d], the range is
    that of this day's number in the zone of the variant. *)
Lemma dayRange_of_date
    (legacy : legacy_parser) (v : variant) (env : environment) (dateStr : string)
    (y m d : Z) :
  (forall rest : string,
      DateTime.parse_date (dateStr ++ String "T" rest) = Some (y, m, d, String "T" rest)) ->
  0 <= y -> 1 <= m <= 12 ->
  dayRange legacy v env dateStr = range_of_day (epoch_day y m d) (zone_of v env).
Proof.
  intros Hp Hy Hm.
  destruct (parse_time_bounds _ (zone_of_shape v env)) as (T0 & T1 & D0 & D1).
  assert (D : dayRange legacy v env dateStr
              = {| start := DateTime.parse legacy
                              (dateStr ++ String "T" ("00:00:00" ++ zone_of v env));
                   end_ := DateTime.parse legacy
                             (dateStr ++ String "T" ("23:59:59" ++ zone_of v env)) |})
    by (destruct v; reflexivity).
  rewrite D. unfold DateTime.parse. rewrite !Hp, D0, D1, T0, T1.
  cbn [Ascii.eqb Bool.eqb andb].
  unfold range_of_day.
  pose proof (zone_of_decided v env) as Hz.
  destruct (DateTime.parse_zone (zone_of v env)) as [off | |];
    [| reflexivity | contradiction].
  rewrite MakeDay_counts by lia.
  unfold DateTime.MakeDate, DateTime.msPerDay. rewrite Z.add_0_r. reflexivity.
Qed.

Lemma dayRange_readable
    (legacy : legacy_parser) (v : variant) (env : environment) (y m d : Z) :
  readable_date y m d ->
  dayRange legacy v env (iso_date y m d) = range_of_day (epoch_day y m d) (zone_of v env).
Proof.
  intros Hr. apply dayRange_of_date.
  - intros rest. apply parse_date_readable, Hr.
  - destruct Hr as (Hy & _). lia.
  - destruct Hr as (_ & Hm & _). exact Hm.
Qed.

Lemma parse_date_year (y : Z) (rest : string) :
  0 <= y <= 9999 ->
  DateTime.parse_date (pad 4 y ++ String "T" rest) = Some (y, 1, 1, String "T" rest).
Proof.
  intros Hy. rewrite pad_four by exact Hy. unfold DateTime.parse_date.
  rewrite parse_year_four by exact Hy. reflexivity.
Qed.

Lemma parse_date_year_month (y m : Z) (rest : string) :
  0 <= y <= 9999 -> 1 <= m <= 12 ->
  DateTime.parse_date ((pad 4 y ++ "-" ++ pad 2 m) ++ String "T" rest)
  = Some (y, m, 1, String "T" rest).
Proof.
  intros Hy Hm. rewrite pad_four, pad_two by lia.
  rewrite !append_assoc.
  change ("-" ++ two_digits m ++ String "T" rest)
    with (String "-" (two_digits m ++ String "T" rest)).
  unfold DateTime.parse_date.
  rewrite parse_year_four by exact Hy.
  rewrite parse_dash_field_two by lia. reflexivity.
Qed.

Lemma TimeClip_some (t s : Z) : DateTime.TimeClip t = Some s -> s = t.
Proof.
  unfold DateTime.TimeClip. destruct (_ <=? _); [| discriminate].
  intros H. injection H as <-. reflexivity.
Qed.

Lemma range_of_day_bounds (day : Z) (zone : string) (s e : Z) :
  range_of_day day zone = {| start := Some s; end_ := Some e |} ->
  exists off, DateTime.parse_zone zone = DateTime.Value off /\
              s = day * 86400000 - off /\ e = day * 86400000 + 86399000 - off.
Proof.
  unfold range_of_day.
  destruct (DateTime.parse_zone zone) as [off | |]; [| discriminate | discriminate].
  intros H. injection H as Hs He.
  exists off. apply TimeClip_some in Hs, He. auto.
Qed.

Lemma days_to_month_succ (leap : bool) (m : Z) :
  1 <= m ->
  days_to_month leap (Z.to_nat m)
  = days_to_month leap (Z.to_nat (m - 1)) + month_length leap m.
Proof.
  intros H. replace (Z.to_nat m) with (S (Z.to_nat (m - 1))) by lia.
  cbn [days_to_month]. do 2 f_equal. lia.
Qed.

Lemma epoch_day_rolls_over (y m d : Z) :
  1 <= m ->
  epoch_day y m d = epoch_day y (m + 1) (d - month_length (leap_year y) m).
Proof.
  intros H. pose proof (days_to_month_succ (leap_year y) m H) as E.
  unfold epoch_day. replace (m + 1 - 1) with m by lia. lia.
Qed.

(** X13.  Whenever the Day-Range Resolver, in either variant and with
    whatever offset is configured, returns two numbers for a date string
    YYYY-MM-DD, the end is 86 399 000 milliseconds after the start: the
    range spans 23 hours, 59 minutes and 59 seconds. *)
Theorem day_range_spans_one_second_less_than_a_day
    (legacy : legacy_parser) (v : variant) (env : environment) (y m d s e : Z) :
  readable_date y m d ->
  dayRange legacy v env (iso_date y m d) = {| start := Some s; end_ := Some e |} ->
  e = s + 86399000.
Proof.
  intros Hr H. rewrite dayRange_readable in H by exact Hr.
  apply range_of_day_bounds in H. destruct H as (off & _ & -> & ->). lia.
Qed.

Lemma day_range_spans_one_second_less_than_a_day_witness :
  readable_date 2024 2 29 /\
  dayRange no_legacy part_000 india_env (iso_date 2024 2 29)
  = {| start := Some 1709145000000; end_ := Some 1709231399000 |} /\
  1709231399000 = 1709145000000 + 86399000.
Proof.
  assert (Hr : readable_date 2024 2 29) by (unfold readable_date; lia).
  assert (H : dayRange no_legacy part_000 india_env (iso_date 2024 2 29)
              = {| start := Some 1709145000000; end_ := Some 1709231399000 |})
    by evaluate.
  split; [exact Hr | split; [exact H |]].
  exact (day_range_spans_one_second_less_than_a_day no_legacy part_000 india_env 2024 2 29
           1709145000000 1709231399000 Hr H).
Defined.

(** X14.  The ranges follow the calendar.  For two date strings
    YYYY-MM-DD resolved under the same configuration, the starts differ
    by 86 400 000 milliseconds for each day between the dates; the range
    of an earlier day ends before the range of a later day starts, so
    that no instant belongs to two days; and between the end of a day
    and the start of the next lies one second that belongs to neither
    range. *)
Theorem day_ranges_follow_the_calendar
    (legacy : legacy_parser) (v : variant) (env : environment) (y1 m1 d1 y2 m2 d2 s1 e1 s2 e2 : Z) :
  readable_date y1 m1 d1 ->
  readable_date y2 m2 d2 ->
  dayRange legacy v env (iso_date y1 m1 d1) = {| start := Some s1; end_ := Some e1 |} ->
  dayRange legacy v env (iso_date y2 m2 d2) = {| start := Some s2; end_ := Some e2 |} ->
  s2 - s1 = (epoch_day y2 m2 d2 - epoch_day y1 m1 d1) * 86400000 /\
  (epoch_day y1 m1 d1 < epoch_day y2 m2 d2 -> e1 + 1000 <= s2) /\
  (y2 = y1 -> m2 = m1 -> d2 = d1 + 1 -> s2 = e1 + 1000).
Proof.
  intros Hr1 Hr2 H1 H2.
  rewrite dayRange_readable in H1, H2 by assumption.
  apply range_of_day_bounds in H1, H2.
  destruct H1 as (off & Ho & -> & ->). destruct H2 as (off' & Ho' & -> & ->).
  rewrite Ho in Ho'. injection Ho' as <-.
  split; [lia |]. split; [lia |].
  intros -> -> ->. unfold epoch_day. lia.
Qed.

Lemma day_ranges_follow_the_calendar_witness :
  readable_date 2024 12 31 /\
  readable_date 2025 1 1 /\
  dayRange no_legacy index_js demo_env (iso_date 2024 12 31)
  = {| start := Some 1735603200000; end_ := Some 1735689599000 |} /\
  dayRange no_legacy index_js demo_env (iso_date 2025 1 1)
  = {| start := Some 1735689600000; end_ := Some 1735775999000 |} /\
  1735689600000 - 1735603200000
  = (epoch_day 2025 1 1 - epoch_day 2024 12 31) * 86400000.
Proof.
  assert (Hr1 : readable_date 2024 12 31) by (unfold readable_date; lia).
  assert (Hr2 : readable_date 2025 1 1) by (unfold readable_date; lia).
  assert (H1 : dayRange no_legacy index_js demo_env (iso_date 2024 12 31)
               = {| start := Some 1735603200000; end_ := Some 1735689599000 |})
    by evaluate.
  assert (H2 : dayRange no_legacy index_js demo_env (iso_date 2025 1 1)
               = {| start := Some 1735689600000; end_ := Some 1735775999000 |})
    by evaluate.
  split; [exact Hr1 | split; [exact Hr2 | split; [exact H1 | split; [exact H2 |]]]].
  exact (proj1 (day_ranges_follow_the_calendar no_legacy index_js demo_env 2024 12 31 2025 1 1
                  1735603200000 1735689599000 1735689600000 1735775999000
                  Hr1 Hr2 H1 H2)).
Defined.

(** X15.  A day number past the end of its month is not rejected.  For
    a date string YYYY-MM-DD whose day is at most 31 but more than the
    month has, both variants return the range of the day so many days
    into the following month: ["2025-02-30"] gives the range of
    ["2025-03-02"]. *)
Theorem day_past_the_end_of_the_month_rolls_over
    (legacy : legacy_parser) (v : variant) (env : environment) (y m d : Z) :
  0 <= y <= 9999 ->
  1 <= m <= 11 ->
  month_length (leap_year y) m < d <= 31 ->
  dayRange legacy v env (iso_date y m d)
  = dayRange legacy v env (iso_date y (m + 1) (d - month_length (leap_year y) m)).
Proof.
  intros Hy Hm Hd.
  pose proof (month_length_bound (leap_year y) m) as Hl.
  rewrite !dayRange_readable by (unfold readable_date; lia).
  rewrite <- epoch_day_rolls_over by lia. reflexivity.
Qed.

Lemma day_past_the_end_of_the_month_rolls_over_witness :
  month_length (leap_year 2025) 2 < 30 <= 31 /\
  iso_date 2025 2 30 = "2025-02-30" /\
  iso_date 2025 (2 + 1) (30 - month_length (leap_year 2025) 2) = "2025-03-02" /\
  dayRange no_legacy part_000 demo_env (iso_date 2025 2 30)
  = dayRange no_legacy part_000 demo_env
      (iso_date 2025 (2 + 1) (30 - month_length (leap_year 2025) 2)).
Proof.
  assert (Hd : month_length (leap_year 2025) 2 < 30 <= 31) by (cbn; lia).
  split; [exact Hd | split; [reflexivity | split; [reflexivity |]]].
  exact (day_past_the_end_of_the_month_rolls_over no_legacy part_000 demo_env 2025 2 30
           ltac:(lia) ltac:(lia) Hd).
Defined.

(** X16.  A date string may stop after the year or after the month; it
    then means the first day: for ["2025"] both variants return the
    range of ["2025-01-01"], and for ["2025-03"] the range of
    ["2025-03-01"], not that of the whole year or month. *)
Theorem short_dates_mean_the_first_day
    (legacy : legacy_parser) (v : variant) (env : environment) (y m : Z) :
  0 <= y <= 9999 ->
  1 <= m <= 12 ->
  dayRange legacy v env (pad 4 y) = dayRange legacy v env (iso_date y 1 1) /\
  dayRange legacy v env (pad 4 y ++ "-" ++ pad 2 m) = dayRange legacy v env (iso_date y m 1).
Proof.
  intros Hy Hm. split.
  - rewrite (dayRange_of_date legacy v env (pad 4 y) y 1 1) by
      (try lia; intros rest; apply parse_date_year; exact Hy).
    rewrite dayRange_readable by (unfold readable_date; lia). reflexivity.
  - rewrite (dayRange_of_date legacy v env (pad 4 y ++ "-" ++ pad 2 m) y m 1) by
      (try lia; intros rest; apply parse_date_year_month; assumption).
    rewrite dayRange_readable by (unfold readable_date; lia). reflexivity.
Qed.

Lemma short_dates_mean_the_first_day_witness :
  pad 4 2025 ++ "-" ++ pad 2 3 = "2025-03" /\
  iso_date 2025 3 1 = "2025-03-01" /\
  dayRange no_legacy part_000 demo_env (pad 4 2025 ++ "-" ++ pad 2 3)
  = dayRange no_legacy part_000 demo_env (iso_date 2025 3 1).
Proof.
  split; [reflexivity | split; [reflexivity |]].
  exact (proj2 (short_dates_mean_the_first_day no_legacy part_000 demo_env 2025 3
                  ltac:(lia) ltac:(lia))).
Defined.

(** X17.  The default offset of +8:00 applies only when the variable
    [TIMEZONE_OFFSET_HOURS] is unset.  When it is set to a string that
    [Number] reads as zero (the empty string is one), [getDayRange]
    returns the range of the UTC day, that of [getDayRangeUTC]; when it
    is set to a string that is not a number, both bounds are NaN for
    every date string YYYY-MM-DD. *)
Theorem offset_empty_or_not_a_number
    (legacy : legacy_parser) (env : environment) (y m d : Z) (s : string) :
  readable_date y m d ->
  env_TIMEZONE_OFFSET_HOURS env = Some s ->
  (forall sign : bool,
      Num.of_string s = S754_zero sign ->
      getDayRange legacy env (iso_date y m d) = getDayRangeUTC legacy (iso_date y m d)) /\
  (Num.is_nan (Num.of_string s) = true ->
   getDayRange legacy env (iso_date y m d) = {| start := None; end_ := None |}) /\
  Num.of_string "" = Num.pzero.
Proof.
  intros Hr He.
  pose proof (dayRange_readable legacy part_000 env y m d Hr) as P.
  pose proof (dayRange_readable legacy index_js env y m d Hr) as U.
  change (dayRange legacy part_000 env (iso_date y m d))
    with (getDayRange legacy env (iso_date y m d)) in P.
  change (dayRange legacy index_js env (iso_date y m d))
    with (getDayRangeUTC legacy (iso_date y m d)) in U.
  rewrite P, U. unfold zone_of, tzOffsetHours. rewrite He.
  split; [| split; [| reflexivity]].
  - intros sign ->. destruct sign; reflexivity.
  - destruct (Num.of_string s); try discriminate. intros _. reflexivity.
Qed.

Lemma offset_empty_or_not_a_number_witness :
  readable_date 2025 1 1 /\
  env_TIMEZONE_OFFSET_HOURS empty_offset_env = Some "" /\
  Num.of_string "" = S754_zero false /\
  getDayRange no_legacy empty_offset_env (iso_date 2025 1 1)
  = getDayRangeUTC no_legacy (iso_date 2025 1 1).
Proof.
  assert (Hr : readable_date 2025 1 1) by (unfold readable_date; lia).
  split; [exact Hr | split; [reflexivity | split; [reflexivity |]]].
  exact (proj1 (offset_empty_or_not_a_number no_legacy empty_offset_env 2025 1 1 ""
                  Hr eq_refl)
           false eq_refl).
Defined.

(** ** The keep-alive ping *)

(** X18.  The keep-alive is switched off by the value ["false"] of
    [KEEP_ALIVE] and by no other: unset, empty, or any other string
    (["FALSE"], ["0"], ["no"]) leaves it on.  Switched off,
    [keepAlivePing] requests nothing and prints nothing.  Switched on,
    each run requests [SELF_PING_URL] once and prints one line, with
    [console.log] when the request is fulfilled and with [console.warn]
    when it is rejected; no error leaves it. *)
Theorem keep_alive_is_switched_off_by_false_alone
    (s : settings) (axios_get : string -> axios_result) :
  (KEEP_ALIVE s = false <-> env_KEEP_ALIVE s = Some "false") /\
  (env_KEEP_ALIVE s = Some "false" ->
   keepAlivePing s axios_get = {| requested := []; printed := [] |}) /\
  (env_KEEP_ALIVE s <> Some "false" ->
   requested (keepAlivePing s axios_get) = [SELF_PING_URL s] /\
   exists line : string,
     printed (keepAlivePing s axios_get)
     = [match axios_get (SELF_PING_URL s) with
        | Fulfilled _ => console_log line
        | Rejected _ _ => console_warn line
        end]).
Proof.
  assert (K : KEEP_ALIVE s = false <-> env_KEEP_ALIVE s = Some "false").
  { unfold KEEP_ALIVE, or_default, present, or_empty.
    destruct (env_KEEP_ALIVE s) as [t |]; [| split; discriminate].
    destruct (String.eqb_spec t "") as [-> | Ht]; cbn [negb]; [split; discriminate |].
    destruct (String.eqb_spec t "false") as [-> | Hf]; cbn [negb].
    - split; reflexivity.
    - split; [discriminate | intros H; injection H as ->; contradiction]. }
  split; [exact K | split].
  - intros H. apply K in H. unfold keepAlivePing. rewrite H. reflexivity.
  - intros H. unfold keepAlivePing.
    destruct (KEEP_ALIVE s) eqn:E; [| exfalso; apply H, K; reflexivity].
    cbn [negb]. cbn zeta.
    destruct (axios_get (SELF_PING_URL s)) as [st | err [st |]]; cbn [requested printed];
      (split; [reflexivity | eexists; reflexivity]).
Qed.

Lemma keep_alive_is_switched_off_by_false_alone_witness :
  env_KEEP_ALIVE switched_off = Some "false" /\
  keepAlivePing switched_off (fun _ => Fulfilled 200) = {| requested := []; printed := [] |}.
Proof.
  split; [reflexivity |].
  exact (proj1 (proj2 (keep_alive_is_switched_off_by_false_alone switched_off
                         (fun _ => Fulfilled 200))) eq_refl).
Defined.

(** X19.  The interval between two pings is never zero and never NaN.
    It is 14 minutes, 840 000 milliseconds, when [PING_INTERVAL_MS] is
    unset and when [Number] reads its value as NaN or as zero (the empty
    string, ["0"], a word); otherwise it is the number read. *)
Theorem ping_interval_is_never_zero (s : settings) :
  Num.is_nan (PING_INTERVAL_MS s) = false /\
  (forall sign : bool, PING_INTERVAL_MS s <> S754_zero sign) /\
  (env_PING_INTERVAL_MS s = None -> PING_INTERVAL_MS s = Num.of_Z 840000) /\
  (forall t : string,
      env_PING_INTERVAL_MS s = Some t ->
      PING_INTERVAL_MS s
      = match Num.of_string t with
        | S754_nan | S754_zero _ => Num.of_Z 840000
        | n => n
        end) /\
  Num.of_string "" = Num.pzero.
Proof.
  assert (D : Num.mul (Num.mul (Num.of_Z 14) (Num.of_Z 60)) (Num.of_Z 1000)
              = Num.of_Z 840000) by evaluate.
  unfold PING_INTERVAL_MS. rewrite D.
  destruct (env_PING_INTERVAL_MS s) as [t |].
  - destruct (Num.of_string t) eqn:E; cbn [truthy Num.is_nan];
      repeat split; try discriminate; try reflexivity;
      intros t' H; injection H as <-; rewrite E; reflexivity.
  - cbn [truthy]. repeat split; try discriminate; try reflexivity.
Qed.

Lemma ping_interval_is_never_zero_witness :
  env_PING_INTERVAL_MS switched_off = Some "0" /\
  PING_INTERVAL_MS switched_off = Num.of_Z 840000.
Proof.
  split; [reflexivity |].
  exact (proj1 (proj2 (proj2 (proj2 (ping_interval_is_never_zero switched_off))))
           "0" eq_refl).
Defined.
